(** * Addresses context of the desktop wallet

    A shallow embedding of [src/contexts/addresses.tsx]: the [Address]
    class with its pending/confirmed reconciliation, and the
    [AddressesContextProvider] with the registry map, the data-fetching
    callbacks, the initialisation effect and the polling effect.

    JavaScript [bigint] values are unbounded integers and are modelled by
    [Z]; JavaScript strings are modelled by [string]. *)

From Stdlib Require Import ZArith String List Lia.
From stdpp Require Import base decidable option list strings pretty.
Import ListNotations.

Local Open Scope string_scope.
Local Open Scope list_scope.
Local Open Scope Z_scope.

(** ** Types of the data model *)

(** [export type TransactionType = 'consolidation' | 'transfer' | 'sweep'] *)
Inductive TransactionType : Type :=
| consolidation
| transfer
| sweep.

#[global] Instance TransactionType_eq_dec : EqDecision TransactionType.
Proof. solve_decision. Defined.

Abbreviation AddressHash := string (only parsing).
Abbreviation NetworkName := string (only parsing).
Abbreviation TimeInMs := Z (only parsing).

(** A pending transaction ([SimpleTx] / [PendingTx]): the optional
    [amount?: bigint] field is [None] when the property is absent. *)
Module PendingTx.
Record t : Type := mk {
  txId : string;
  fromAddress : string;
  toAddress : string;
  timestamp : Z;
  type : TransactionType;
  network : NetworkName;
  amount : option Z
}.

#[global] Instance eq_dec : EqDecision t.
Proof. solve_decision. Defined.
End PendingTx.

(** A confirmed transaction of the explorer API. The context only reads
    its [hash]; the remaining payload is kept as opaque data. *)
Module Transaction.
Record t : Type := mk {
  hash : string;
  timestamp : Z;
  payload : string
}.

#[global] Instance eq_dec : EqDecision t.
Proof. solve_decision. Defined.
End Transaction.

(** An unconfirmed transaction as returned by the explorer endpoint
    [getAddressesAddressUnconfirmedTransactions]. *)
Module UnconfirmedTransaction.
Record t : Type := mk {
  hash : string;
  type : string;
  payload : string
}.
End UnconfirmedTransaction.

(** [AddressSettings]: [isMain] with optional [label] and [color]. *)
Module AddressSettings.
Record t : Type := mk {
  isMain : bool;
  label : option string;
  color : option string
}.

#[global] Instance eq_dec : EqDecision t.
Proof. solve_decision. Defined.
End AddressSettings.

(** [AddressMetadata = AddressSettings & { index }]. *)
Module AddressMetadata.
Record t : Type := mk {
  index : Z;
  isMain : bool;
  label : option string;
  color : option string
}.
End AddressMetadata.

(** [AddressInfo] of the explorer API. *)
Module AddressInfo.
Record t : Type := mk {
  balance : string;
  lockedBalance : string;
  txNumber : Z
}.

#[global] Instance eq_dec : EqDecision t.
Proof. solve_decision. Defined.
End AddressInfo.

(** ** The [Address] class *)

Module Address.

(** The [transactions] bucket of an address. *)
Record bucket : Type := mkBucket {
  confirmed : list Transaction.t;
  pending : list PendingTx.t;
  loadedPage : Z
}.

Record t : Type := mk {
  hash : AddressHash;
  shortHash : string;
  publicKey : string;
  privateKey : string;
  group : Z;
  index : Z;
  settings : AddressSettings.t;
  details : AddressInfo.t;
  transactions : bucket;
  availableBalance : Z;
  lastUsed : option TimeInMs;
  network : option NetworkName
}.

#[global] Instance bucket_eq_dec : EqDecision bucket.
Proof. solve_decision. Defined.

#[global] Instance eq_dec : EqDecision t.
Proof. solve_decision. Defined.

(** Field assignments [this.f = v]. *)
Definition set_settings (v : AddressSettings.t) (a : t) : t :=
  mk (hash a) (shortHash a) (publicKey a) (privateKey a) (group a) (index a)
     v (details a) (transactions a) (availableBalance a) (lastUsed a) (network a).

Definition set_transactions (v : bucket) (a : t) : t :=
  mk (hash a) (shortHash a) (publicKey a) (privateKey a) (group a) (index a)
     (settings a) (details a) v (availableBalance a) (lastUsed a) (network a).

Definition set_availableBalance (v : Z) (a : t) : t :=
  mk (hash a) (shortHash a) (publicKey a) (privateKey a) (group a) (index a)
     (settings a) (details a) (transactions a) v (lastUsed a) (network a).

Definition set_network (v : option NetworkName) (a : t) : t :=
  mk (hash a) (shortHash a) (publicKey a) (privateKey a) (group a) (index a)
     (settings a) (details a) (transactions a) (availableBalance a) (lastUsed a) v.

Definition set_pending (v : list PendingTx.t) (a : t) : t :=
  set_transactions
    (mkBucket (confirmed (transactions a)) v (loadedPage (transactions a))) a.

(** [constructor(hash, publicKey, privateKey, index, settings)]. The
    group comes from the SDK's [addressToGroup(hash,
    TOTAL_NUMBER_OF_GROUPS)], passed in as [toGroup]. *)
Definition new (toGroup : AddressHash -> Z)
    (hash publicKey privateKey : string) (index : Z)
    (settings : AddressSettings.t) : t :=
  mk hash (String.substring 0 10 hash +:+ "...") publicKey privateKey
     (toGroup hash) index settings
     (AddressInfo.mk "" "" 0)
     (mkBucket [] [] 0)
     0 None None.

(** [this.settings.label || this.shortHash]: an absent or empty label
    is falsy. *)
Definition getName (a : t) : string :=
  match AddressSettings.label (settings a) with
  | Some l => if bool_decide (l = "") then shortHash a else l
  | None => shortHash a
  end.

(** [this.transactions.pending.push(transaction)] *)
Definition addPendingTransaction (transaction : PendingTx.t) (a : t) : t :=
  set_pending (pending (transactions a) ++ [transaction]) a.

(** [!this.transactions.confirmed.find((confirmedTx) =>
      confirmedTx.hash === pendingTx.txId)]: [find] yields an object
    (truthy) or [undefined]. *)
Definition notConfirmed (confirmedTxs : list Transaction.t)
    (pendingTx : PendingTx.t) : bool :=
  match List.find
          (fun confirmedTx =>
             bool_decide (Transaction.hash confirmedTx = PendingTx.txId pendingTx))
          confirmedTxs with
  | Some _ => false
  | None => true
  end.

(** [(tx) => tx.type === 'sweep' || tx.type === 'consolidation'] *)
Definition isSweepOrConsolidation (tx : PendingTx.t) : bool :=
  bool_decide (PendingTx.type tx = sweep)
  || bool_decide (PendingTx.type tx = consolidation).

(** [(acc, tx) => (tx.amount ? acc + BigInt(tx.amount) : acc)]: an
    absent amount and the amount [0n] are both falsy. *)
Definition addAmount (acc : Z) (tx : PendingTx.t) : Z :=
  match PendingTx.amount tx with
  | Some amount => if (amount =? 0)%Z then acc else acc + amount
  | None => acc
  end.

(** The value bound to [totalAmountOfPendingTxs]. *)
Definition totalAmountOfPendingTxs (a : t) : Z :=
  match List.find isSweepOrConsolidation (pending (transactions a)) with
  | Some _ => availableBalance a
  | None => fold_left addAmount (pending (transactions a)) 0
  end.

Definition updatePendingTransactions (a : t) : t :=
  let newPendingTransactions :=
    List.filter (notConfirmed (confirmed (transactions a)))
                (pending (transactions a)) in
  let a := set_pending newPendingTransactions a in
  set_availableBalance (availableBalance a - totalAmountOfPendingTxs a) a.

End Address.

(** ** The execution model of the provider

    [Address] instances are JavaScript objects: the registry map, the
    arrays handed to the callbacks and the callers all hold references to
    the same object. Objects live in a heap indexed by locations, and the
    registry maps keys to locations. *)

Abbreviation loc := nat (only parsing).

(** A JavaScript [Map<string, Address>]: keys are kept in insertion order,
    and [set] on an existing key replaces the value in place. *)
Module JsMap.
Definition t : Type := list (string * loc).

Definition empty : t := [].

Fixpoint get (k : string) (m : t) : option loc :=
  match m with
  | [] => None
  | (k', v) :: m' => if bool_decide (k' = k) then Some v else get k m'
  end.

Fixpoint set (k : string) (v : loc) (m : t) : t :=
  match m with
  | [] => [(k, v)]
  | (k', v') :: m' =>
      if bool_decide (k' = k) then (k, v) :: m' else (k', v') :: set k v m'
  end.

Definition values (m : t) : list loc := List.map snd m.
Definition keys (m : t) : list string := List.map fst m.
End JsMap.

(** A thrown JavaScript value. *)
Inductive Exn : Type :=
| Error (message : string).

Module SnackbarMessage.
Record t : Type := mk {
  text : string;
  type : string;
  duration : option Z
}.
End SnackbarMessage.

(** Calls on the remote data client; each one is an HTTP request for one
    address. *)
Inductive ClientCall : Type :=
| FetchAddressDetails (address : loc)
| FetchAddressConfirmedTransactions (address : loc)
| FetchAddressConfirmedTransactionsNextPage (address : loc)
| GetAddressesAddressUnconfirmedTransactions (hash : AddressHash).

(** Redux actions dispatched by the provider. *)
Inductive Action : Type :=
| addressGenerationStarted
| addressesGenerated.

(** Messages posted to the derivation workers. *)
Inductive WorkerRequest : Type :=
| DeriveAddressesFromIndexes (mnemonic : string) (indexesToDerive : list Z)
| DeriveAddressesInGroups (mnemonic : string) (groups : list Z) (skipIndexes : list Z).

(** What the provider does to its collaborators, in program order. *)
Inductive Event : Type :=
| SetSnackbarMessage (message : SnackbarMessage.t)
| Call (call : ClientCall)
| SetAddressesState
| Dispatch (action : Action)
| PostMessage (request : WorkerRequest)
| WorkerTerminate
| UnhandledRejection (reason : Exn).

(** The key under which address metadata is persisted: the current code
    passes [{ mnemonic, walletName }], the earlier revision the account
    name. *)
Inductive StorageKey : Type :=
| WalletKey (mnemonic walletName : string)
| AccountKey (accountName : string).

#[global] Instance StorageKey_eq_dec : EqDecision StorageKey.
Proof. solve_decision. Defined.

Module AddressMetadataStorage.
Definition t : Type := list (StorageKey * AddressMetadata.t).

(** Modelled from the spec: the persistent-storage module
    [address-metadata] is not part of the sources at hand. The Address
    Metadata Store persists per-address label, color and is-main flags
    keyed by wallet identity: [load(key)] returns the metadata stored
    for that wallet. *)
Definition load (key : StorageKey) (s : t) : list AddressMetadata.t :=
  List.map snd (List.filter (fun e => bool_decide (fst e = key)) s).

(** Modelled from the spec: [store(key, index, settings)] records the
    settings of the address with that index for that wallet, replacing
    an earlier record of the same index. *)
Definition store (key : StorageKey) (index : Z)
    (settings : AddressSettings.t) (s : t) : t :=
  List.filter
    (fun e => negb (bool_decide (fst e = key)
                    && bool_decide (AddressMetadata.index (snd e) = index))) s
  ++ [(key,
       AddressMetadata.mk index (AddressSettings.isMain settings)
         (AddressSettings.label settings) (AddressSettings.color settings))].
End AddressMetadataStorage.

(** The state the provider reads and writes. *)
Record World : Type := mkWorld {
  heap : list Address.t;
  addressesState : JsMap.t;
  isLoadingData : bool;
  storage : AddressMetadataStorage.t;
  previousMnemonic : option string;
  previousNodeApiHost : option string;
  previousExplorerApiHost : option string;
  trace : list Event
}.

Definition set_heap (v : list Address.t) (w : World) : World :=
  mkWorld v (addressesState w) (isLoadingData w) (storage w)
    (previousMnemonic w) (previousNodeApiHost w) (previousExplorerApiHost w)
    (trace w).

Definition set_addressesState (v : JsMap.t) (w : World) : World :=
  mkWorld (heap w) v (isLoadingData w) (storage w)
    (previousMnemonic w) (previousNodeApiHost w) (previousExplorerApiHost w)
    (trace w).

Definition set_isLoadingData (v : bool) (w : World) : World :=
  mkWorld (heap w) (addressesState w) v (storage w)
    (previousMnemonic w) (previousNodeApiHost w) (previousExplorerApiHost w)
    (trace w).

Definition set_storage (v : AddressMetadataStorage.t) (w : World) : World :=
  mkWorld (heap w) (addressesState w) (isLoadingData w) v
    (previousMnemonic w) (previousNodeApiHost w) (previousExplorerApiHost w)
    (trace w).

Definition set_previous (m n e : option string) (w : World) : World :=
  mkWorld (heap w) (addressesState w) (isLoadingData w) (storage w)
    m n e (trace w).

Definition set_trace (v : list Event) (w : World) : World :=
  mkWorld (heap w) (addressesState w) (isLoadingData w) (storage w)
    (previousMnemonic w) (previousNodeApiHost w) (previousExplorerApiHost w)
    v.

(** Computations: they read and write the world and either return or
    throw; what was written before a throw stays written. *)
Definition M (A : Type) : Type := World -> (Exn + A) * World.

#[global] Instance M_ret : MRet M := fun A x w => (inr x, w).

#[global] Instance M_bind : MBind M := fun A B f m w =>
  match m w with
  | (inr x, w') => f x w'
  | (inl e, w') => (inl e, w')
  end.

Definition throw {A : Type} (e : Exn) : M A := fun w => (inl e, w).

(** [try { body } catch (e) { handler(e) }] *)
Definition try_catch {A : Type} (body : M A) (handler : Exn -> M A) : M A :=
  fun w =>
    match body w with
    | (inr x, w') => (inr x, w')
    | (inl e, w') => handler e w'
    end.

Definition gets {A : Type} (f : World -> A) : M A := fun w => (inr (f w), w).
Definition modify (f : World -> World) : M unit := fun w => (inr tt, f w).
Definition emit (e : Event) : M unit :=
  modify (fun w => set_trace (trace w ++ [e]) w).

(** Calling an [async] function without awaiting it: a rejection of the
    promise does not reach the caller. The callee is run to completion at
    the point of the call; interleaving of its continuation with the
    caller is not modelled. *)
Definition detached (m : M unit) : M unit :=
  try_catch m (fun e => emit (UnhandledRejection e)).

(** [xs.map(f)] for an [f] with effects. *)
Fixpoint map_M {A B : Type} (f : A -> M B) (xs : list A) : M (list B) :=
  match xs with
  | [] => mret []
  | x :: xs' => y ← f x; ys ← map_M f xs'; mret (y :: ys)
  end.

(** [for (const x of xs) body(x)] *)
Fixpoint for_of {A : Type} (xs : list A) (body : A -> M unit) : M unit :=
  match xs with
  | [] => mret tt
  | x :: xs' => body x ;; for_of xs' body
  end.

(** Reading and writing the object at a location. A location outside the
    heap does not denote an object; using one throws. *)
Definition deref (l : loc) : M Address.t := fun w =>
  match heap w !! l with
  | Some a => (inr a, w)
  | None => (inl (Error "TypeError"), w)
  end.

Definition assign (l : loc) (f : Address.t -> Address.t) : M unit :=
  a ← deref l; modify (fun w => set_heap (<[l := f a]> (heap w)) w).

(** [new Address(...)]: the object is placed at the next free location. *)
Definition alloc (a : Address.t) : M loc := fun w =>
  (inr (length (heap w)), set_heap (heap w ++ [a]) w).

(** JavaScript truthiness of an optional string and [a || b]. *)
Definition truthy (s : option string) : bool :=
  match s with
  | Some s => negb (bool_decide (s = ""))
  | None => false
  end.

Definition js_or (a b : option string) : option string :=
  if truthy a then a else b.

(** The remote data client. Its methods mutate the address they are
    given or throw; each is given here by what it leaves in the object. *)
Module Client.
Record t : Type := mk {
  fetchAddressDetails : Address.t -> Exn + Address.t;
  fetchAddressConfirmedTransactions : Address.t -> Exn + Address.t;
  fetchAddressConfirmedTransactionsNextPage : Address.t -> Exn + Address.t;
  getAddressesAddressUnconfirmedTransactions :
    AddressHash -> Exn + list UnconfirmedTransaction.t
}.
End Client.

(** [await client.method(address)]: the request is issued, then the
    object is updated or the call throws. *)
Definition call_on_address (call : ClientCall)
    (method : Address.t -> Exn + Address.t) (address : loc) : M unit :=
  emit (Call call) ;;
  a ← deref address;
  match method a with
  | inr a' => assign address (fun _ => a')
  | inl e => throw e
  end.

(** ** Asynchronous functions that are not awaited

    An [async] function runs, when it is called, until its first [await];
    it is resumed each time the promise it awaits is settled and then
    runs until its next [await] or its end. A task is what is left of a
    call: nothing when it has ended, or else what it does when it is
    resumed, which leaves a task again. Between two resumptions of a
    task other tasks may run. *)
#[warnings="-register-all"]
Inductive Task (A : Type) : Type :=
| Settled (x : A)
| Pending (resume : World -> (Exn + Task A) * World).

Arguments Settled {A} x.
Arguments Pending {A} resume.

(** An [async] function: the run until the first [await], which leaves
    the task or rejects. *)
Record Async (A : Type) : Type := mkAsync { start : M (Task A) }.

Arguments mkAsync {A} start.
Arguments start {A} a.

Fixpoint Task_bind {A B : Type} (f : A -> Async B) (t : Task A) : M (Task B) :=
  match t with
  | Settled x => start (f x)
  | Pending resume =>
      mret (Pending (fun w =>
                       match resume w with
                       | (inr t', w') => Task_bind f t' w'
                       | (inl e, w') => (inl e, w')
                       end))
  end.

#[global] Instance Async_ret : MRet Async := fun A x => mkAsync (mret (Settled x)).

#[global] Instance Async_bind : MBind Async := fun A B f m =>
  mkAsync (t ← start m; Task_bind f t).

(** A step without [await]. *)
Definition lift {A : Type} (m : M A) : Async A :=
  mkAsync (x ← m; mret (Settled x)).

(** [await promise]: the function is suspended; [response] is what the
    settling of the promise does and gives once the function is
    resumed. *)
Definition await {A : Type} (response : M A) : Async A :=
  mkAsync (mret (Pending (x ← response; mret (Settled x)))).

(** [try { body } catch (e) { handler(e) }] around code with [await]s. *)
Fixpoint Task_catch {A : Type} (handler : Exn -> Async A) (t : Task A)
  : Task A :=
  match t with
  | Settled x => Settled x
  | Pending resume =>
      Pending (fun w =>
                 match resume w with
                 | (inr t', w') => (inr (Task_catch handler t'), w')
                 | (inl e, w') => start (handler e) w'
                 end)
  end.

Definition try_catch_async {A : Type} (body : Async A)
    (handler : Exn -> Async A) : Async A :=
  mkAsync (fun w =>
             match start body w with
             | (inr t, w') => (inr (Task_catch handler t), w')
             | (inl e, w') => start (handler e) w'
             end).

(** [for (const x of xs) body(x)] with [await]s in the body. *)
Fixpoint for_of_async {A : Type} (xs : list A) (body : A -> Async unit)
  : Async unit :=
  match xs with
  | [] => mret tt
  | x :: xs' => body x ;; for_of_async xs' body
  end.

(** [await client.method(address)] in a function that may not be alone:
    the request is issued at once, and the object is updated, or the call
    throws, when the function is resumed. *)
Definition call_on_address_async (call : ClientCall)
    (method : Address.t -> Exn + Address.t) (address : loc) : Async unit :=
  lift (emit (Call call)) ;;
  await (a ← deref address;
         match method a with
         | inr a' => assign address (fun _ => a')
         | inl e => throw e
         end).

(** Calling an [async] function without awaiting it: it runs until its
    first [await] and the caller goes on with the task left pending; a
    rejection does not reach the caller. *)
Definition unawaited (m : Async unit) : M (Task unit) :=
  try_catch (start m)
    (fun e => emit (UnhandledRejection e) ;; mret (Settled tt)).

(** The promise a pending task awaits is settled: the task runs until its
    next [await] or its end. *)
Definition resume (t : Task unit) : M (Task unit) :=
  match t with
  | Settled x => mret (Settled x)
  | Pending resume =>
      try_catch resume
        (fun e => emit (UnhandledRejection e) ;; mret (Settled tt))
  end.

(** The event loop: [schedule] names the pending tasks in the order in
    which their promises are settled. *)
Fixpoint eventLoop (schedule : list nat) (tasks : list (Task unit))
  : M (list (Task unit)) :=
  match schedule with
  | [] => mret tasks
  | i :: rest =>
      match tasks !! i with
      | Some t => t' ← resume t; eventLoop rest (<[i := t']> tasks)
      | None => eventLoop rest tasks
      end
  end.

(** Awaiting an [async] function while nothing else runs. *)
Fixpoint await_task {A : Type} (t : Task A) : M A :=
  match t with
  | Settled x => mret x
  | Pending resume =>
      fun w =>
        match resume w with
        | (inr t', w') => await_task t' w'
        | (inl e, w') => (inl e, w')
        end
  end.

Definition awaited {A : Type} (m : Async A) : M A :=
  t ← start m; await_task t.

(** ** [AddressesContextProvider]

    The section variables are the values the component closes over in one
    render: the global context, the Redux selections and the SDK
    functions it imports. The translation function [t] of i18next is
    taken to be the identity on its keys, with interpolation done by
    concatenation. *)
Section Provider.

Variable activeWalletName : string.
Variable client : option Client.t.
Variable mnemonic : option string.
Variable isPassphraseUsed : bool.
Variable network_name : NetworkName.
Variable network_status : string.
Variable network_settings_nodeHost : string.
Variable network_settings_explorerApiHost : string.

Variable addressToGroup : AddressHash -> Z.
Variable TOTAL_NUMBER_OF_GROUPS : nat.
Variable getHumanReadableError : Exn -> string -> string.
Variable convertUnconfirmedTxToPendingTx :
  UnconfirmedTransaction.t -> AddressHash -> NetworkName -> PendingTx.t.

(** [addressState.network === network.name] *)
Definition isOfNetwork (w : World) (address : loc) : bool :=
  match heap w !! address with
  | Some a => bool_decide (Address.network a = Some network_name)
  | None => false
  end.

Definition addressesOfCurrentNetwork (w : World) : list loc :=
  List.filter (isOfNetwork w) (JsMap.values (addressesState w)).

(** [address.transactions.pending.filter((pendingTx) =>
      pendingTx.network === network.name).length > 0] *)
Definition hasPendingSentTxs (w : World) (address : loc) : bool :=
  match heap w !! address with
  | Some a =>
      (0 <? length
              (List.filter
                 (fun pendingTx =>
                    bool_decide (PendingTx.network pendingTx = network_name))
                 (Address.pending (Address.transactions a))))%nat
  | None => false
  end.

Definition addressesWithPendingSentTxs (w : World) : list loc :=
  List.filter (hasPendingSentTxs w) (addressesOfCurrentNetwork w).

Definition constructMapKey (addressHash : AddressHash) : string :=
  addressHash +:+ "-" +:+ network_name.

Definition getAddress (addressHash : AddressHash) (w : World) : option loc :=
  JsMap.get (constructMapKey addressHash) (addressesState w).

(** The body of the loop in the updater given to [setAddressesState]:
    [newAddress.network = network.name] and
    [newAddressesState.set(constructMapKey(newAddress.hash), newAddress)]. *)
Definition registerAddress (newAddress : loc) : M unit :=
  assign newAddress (Address.set_network (Some network_name)) ;;
  a ← deref newAddress;
  modify (fun w =>
    set_addressesState
      (JsMap.set (constructMapKey (Address.hash a)) newAddress
         (addressesState w)) w).

Definition updateAddressesState (newAddresses : list loc) : M unit :=
  if (length newAddresses =? 0)%nat then mret tt
  else
    emit SetAddressesState ;;
    for_of newAddresses registerAddress.

Definition setAddress (address : loc) : M unit :=
  updateAddressesState [address].

Definition storeMetadata (key : StorageKey) (address : loc)
    (settings : AddressSettings.t) : M unit :=
  a ← deref address;
  modify (fun w =>
    set_storage
      (AddressMetadataStorage.store key (Address.index a) settings (storage w)) w).

Definition updateAddressSettings (address : loc)
    (settings : AddressSettings.t) : M unit :=
  match mnemonic with
  | Some m =>
      if bool_decide (m = "")
      then throw (Error "Could not update address settings, mnemonic not found")
      else
        (if negb isPassphraseUsed
         then storeMetadata (WalletKey m activeWalletName) address settings
         else mret tt) ;;
        assign address (Address.set_settings settings) ;;
        setAddress address
  | None => throw (Error "Could not update address settings, mnemonic not found")
  end.

Definition displayDataFetchingError : M unit :=
  emit (SetSnackbarMessage
          (SnackbarMessage.mk
             "Could not fetch data because the wallet is offline"
             "alert" (Some 5000))).

(** [!client || network.status === 'offline'] *)
Definition unavailable : bool :=
  match client with
  | Some _ => bool_decide (network_status = "offline")
  | None => true
  end.

(** The body of [txs.forEach] in [fetchPendingTxs]. *)
Definition addIfNew (address : loc) (tx : UnconfirmedTransaction.t) : M unit :=
  a ← deref address;
  if bool_decide (UnconfirmedTransaction.type tx = "Unconfirmed")
     && negb (existsb
                (fun t => bool_decide
                            (PendingTx.txId t = UnconfirmedTransaction.hash tx))
                (Address.pending (Address.transactions a)))
  then
    assign address
      (Address.addPendingTransaction
         (convertUnconfirmedTxToPendingTx tx (Address.hash a) network_name))
  else mret tt.

Definition fetchPendingTxs (addresses : list loc) : M unit :=
  match client with
  | Some c =>
      if bool_decide (network_status = "offline")
      then displayDataFetchingError
      else
        modify (set_isLoadingData true) ;;
        addressesOfCurrentNetwork ← gets addressesOfCurrentNetwork;
        let addressesToCheck :=
          if (0 <? length addresses)%nat then addresses
          else addressesOfCurrentNetwork in
        for_of addressesToCheck (fun address =>
          a ← deref address;
          try_catch
            (emit (Call (GetAddressesAddressUnconfirmedTransactions
                           (Address.hash a))) ;;
             match Client.getAddressesAddressUnconfirmedTransactions c
                     (Address.hash a) with
             | inr txs => for_of txs (addIfNew address)
             | inl e => throw e
             end)
            (fun e =>
               emit (SetSnackbarMessage
                       (SnackbarMessage.mk
                          (getHumanReadableError e
                             ("Error while fetching pending transactions for address "
                              +:+ Address.hash a))
                          "alert" None)))) ;;
        modify (set_isLoadingData false)
  | None => displayDataFetchingError
  end.

(** The [for] loop of [fetchAndStoreAddressesData], threading
    [shouldUpdate] and [addressesToUpdate]. *)
Fixpoint refreshEach (c : Client.t) (checkingForPendingTransactions : bool)
    (addressesStateToRefresh : list loc)
    (shouldUpdate : bool) (addressesToUpdate : list loc)
    : M (bool * list loc) :=
  match addressesStateToRefresh with
  | [] => mret (shouldUpdate, addressesToUpdate)
  | address :: rest =>
      '(shouldUpdate, addressesToUpdate) ← try_catch
            (call_on_address (FetchAddressDetails address)
               (Client.fetchAddressDetails c) address ;;
             call_on_address (FetchAddressConfirmedTransactions address)
               (Client.fetchAddressConfirmedTransactions c) address ;;
             a ← deref address;
             let initialNumberOfPendingTransactions :=
               length (Address.pending (Address.transactions a)) in
             assign address Address.updatePendingTransactions ;;
             a ← deref address;
             let shouldUpdate :=
               if checkingForPendingTransactions
                  && negb (length (Address.pending (Address.transactions a))
                           =? initialNumberOfPendingTransactions)%nat
               then true else shouldUpdate in
             mret (shouldUpdate,
                   if shouldUpdate then addressesToUpdate ++ [address]
                   else addressesToUpdate))
            (fun e =>
               a ← deref address;
               emit (SetSnackbarMessage
                       (SnackbarMessage.mk
                          (getHumanReadableError e
                             ("Error while fetching data for address "
                              +:+ Address.hash a))
                          "alert" None)) ;;
               mret (shouldUpdate, addressesToUpdate));
      refreshEach c checkingForPendingTransactions rest
        shouldUpdate addressesToUpdate
  end.

Definition fetchAndStoreAddressesData (addresses : list loc)
    (checkingForPendingTransactions : bool) : M unit :=
  if unavailable
  then displayDataFetchingError ;; updateAddressesState addresses
  else
    match client with
    | Some c =>
        modify (set_isLoadingData true) ;;
        addressesOfCurrentNetwork ← gets addressesOfCurrentNetwork;
        let addressesStateToRefresh :=
          if (0 <? length addresses)%nat then addresses
          else addressesOfCurrentNetwork in
        '(shouldUpdate, addressesToUpdate) ←
          refreshEach c checkingForPendingTransactions
            addressesStateToRefresh
            (negb checkingForPendingTransactions) [];
        (if shouldUpdate : bool then updateAddressesState addressesToUpdate
         else mret tt) ;;
        modify (set_isLoadingData false)
    | None => mret tt
    end.

Definition fetchAddressTransactionsNextPage (address : loc) : M unit :=
  match client with
  | Some c =>
      if bool_decide (network_status = "offline") then mret tt
      else
        modify (set_isLoadingData true) ;;
        call_on_address (FetchAddressConfirmedTransactionsNextPage address)
          (Client.fetchAddressConfirmedTransactionsNextPage c) address ;;
        modify (set_isLoadingData false)
  | None => mret tt
  end.

(** [fetchPendingTxs] and [fetchAndStoreAddressesData] once more, with
    their [await]s marked, for the caller that does not await them:
    above they are run as when nothing else runs before they end. *)
Definition fetchPendingTxs_async (addresses : list loc) : Async unit :=
  match client with
  | Some c =>
      if bool_decide (network_status = "offline")
      then lift displayDataFetchingError
      else
        lift (modify (set_isLoadingData true)) ;;
        addressesOfCurrentNetwork ← lift (gets addressesOfCurrentNetwork);
        let addressesToCheck :=
          if (0 <? length addresses)%nat then addresses
          else addressesOfCurrentNetwork in
        for_of_async addressesToCheck (fun address =>
          a ← lift (deref address);
          try_catch_async
            (lift (emit (Call (GetAddressesAddressUnconfirmedTransactions
                                 (Address.hash a)))) ;;
             txs ← await
               (match Client.getAddressesAddressUnconfirmedTransactions c
                        (Address.hash a) with
                | inr txs => mret txs
                | inl e => throw e
                end);
             lift (for_of txs (addIfNew address)))
            (fun e =>
               lift (emit (SetSnackbarMessage
                             (SnackbarMessage.mk
                                (getHumanReadableError e
                                   ("Error while fetching pending transactions for address "
                                    +:+ Address.hash a))
                                "alert" None))))) ;;
        lift (modify (set_isLoadingData false))
  | None => lift displayDataFetchingError
  end.

Fixpoint refreshEach_async (c : Client.t)
    (checkingForPendingTransactions : bool)
    (addressesStateToRefresh : list loc)
    (shouldUpdate : bool) (addressesToUpdate : list loc)
    : Async (bool * list loc) :=
  match addressesStateToRefresh with
  | [] => mret (shouldUpdate, addressesToUpdate)
  | address :: rest =>
      '(shouldUpdate, addressesToUpdate) ← try_catch_async
            (call_on_address_async (FetchAddressDetails address)
               (Client.fetchAddressDetails c) address ;;
             call_on_address_async (FetchAddressConfirmedTransactions address)
               (Client.fetchAddressConfirmedTransactions c) address ;;
             lift
               (a ← deref address;
                let initialNumberOfPendingTransactions :=
                  length (Address.pending (Address.transactions a)) in
                assign address Address.updatePendingTransactions ;;
                a ← deref address;
                let shouldUpdate :=
                  if checkingForPendingTransactions
                     && negb (length (Address.pending (Address.transactions a))
                              =? initialNumberOfPendingTransactions)%nat
                  then true else shouldUpdate in
                mret (shouldUpdate,
                      if shouldUpdate then addressesToUpdate ++ [address]
                      else addressesToUpdate)))
            (fun e =>
               lift
                 (a ← deref address;
                  emit (SetSnackbarMessage
                          (SnackbarMessage.mk
                             (getHumanReadableError e
                                ("Error while fetching data for address "
                                 +:+ Address.hash a))
                             "alert" None)) ;;
                  mret (shouldUpdate, addressesToUpdate)));
      refreshEach_async c checkingForPendingTransactions rest
        shouldUpdate addressesToUpdate
  end.

Definition fetchAndStoreAddressesData_async (addresses : list loc)
    (checkingForPendingTransactions : bool) : Async unit :=
  if unavailable
  then lift (displayDataFetchingError ;; updateAddressesState addresses)
  else
    match client with
    | Some c =>
        lift (modify (set_isLoadingData true)) ;;
        addressesOfCurrentNetwork ← lift (gets addressesOfCurrentNetwork);
        let addressesStateToRefresh :=
          if (0 <? length addresses)%nat then addresses
          else addressesOfCurrentNetwork in
        '(shouldUpdate, addressesToUpdate) ←
          refreshEach_async c checkingForPendingTransactions
            addressesStateToRefresh
            (negb checkingForPendingTransactions) [];
        lift ((if shouldUpdate : bool then updateAddressesState addressesToUpdate
               else mret tt) ;;
              modify (set_isLoadingData false))
    | None => mret tt
    end.

(** In the source the parameter [mnemonic] hides the [mnemonic] of the
    active wallet selected from the store, as it does here. The two
    fetches are started and not awaited: each has run until its first
    [await] when [saveNewAddress] returns, and what is returned here are
    the two tasks left to the event loop. *)
Definition saveNewAddress (newAddress : loc) (mnemonic : option string)
    : M (list (Task unit)) :=
  let _mnemonic := js_or mnemonic mnemonic in
  match _mnemonic with
  | Some m =>
      if bool_decide (m = "")
      then throw (Error "Could not save new address, mnemonic not found")
      else
        (if negb isPassphraseUsed
         then
           a ← deref newAddress;
           storeMetadata (WalletKey m activeWalletName) newAddress
             (Address.settings a)
         else mret tt) ;;
        setAddress newAddress ;;
        fetching ← unawaited (fetchAndStoreAddressesData_async [newAddress] false);
        checking ← unawaited (fetchPendingTxs_async [newAddress]);
        mret [fetching; checking]
  | None => throw (Error "Could not save new address, mnemonic not found")
  end.

(** The data of one derived address in a worker's reply
    ([AddressKeyPair], with the group for the in-groups worker). *)
Record AddressKeyPair : Type := mkAddressKeyPair {
  kp_hash : string;
  kp_publicKey : string;
  kp_privateKey : string;
  kp_index : Z;
  kp_group : Z
}.

(** [deriveAddressesInGroupsWorker.onmessage] as installed by
    [generateOneAddressPerGroup]. *)
Definition onAddressesInGroupsDerived (labelPrefix labelColor : option string)
    (data : list AddressKeyPair) : M (list (Task unit)) :=
  let hasLabel := truthy labelPrefix && truthy labelColor in
  started ← map_M (fun d =>
    newAddress ← alloc
      (Address.new addressToGroup (kp_hash d) (kp_publicKey d)
         (kp_privateKey d) (kp_index d)
         (AddressSettings.mk false
            (Some (if hasLabel
                   then default "" labelPrefix +:+ " " +:+ pretty (kp_group d)
                   else ""))
            (if hasLabel then labelColor else Some "")));
    saveNewAddress newAddress None) data;
  emit (Dispatch addressesGenerated) ;;
  emit WorkerTerminate ;;
  mret (concat started).

Definition generateOneAddressPerGroup (labelPrefix labelColor : option string)
    (skipGroups : list Z) : M unit :=
  match mnemonic with
  | Some m =>
      if bool_decide (m = "")
      then throw (Error "Could not generate addresses, mnemonic not found")
      else
        emit (Dispatch addressGenerationStarted) ;;
        w ← gets id;
        let skipAddressIndexes :=
          omap (fun l => Address.index <$> heap w !! l)
               (addressesOfCurrentNetwork w) in
        let groups :=
          List.filter (fun group => negb (bool_decide (group ∈ skipGroups)))
            (List.map Z.of_nat (seq 0 TOTAL_NUMBER_OF_GROUPS)) in
        emit (PostMessage (DeriveAddressesInGroups m groups skipAddressIndexes))
  | None => throw (Error "Could not generate addresses, mnemonic not found")
  end.

(** [deriveAddressesFromIndexesWorker.onmessage] as installed by
    [initializeCurrentNetworkAddresses]. *)
Definition onAddressesFromIndexesDerived
    (addressesMetadata : list AddressMetadata.t)
    (data : list AddressKeyPair) : M unit :=
  addressesToFetchData ← map_M (fun d =>
    let metadata :=
      List.find (fun metadata =>
                   bool_decide (AddressMetadata.index metadata = kp_index d))
        addressesMetadata in
    alloc (Address.new addressToGroup (kp_hash d) (kp_publicKey d)
             (kp_privateKey d) (kp_index d)
             (AddressSettings.mk
                (default false (AddressMetadata.isMain <$> metadata))
                (metadata ≫= AddressMetadata.label)
                (metadata ≫= AddressMetadata.color)))) data;
  updateAddressesState addressesToFetchData ;;
  fetchAndStoreAddressesData addressesToFetchData false ;;
  fetchPendingTxs addressesToFetchData ;;
  emit (Dispatch addressesGenerated).

Definition initializeCurrentNetworkAddresses : M unit :=
  match mnemonic with
  | Some m =>
      if bool_decide (m = "")
      then throw (Error "Could not initialize addresses, mnemonic not found")
      else
        addressesMetadata ←
          (if isPassphraseUsed then mret []
           else gets (fun w =>
                        AddressMetadataStorage.load
                          (WalletKey m activeWalletName) (storage w)));
        if (0 <? length addressesMetadata)%nat
        then
          emit (Dispatch addressGenerationStarted) ;;
          emit (PostMessage
                  (DeriveAddressesFromIndexes m
                     (List.map AddressMetadata.index addressesMetadata)))
        else mret tt
  | None => throw (Error "Could not initialize addresses, mnemonic not found")
  end.

(** The body of the initialisation effect. *)
Definition initializeEffect : M unit :=
  w ← gets id;
  let walletHasChanged := negb (bool_decide (previousMnemonic w = mnemonic)) in
  let networkSettingsHaveChanged :=
    negb (bool_decide (previousNodeApiHost w = Some network_settings_nodeHost))
    || negb (bool_decide
               (previousExplorerApiHost w = Some network_settings_explorerApiHost)) in
  if bool_decide (network_status = "connecting")
     || bool_decide (network_status = "uninitialized")
  then mret tt
  else
    (if bool_decide (mnemonic = None)
        || negb (bool_decide (mnemonic = previousMnemonic w))
     then
       emit SetAddressesState ;;
       modify (set_addressesState JsMap.empty) ;;
       modify (fun w =>
         set_previous mnemonic (previousNodeApiHost w)
           (previousExplorerApiHost w) w)
     else mret tt) ;;
    if truthy mnemonic
       && (negb (bool_decide (is_Some client))
           || walletHasChanged || networkSettingsHaveChanged)
    then
      modify (set_previous mnemonic (Some network_settings_nodeHost)
                (Some network_settings_explorerApiHost)) ;;
      detached initializeCurrentNetworkAddresses
    else mret tt.

End Provider.

(** ** The polling effect

    The effect computes [addressesToRefresh] from the registry of the
    render it runs in and starts an interval whose callback closes over
    that array. The cleanup of the effect clears the interval. *)
Section Polling.

Variable client : option Client.t.
Variable network_name : NetworkName.
Variable network_status : string.
Variable getHumanReadableError : Exn -> string -> string.

(** [addressesWithPendingSentTxs.some((addressWithPendingTx) =>
      addressWithPendingTx.transactions.pending.some((pendingTx) =>
        pendingTx.toAddress === address.hash))] *)
Definition isReceiving (w : World) (address : loc) : bool :=
  match heap w !! address with
  | Some a =>
      existsb
        (fun addressWithPendingTx =>
           match heap w !! addressWithPendingTx with
           | Some s =>
               existsb
                 (fun pendingTx =>
                    bool_decide (PendingTx.toAddress pendingTx = Address.hash a))
                 (Address.pending (Address.transactions s))
           | None => false
           end)
        (addressesWithPendingSentTxs network_name w)
  | None => false
  end.

Definition addressesWithPendingReceivingTxs (w : World) : list loc :=
  List.filter (isReceiving w) (addressesOfCurrentNetwork network_name w).

Definition addressesToRefresh (w : World) : list loc :=
  addressesWithPendingSentTxs network_name w
  ++ addressesWithPendingReceivingTxs w.

(** The timer created by [setInterval]: the array its callback closed
    over, and whether [clearInterval] was called on it. *)
Record Interval : Type := mkInterval {
  captured : list loc;
  cleared : bool
}.

(** Running the effect in a render that sees the registry of [w]. *)
Definition pollingEffect (w : World) : Interval :=
  mkInterval (addressesToRefresh w) false.

(** The interval fires (every 2000 ms while it is not cleared). *)
Definition tick (i : Interval) : M Interval :=
  if cleared i then mret i
  else if (0 <? length (captured i))%nat
  then
    detached
      (fetchAndStoreAddressesData client network_name network_status
         getHumanReadableError (captured i) true) ;;
    mret i
  else mret (mkInterval (captured i) true).

(** What can happen to the mounted provider: the timer fires, or the
    component renders again and the effect is re-established (cleanup,
    then a new interval over the registry of that render). *)
Inductive PollEvent : Type :=
| Tick
| Render.

Definition pollStep (s : World * Interval) (ev : PollEvent) : World * Interval :=
  match ev with
  | Tick =>
      match tick (snd s) (fst s) with
      | (inr i, w) => (w, i)
      | (inl _, w) => (w, snd s)
      end
  | Render => (fst s, pollingEffect (fst s))
  end.

Definition pollRun (evs : list PollEvent) (s : World * Interval)
    : World * Interval :=
  fold_left pollStep evs s.

End Polling.

(** ** The earlier revision of the provider

    The second text of [addresses.tsx]: the wallet comes from the global
    context, addresses are derived on the main thread, and metadata is
    stored under the account name. *)
Module Legacy.

Record Wallet : Type := mkWallet {
  address : string;
  publicKey : string;
  privateKey : string;
  seed : string
}.

(** [previousWallet] and [previousClient]: each ref holds an object or
    [undefined] and is compared with [!==], so an object is named here
    by its identity. *)
Record Refs : Type := mkRefs {
  previousWallet : option nat;
  previousClient : option nat
}.

Section Provider.

Variable currentAccountName : string.
Variable wallet : option Wallet.
Variable client : option Client.t.
Variable currentNetwork : NetworkName.

(** The identities of the [wallet] and [client] objects of this render. *)
Variable walletObject : option nat.
Variable clientObject : option nat.

Variable addressToGroup : AddressHash -> Z.
Variable getHumanReadableError : Exn -> string -> string.
Variable deriveNewAddressData : string -> Z -> string * string * string.

Definition fetchAndStoreAddressesData (addresses : list loc)
    (checkingForPendingTransactions : bool) : M unit :=
  match client with
  | Some c =>
      modify (set_isLoadingData true) ;;
      addressesOfCurrentNetwork ←
        gets (addressesOfCurrentNetwork currentNetwork);
      let addressesStateToRefresh :=
        if (0 <? length addresses)%nat then addresses
        else addressesOfCurrentNetwork in
      '(shouldUpdate, addressesToUpdate) ←
        refreshEach getHumanReadableError c checkingForPendingTransactions
          addressesStateToRefresh
          (negb checkingForPendingTransactions) [];
      (if shouldUpdate : bool
       then updateAddressesState currentNetwork addressesToUpdate
       else mret tt) ;;
      modify (set_isLoadingData false)
  | None => mret tt
  end.

Definition saveNewAddress (newAddress : loc) : M unit :=
  a ← deref newAddress;
  storeMetadata (AccountKey currentAccountName) newAddress
    (Address.settings a) ;;
  fetchAndStoreAddressesData [newAddress] false.

Definition initializeCurrentNetworkAddresses : M unit :=
  if bool_decide (currentAccountName = "") then mret tt
  else
    match wallet with
    | None => mret tt
    | Some wallet =>
        addressesMetadata ←
          gets (fun w =>
                  AddressMetadataStorage.load
                    (AccountKey currentAccountName) (storage w));
        if (length addressesMetadata =? 0)%nat
        then
          newAddress ← alloc
            (Address.new addressToGroup (address wallet) (publicKey wallet)
               (privateKey wallet) 0
               (AddressSettings.mk true None None));
          saveNewAddress newAddress
        else
          addressesToFetchData ← map_M (fun metadata =>
            let '(address, publicKey, privateKey) :=
              deriveNewAddressData (seed wallet)
                (AddressMetadata.index metadata) in
            alloc (Address.new addressToGroup address publicKey privateKey
                     (AddressMetadata.index metadata)
                     (AddressSettings.mk
                        (AddressMetadata.isMain metadata)
                        (AddressMetadata.label metadata)
                        (AddressMetadata.color metadata))))
            addressesMetadata;
          detached (fetchAndStoreAddressesData addressesToFetchData false)
    end.

(** The body of the initialisation effect: the closure above is called,
    not awaited, for a wallet and a client or wallet that is not the one
    of the refs. *)
Definition initializeEffect (refs : Refs) : M Refs :=
  if bool_decide (is_Some wallet)
     && (negb (bool_decide (previousClient refs = clientObject))
         || negb (bool_decide (previousWallet refs = walletObject)))
  then
    let refs' := mkRefs walletObject clientObject in
    detached initializeCurrentNetworkAddresses ;;
    mret refs'
  else mret refs.

End Provider.

End Legacy.

(** * Vocabulary of the statements *)

(** The amounts of the transactions that carry one. *)
Definition knownAmounts (txs : list PendingTx.t) : list Z :=
  omap PendingTx.amount txs.

Definition sumAmounts (amounts : list Z) : Z := foldr Z.add 0 amounts.

(** An address with balance 100 and one pending transfer of 30 that is
    not confirmed yet. *)
Definition pendingTransfer30 : PendingTx.t :=
  PendingTx.mk "tx1" "A" "B" 1000 transfer "mainnet" (Some 30).

Definition addressA : Address.t :=
  Address.mk "A" "A..." "pub" "priv" 0 0
    (AddressSettings.mk true None None)
    (AddressInfo.mk "100" "0" 1)
    (Address.mkBucket [] [pendingTransfer30] 1)
    100 None (Some "mainnet").

(** The same address with a pending sweep, whose amount is not known,
    in front of the transfer. *)
Definition pendingSweep : PendingTx.t :=
  PendingTx.mk "tx2" "A" "C" 1001 sweep "mainnet" None.

Definition addressSweeping : Address.t :=
  Address.set_pending [pendingSweep; pendingTransfer30] addressA.

(** The same address with one pending transfer that carries no amount. *)
Definition pendingTransferNoAmount : PendingTx.t :=
  PendingTx.mk "tx3" "A" "B" 1002 transfer "mainnet" None.

Definition addressWithoutAmount : Address.t :=
  Address.set_pending [pendingTransferNoAmount] addressA.

(** The same address once its transfer is confirmed: nothing is pending. *)
Definition addressSettled : Address.t :=
  Address.updatePendingTransactions
    (Address.set_transactions
       (Address.mkBucket [Transaction.mk "tx1" 1000 ""] [pendingTransfer30] 1)
       addressA).

(** An address with two pending transfers, the first of which is
    confirmed. *)
Definition addressHalfConfirmed : Address.t :=
  Address.set_transactions
    (Address.mkBucket [Transaction.mk "tx1" 1000 ""]
       [pendingTransfer30; pendingTransferNoAmount] 1)
    addressA.

(** What one iteration of the loop of [updateAddressesState] does to the
    world when the reference denotes an object. *)
Definition registerOne (network_name : NetworkName) (w : World) (l : loc)
  : World :=
  match heap w !! l with
  | Some a =>
      set_addressesState
        (JsMap.set (constructMapKey network_name (Address.hash a)) l
           (addressesState w))
        (set_heap (<[l := Address.set_network (Some network_name) a]> (heap w)) w)
  | None => w
  end.

(** The other components of the world are not touched by registering. *)
Definition sameOutside (w w' : World) : Prop :=
  trace w' = trace w /\ storage w' = storage w
  /\ isLoadingData w' = isLoadingData w
  /\ previousMnemonic w' = previousMnemonic w
  /\ previousNodeApiHost w' = previousNodeApiHost w
  /\ previousExplorerApiHost w' = previousExplorerApiHost w.

(** The client calls and the notifications recorded in a trace. *)
Definition clientCalls (tr : list Event) : list ClientCall :=
  omap (fun e => match e with Call c => Some c | _ => None end) tr.

Definition notifications (tr : list Event) : list SnackbarMessage.t :=
  omap (fun e => match e with SetSnackbarMessage m => Some m | _ => None end) tr.

Definition offlineNotification : SnackbarMessage.t :=
  SnackbarMessage.mk "Could not fetch data because the wallet is offline"
    "alert" (Some 5000).

(** A world with one registered address and an empty trace. *)
Definition worldA : World :=
  mkWorld [addressA] [("A-mainnet", 0%nat)] false [] None None None [].

(** A second address, of hash "B", that was never registered: its
    [network] field is not set; and a world that holds both addresses
    with only the first one registered. *)
Definition addressB : Address.t :=
  Address.mk "B" "B..." "pubB" "privB" 1 1
    (AddressSettings.mk false None None)
    (AddressInfo.mk "5" "0" 0)
    (Address.mkBucket [] [] 1)
    5 None None.

Definition worldAB : World :=
  mkWorld [addressA; addressB] [("A-mainnet", 0%nat)] false [] None None None [].

(** A world whose one registered address has nothing pending. *)
Definition worldSettled : World :=
  mkWorld [addressSettled] [("A-mainnet", 0%nat)] false [] None None None [].

(** Computations that leave the metadata store and the number of objects
    as they found them, whether they return or throw. *)
Definition stable (w w' : World) : Prop :=
  storage w' = storage w /\ length (heap w') = length (heap w).

Definition preserves {A : Type} (m : M A) : Prop :=
  forall w, stable w (snd (m w)).

(** A world in which nothing was stored, registered or done yet. *)
Definition emptyWorld : World :=
  mkWorld [] JsMap.empty false [] None None None [].

(** A client whose calls succeed and change nothing. *)
Definition idleClient : Client.t :=
  Client.mk (fun a => inr a) (fun a => inr a) (fun a => inr a) (fun _ => inr []).

(** * The other components *)

(** ** Settings kept in local storage

    [settingsDefault], [settingsLoad], [settingsLoadOrDefault] and
    [settingsSave]. The browser's [localStorage] maps keys to strings and
    [getItem] gives [null] for a key that is absent; [JSON.parse] and
    [JSON.stringify] are the platform's and are parameters here.
    Numbers are restricted to integers. *)
Module LocalSettings.

#[warnings="-register-all"]
Inductive Json : Type :=
| JNull
| JBool (b : bool)
| JNumber (n : Z)
| JString (s : string)
| JArray (items : list Json)
| JObject (fields : list (string * Json)).

(** JavaScript's conversion to a boolean, as in [!settings]. *)
Definition toBoolean (v : Json) : bool :=
  match v with
  | JNull => false
  | JBool b => b
  | JNumber n => negb (n =? 0)
  | JString s => negb (bool_decide (s = ""))
  | JArray _ | JObject _ => true
  end.

Definition LocalStorage : Type := string -> option string.

Definition getItem (key : string) (s : LocalStorage) : option string := s key.

Definition setItem (key value : string) (s : LocalStorage) : LocalStorage :=
  fun k => if bool_decide (k = key) then Some value else s k.

(** [typeof] of what [getItem] gives, a string or [null], and its
    conversion to a string when it is passed to [JSON.parse]. *)
Definition typeof (str : option string) : string :=
  match str with
  | Some _ => "string"
  | None => "object"
  end.

Definition toString (str : option string) : string :=
  match str with
  | Some s => s
  | None => "null"
  end.

Definition settingsDefault : Json :=
  JObject [("host", JString "localhost");
           ("port", JNumber 10973);
           ("explorerHost", JString "localhost");
           ("explorerPort", JNumber 9090);
           ("alephscanURL", JString "http://localhost:3001")].

Section Json.

Variable JSON_parse : string -> Exn + Json.
Variable JSON_stringify : Json -> string.

Definition settingsLoad (s : LocalStorage) : Exn + Json :=
  let str := getItem "settings" s in
  if negb (bool_decide (typeof str = "undefined"))
  then JSON_parse (toString str)
  else inr JNull.

Definition settingsLoadOrDefault (s : LocalStorage) : Exn + Json :=
  match settingsLoad s with
  | inl e => inl e
  | inr settings =>
      if negb (toBoolean settings) then inr settingsDefault else inr settings
  end.

Definition settingsSave (settings : Json) (s : LocalStorage) : LocalStorage :=
  let str := JSON_stringify settings in
  setItem "settings" str s.

End Json.

End LocalSettings.

(** ** The theme switcher

    [getButtonColor] and the click handlers of [ThemeSwitcher]. A
    handler is given by the themes it passes to
    [updateSettings('general', { theme })], in order. *)
Module ThemeSwitcher.

Definition getButtonColor (theme : string) (buttonTheme : string) : string :=
  if bool_decide (theme = buttonTheme)
  then (if bool_decide (theme = "dark") then "var(--color-orange)"
        else "var(--color-white)")
  else "var(--color-grey)".

Definition switchTheme (theme : string) : list string := [theme].

(** [onClick] of the switcher itself. *)
Definition onClick (currentTheme : string) : list string :=
  switchTheme (if bool_decide (currentTheme = "light") then "dark" else "light").

(** [onClick] of the sun and of the moon. *)
Definition onSunClick : list string := switchTheme "light".

Definition onMoonClick : list string := switchTheme "dark".

(** A click on an icon: the icons are children of the switcher and no
    handler stops the propagation, so the icon's handler runs and then
    the switcher's. *)
Definition clickOnSun (currentTheme : string) : list string :=
  onSunClick ++ onClick currentTheme.

Definition clickOnMoon (currentTheme : string) : list string :=
  onMoonClick ++ onClick currentTheme.

End ThemeSwitcher.

(** ** The select input

    The state and the effects of [Select]. A handler or an effect is
    given by the calls it makes, in order: to [onValueChange] and to the
    state setters. *)
Module SelectOption.
Record t : Type := mk {
  value : string;
  label : string
}.

#[global] Instance eq_dec : EqDecision t.
Proof. solve_decision. Defined.
End SelectOption.

Module Select.

Inductive Call : Type :=
| OnValueChange (selected : SelectOption.t)
| SetValue (value : option SelectOption.t)
| SetMousePosition (x y : Z)
| SetShowPopup (shown : bool).

(** lodash's [isEqual] on an option and the current value, which may be
    [undefined]. *)
Definition isEqual (a b : option SelectOption.t) : bool := bool_decide (a = b).

Section Component.

Variable options : list SelectOption.t.
Variable controlledValue : option SelectOption.t.
Variable skipEqualityCheck : bool.

(** The [value] of the render in which the callbacks and the effects
    were created. *)
Variable value : option SelectOption.t.

Definition setInputValue (selected : SelectOption.t) : list Call :=
  if negb (bool_decide (is_Some value))
     || negb (isEqual (Some selected) value)
     || skipEqualityCheck
  then [OnValueChange selected; SetValue (Some selected)]
  else [].

Definition handleClick (clientX clientY : Z) : list Call :=
  if (length options <=? 1)%nat then []
  else [SetMousePosition clientX clientY; SetShowPopup true].

(** [handleOptionSelect] of the popup, whose [setValue] is
    [setInputValue] and whose [onBackgroundClick] hides the popup. *)
Definition handleOptionSelect (selected : SelectOption.t) : list Call :=
  setInputValue selected ++ [SetShowPopup false].

(** The three effects, in the order of the source. *)
Definition controlledEffect : list Call :=
  if bool_decide (is_Some controlledValue)
     && (negb (isEqual controlledValue value) || skipEqualityCheck)
  then [SetValue controlledValue]
  else [].

Definition singleOptionEffect : list Call :=
  if negb (bool_decide (is_Some value)) && (length options =? 1)%nat
  then match options with
       | first :: _ => setInputValue first
       | [] => []
       end
  else [].

Definition missingOptionEffect : list Call :=
  match value with
  | Some v =>
      if negb (bool_decide
                 (is_Some (List.find
                             (fun o => bool_decide (SelectOption.value o
                                                    = SelectOption.value v))
                             options)))
      then [SetValue None]
      else []
  | None => []
  end.

(** What the effects of one render do: all three depend on [value] and
    run, in this order, after a render in which it changed; the state
    updates they request are applied together afterwards. *)
Definition effects : list Call :=
  controlledEffect ++ singleOptionEffect ++ missingOptionEffect.

End Component.

(** The [value] of the next render: the last value set, if any. *)
Definition nextValue (value : option SelectOption.t) (calls : list Call)
  : option SelectOption.t :=
  fold_left (fun v call => match call with
                           | SetValue v' => v'
                           | _ => v
                           end) calls value.

(** The options passed to [onValueChange]. *)
Definition valueChanges (calls : list Call) : list SelectOption.t :=
  omap (fun call => match call with
                    | OnValueChange selected => Some selected
                    | _ => None
                    end) calls.

End Select.

(** ** The list of latest transactions

    The rows [OverviewPageTransactionList] gives to its table after the
    header row. The
    transactions of the addresses come from [getTransactionsForAddresses]
    and are given; [hasOnlyInputsWith] and [getDirection] are functions
    of the SDK and of [utils/transactions]. *)
Module TransactionList.

Section Component.

Variable Tx : Type.
Variable PTx : Type.
Variable Input : Type.
Variable inputs : Tx -> option (list Input).
Variable timestamp : Tx -> Z.
Variable hasOnlyInputsWith : list Input -> list Address.t -> bool.
Variable getDirection : Tx -> AddressHash -> string.
Variable GENESIS_TIMESTAMP : Z.

Variable addresses : list Address.t.
Variable isLoadingData : bool.
Variable allConfirmedTxs : list (Tx * Address.t).
Variable allPendingTxs : list (PTx * Address.t).

Definition showSkeletonLoading : bool :=
  isLoadingData && (length allConfirmedTxs =? 0)%nat
  && (length allPendingTxs =? 0)%nat.

Definition shouldHideTx (tx : Tx) (address : Address.t) : bool :=
  match inputs tx with
  | Some tx_inputs =>
      (0 <? length tx_inputs)%nat
      && hasOnlyInputsWith tx_inputs addresses
      && bool_decide (getDirection tx (Address.hash address) = "in")
      && negb (bool_decide (timestamp tx = GENESIS_TIMESTAMP))
  | None => false
  end.

Inductive Row : Type :=
| PendingRow (tx : PTx) (address : Address.t)
| ConfirmedRow (tx : Tx) (address : Address.t)
| PlaceholderRow.

Definition rows : list Row :=
  List.map (fun '(tx, address) => PendingRow tx address) allPendingTxs
  ++ omap (fun '(tx, address) =>
             if shouldHideTx tx address then None
             else Some (ConfirmedRow tx address)) allConfirmedTxs
  ++ (if negb isLoadingData && (length allPendingTxs =? 0)%nat
         && (length allConfirmedTxs =? 0)%nat
      then [PlaceholderRow] else []).

End Component.

Arguments PendingRow {Tx PTx} tx address.
Arguments ConfirmedRow {Tx PTx} tx address.
Arguments PlaceholderRow {Tx PTx}.

End TransactionList.

(** ** Vocabulary of the further properties *)

(** Computations that keep a property of the world, whether they return
    or throw. *)
Definition keeps {A : Type} (I : World -> Prop) (m : M A) : Prop :=
  forall w, I w -> I (snd (m w)).

(** Computations that, from a world satisfying [V], return (do not
    throw) and end in a world satisfying [V]. *)
Definition returnsIn {A : Type} (V : World -> Prop) (m : M A) : Prop :=
  forall w, V w -> exists x w', m w = (inr x, w') /\ V w'.

(** A task that keeps a property of the world each time it is resumed,
    to its end; and an [async] function that keeps it from its call
    on. *)
Fixpoint task_keeps {A : Type} (I : World -> Prop) (t : Task A) : Prop :=
  match t with
  | Settled _ => True
  | Pending resume =>
      forall w, I w ->
        I (snd (resume w))
        /\ match resume w with
           | (inr t', _) => task_keeps I t'
           | (inl _, _) => True
           end
  end.

Definition keeps_async {A : Type} (I : World -> Prop) (m : Async A) : Prop :=
  forall w,
    (I w -> I (snd (start m w)))
    /\ match start m w with
       | (inr t, _) => task_keeps I t
       | (inl _, _) => True
       end.

(** The call of an [async] function from [w] stops at an [await], in
    [w']. *)
Definition suspends {A : Type} (m : Async A) (w w' : World) : Prop :=
  exists resume, start m w = (inr (Pending resume), w').

(** The tasks a computation has left to the event loop, and the world
    after the event loop has resumed them as [schedule] says. *)
Definition started (r : (Exn + list (Task unit)) * World) : list (Task unit) :=
  match fst r with
  | inr tasks => tasks
  | inl _ => []
  end.

Definition afterwards (schedule : list nat)
    (r : (Exn + list (Task unit)) * World) : World :=
  snd (eventLoop schedule (started r) (snd r)).

(** A computation that keeps a property of the world and leaves only
    tasks that keep it. *)
Definition spawns (I : World -> Prop) (m : M (list (Task unit))) : Prop :=
  forall w, (I w -> I (snd (m w))) /\ Forall (task_keeps I) (started (m w)).

(** Properties of the world that no step of a fetch breaks: they survive
    a recorded event, a change of the loading flag, the replacement of an
    object that exists and a registration. *)
Record robust (I : World -> Prop) : Prop := mkRobust {
  robust_trace : forall w e, I w -> I (set_trace (trace w ++ [e]) w);
  robust_loading : forall w b, I w -> I (set_isLoadingData b w);
  robust_heap : forall w l a b,
    I w -> heap w !! l = Some a -> I (set_heap (<[l := b]> (heap w)) w);
  robust_registry : forall w k l,
    I w -> I (set_addressesState (JsMap.set k l (addressesState w)) w)
}.

(** The key [k] is bound in the registry. *)
Definition bound (k : string) (w : World) : Prop :=
  is_Some (JsMap.get k (addressesState w)).

(** The heap holds [N] objects. *)
Definition heapSize (N : nat) (w : World) : Prop := length (heap w) = N.

(** A client whose every call fails. *)
Definition failingClient : Client.t :=
  Client.mk (fun _ => inl (Error "request failed"))
    (fun _ => inl (Error "request failed"))
    (fun _ => inl (Error "request failed"))
    (fun _ => inl (Error "request failed")).

(** The addresses whose details were requested, in a trace. *)
Definition detailsCalls (tr : list Event) : list loc :=
  omap (fun e => match e with
                 | Call (FetchAddressDetails l) => Some l
                 | _ => None
                 end) tr.

(** From a world satisfying [P] the computation ends, returning or
    throwing, in a world satisfying [Q]. *)
Definition leads {A : Type} (P : World -> Prop) (m : M A) (Q : World -> Prop)
  : Prop :=
  forall w, P w -> Q (snd (m w)).

(** The notification raised when the refresh of an address fails. *)
Definition failureNotice (getHumanReadableError : Exn -> string -> string)
    (e : Exn) (a : Address.t) : Event :=
  SetSnackbarMessage
    (SnackbarMessage.mk
       (getHumanReadableError e
          ("Error while fetching data for address " +:+ Address.hash a))
       "alert" None).

(** The number of registry updates recorded in a trace. *)
Definition stateUpdates (tr : list Event) : nat :=
  length (List.filter
            (fun e => match e with SetAddressesState => true | _ => false end)
            tr).

(** The client reports no confirmed transaction that carries the id of a
    pending one. *)
Definition nothingConfirmed (client : Client.t) : Prop :=
  forall a a2,
    Client.fetchAddressConfirmedTransactions client a = inr a2 ->
    Forall (fun tx =>
              Address.notConfirmed (Address.confirmed (Address.transactions a2))
                tx = true)
      (Address.pending (Address.transactions a2)).

(** A client that finds no confirmed transactions at all. *)
Definition noHistoryClient : Client.t :=
  Client.mk (fun a => inr a)
    (fun a =>
       inr (Address.set_transactions
              (Address.mkBucket [] (Address.pending (Address.transactions a)) 1)
              a))
    (fun a => inr a) (fun _ => inr []).

(** The pending lists of [w'] extend those of [w], object by object, and
    nothing else of the objects differs. *)
Definition pendingExtends (w w' : World) : Prop :=
  length (heap w') = length (heap w)
  /\ forall l a, heap w !! l = Some a ->
       exists extra,
         heap w' !! l
         = Some (Address.set_pending
                   (Address.pending (Address.transactions a) ++ extra) a).

(** No two pending transactions of an address share their id. *)
Definition distinctPendingIds (w : World) : Prop :=
  Forall (fun a => NoDup (List.map PendingTx.txId
                            (Address.pending (Address.transactions a))))
    (heap w).

(** An event and a world with the texts of the notifications left out;
    two runs that return alike and leave the same world but for those
    texts; and two computations that, from worlds that are the same but
    for those texts, run alike. *)
Definition withoutText (e : Event) : Event :=
  match e with
  | SetSnackbarMessage m =>
      SetSnackbarMessage
        (SnackbarMessage.mk "" (SnackbarMessage.type m)
           (SnackbarMessage.duration m))
  | _ => e
  end.

Definition withoutTexts (w : World) : World :=
  set_trace (List.map withoutText (trace w)) w.

Definition alike {A : Type} (r r' : (Exn + A) * World) : Prop :=
  fst r = fst r' /\ withoutTexts (snd r) = withoutTexts (snd r').

Definition agree {A : Type} (m m' : M A) : Prop :=
  forall w w', withoutTexts w = withoutTexts w' -> alike (m w) (m' w').

(** A list of numbers in which what comes later is greater. *)
Definition increasing (zs : list Z) : Prop :=
  forall i j x y,
    zs !! i = Some x -> zs !! j = Some y -> (i < j)%nat -> x < y.

(** The network status is neither 'connecting' nor 'uninitialized'. *)
Definition stableStatus (network_status : string) : Prop :=
  network_status <> "connecting" /\ network_status <> "uninitialized".

(** The address object built by the handler of the from-indexes worker
    for one derived key pair: the settings are those of the first stored
    record with the same index, if any. *)
Definition derivedAddress (addressToGroup : AddressHash -> Z)
    (addressesMetadata : list AddressMetadata.t) (d : AddressKeyPair)
  : Address.t :=
  let metadata :=
    List.find (fun metadata =>
                 bool_decide (AddressMetadata.index metadata = kp_index d))
      addressesMetadata in
  Address.new addressToGroup (kp_hash d) (kp_publicKey d) (kp_privateKey d)
    (kp_index d)
    (AddressSettings.mk
       (default false (AddressMetadata.isMain <$> metadata))
       (metadata ≫= AddressMetadata.label)
       (metadata ≫= AddressMetadata.color)).

(** The address object built by the earlier revision for one stored
    record. *)
Definition legacyAddress (addressToGroup : AddressHash -> Z)
    (deriveNewAddressData : string -> Z -> string * string * string)
    (seed : string) (metadata : AddressMetadata.t) : Address.t :=
  let '(address, publicKey, privateKey) :=
    deriveNewAddressData seed (AddressMetadata.index metadata) in
  Address.new addressToGroup address publicKey privateKey
    (AddressMetadata.index metadata)
    (AddressSettings.mk (AddressMetadata.isMain metadata)
       (AddressMetadata.label metadata) (AddressMetadata.color metadata)).

(** A client that changes nothing in the address and reports one
    unconfirmed transaction, and a conversion that gives every pending
    transaction the amount 10. *)
Definition reportingClient : Client.t :=
  Client.mk (fun a => inr a) (fun a => inr a) (fun a => inr a)
    (fun _ => inr [UnconfirmedTransaction.mk "tx9" "Unconfirmed" ""]).

Definition convertWithAmount10 (tx : UnconfirmedTransaction.t)
    (h : AddressHash) (n : NetworkName) : PendingTx.t :=
  PendingTx.mk (UnconfirmedTransaction.hash tx) h "B" 0 transfer n (Some 10).

(** A conversion that keeps the hash of the unconfirmed transaction as
    the id of the pending one. *)
Definition convertByHash (tx : UnconfirmedTransaction.t) (_ : AddressHash)
    (n : NetworkName) : PendingTx.t :=
  PendingTx.mk (UnconfirmedTransaction.hash tx) "" "" 0 transfer n None.

(** A world of the earlier revision in which one record is stored for
    the account 'acct'. *)
Definition worldStored : World :=
  set_storage [(AccountKey "acct", AddressMetadata.mk 0 true None None)]
    emptyWorld.

(** * Properties *)

(** ** Reconciliation of pending against confirmed transactions *)

Section Reconciliation.

Import Address.

Lemma filter_twice {A : Type} (f : A -> bool) (l : list A) :
  List.filter f (List.filter f l) = List.filter f l.
Proof.
  induction l as [|x l IH]; simpl; [reflexivity|].
  destruct (f x) eqn:Hx; simpl; [rewrite Hx, IH|]; auto.
Qed.

Lemma filter_sublist {A : Type} (f : A -> bool) (l : list A) :
  List.filter f l `sublist_of` l.
Proof.
  induction l as [|x l IH]; simpl; [constructor|].
  destruct (f x); now constructor.
Qed.

Lemma find_some_iff {A : Type} (f : A -> bool) (l : list A) :
  is_Some (List.find f l) <-> exists x, x ∈ l /\ f x = true.
Proof.
  induction l as [|y l IH]; simpl.
  - split; [intros [x Hx]; discriminate|intros (x & Hx & _); inversion Hx].
  - destruct (f y) eqn:Hy.
    + split; [intros _; exists y; split; [left|assumption]|eauto].
    + rewrite IH. split; intros (x & Hin & Hx).
      * exists x; split; [now right|assumption].
      * inversion Hin; subst; [congruence|eauto].
Qed.

Lemma notConfirmed_false confirmedTxs tx :
  notConfirmed confirmedTxs tx = false <->
  exists c, c ∈ confirmedTxs /\ Transaction.hash c = PendingTx.txId tx.
Proof.
  unfold notConfirmed.
  pose proof (find_some_iff
    (fun c => bool_decide (Transaction.hash c = PendingTx.txId tx))
    confirmedTxs) as H.
  destruct (List.find _ confirmedTxs) as [c|].
  - split; [intros _|reflexivity].
    destruct (proj1 H (mk_is_Some _ _ eq_refl)) as (x & Hin & Hx).
    exists x; split; [assumption|now apply bool_decide_eq_true in Hx].
  - split; [discriminate|]. intros (x & Hin & Hx).
    destruct (proj2 H) as [? Hs]; [|discriminate].
    exists x; split; [assumption|now apply bool_decide_eq_true].
Qed.

Lemma notConfirmed_true confirmedTxs tx :
  notConfirmed confirmedTxs tx = true <->
  ~ exists c, c ∈ confirmedTxs /\ Transaction.hash c = PendingTx.txId tx.
Proof.
  rewrite <- notConfirmed_false.
  destruct (notConfirmed confirmedTxs tx); split; congruence.
Qed.

Lemma fold_addAmount txs acc :
  fold_left addAmount txs acc = acc + sumAmounts (knownAmounts txs).
Proof.
  revert acc; induction txs as [|tx txs IH]; intros acc; simpl.
  - unfold sumAmounts; simpl; lia.
  - rewrite IH. unfold addAmount, knownAmounts. simpl.
    destruct (PendingTx.amount tx) as [amount|]; simpl; [|reflexivity].
    destruct (Z.eqb_spec amount 0); unfold sumAmounts; simpl; lia.
Qed.

Lemma pending_updatePendingTransactions a :
  pending (transactions (updatePendingTransactions a)) =
  List.filter (notConfirmed (confirmed (transactions a)))
    (pending (transactions a)).
Proof. reflexivity. Qed.

Lemma confirmed_updatePendingTransactions a :
  confirmed (transactions (updatePendingTransactions a)) =
  confirmed (transactions a).
Proof. reflexivity. Qed.

(** The balance after one run, by whether a sweep or consolidation is
    left pending. *)
Lemma availableBalance_updatePendingTransactions a :
  availableBalance (updatePendingTransactions a) =
  match List.find isSweepOrConsolidation
          (pending (transactions (updatePendingTransactions a))) with
  | Some _ => 0
  | None =>
      availableBalance a
      - sumAmounts
          (knownAmounts (pending (transactions (updatePendingTransactions a))))
  end.
Proof.
  rewrite pending_updatePendingTransactions.
  unfold updatePendingTransactions, totalAmountOfPendingTxs; simpl.
  destruct (List.find _ _); [lia|].
  rewrite fold_addAmount. lia.
Qed.

Lemma isSweepOrConsolidation_true tx :
  isSweepOrConsolidation tx = true <->
  PendingTx.type tx = sweep \/ PendingTx.type tx = consolidation.
Proof.
  unfold isSweepOrConsolidation.
  rewrite orb_true_iff, !bool_decide_eq_true. reflexivity.
Qed.

Lemma find_sweep_none txs :
  List.find isSweepOrConsolidation txs = None <->
  Forall (fun tx => PendingTx.type tx <> sweep
                    /\ PendingTx.type tx <> consolidation) txs.
Proof.
  induction txs as [|tx txs IH]; simpl.
  - split; [constructor|reflexivity].
  - destruct (isSweepOrConsolidation tx) eqn:Htx.
    + split; [discriminate|]. intros H. inversion H as [|? ? [H1 H2] _]; subst.
      apply isSweepOrConsolidation_true in Htx. tauto.
    + rewrite IH. split.
      * intros H. constructor; [|assumption].
        split; intros Heq;
          (assert (isSweepOrConsolidation tx = true) as Hc
             by (apply isSweepOrConsolidation_true; auto)); congruence.
      * intros H. now inversion H.
Qed.

Lemma knownAmounts_without_amount txs :
  Forall (fun tx => PendingTx.type tx <> sweep
                    /\ PendingTx.type tx <> consolidation) txs ->
  Forall (fun tx => PendingTx.type tx = transfer ->
                    PendingTx.amount tx = None) txs ->
  knownAmounts txs = [].
Proof.
  induction txs as [|tx txs IH]; [reflexivity|].
  intros Hns Hna.
  inversion Hns as [|? ? [H1 H2] Hns']; subst.
  inversion Hna as [|? ? H3 Hna']; subst.
  unfold knownAmounts in *. simpl. rewrite H3.
  - now apply IH.
  - destruct (PendingTx.type tx); congruence.
Qed.

End Reconciliation.

Section ReconciliationClaims.

Import Address.

(** C1, as stated, fails: with a pending transfer of 30 and balance 100
    one run leaves 70 and a second run, with nothing else changed,
    leaves 40. *)
Lemma updatePendingTransactions_not_idempotent :
  availableBalance (updatePendingTransactions addressA) = 70
  /\ availableBalance
       (updatePendingTransactions (updatePendingTransactions addressA)) = 40
  /\ ~ (forall a : Address.t,
          pending (transactions
                     (updatePendingTransactions (updatePendingTransactions a)))
          = pending (transactions (updatePendingTransactions a))
          /\ availableBalance
               (updatePendingTransactions (updatePendingTransactions a))
             = availableBalance (updatePendingTransactions a)).
Proof.
  split; [reflexivity|]. split; [reflexivity|].
  intros H. destruct (H addressA) as [_ Hb]. vm_compute in Hb. discriminate.
Qed.

(** C1 (amended): running [updatePendingTransactions] twice in a row
    yields the same pending list (and confirmed list) as running it
    once; the second run deducts from the balance left by the first
    run, so the balance after two runs is 0 when a sweep or
    consolidation is left pending and otherwise the original balance
    minus twice the known amounts of the remaining transfers. It equals
    the balance after one run exactly when a sweep or consolidation is
    left pending or those amounts sum to zero. *)
Theorem updatePendingTransactions_twice (a : Address.t) :
  let once := updatePendingTransactions a in
  let twice := updatePendingTransactions once in
  pending (transactions twice) = pending (transactions once)
  /\ confirmed (transactions twice) = confirmed (transactions once)
  /\ availableBalance twice =
       match List.find isSweepOrConsolidation (pending (transactions once)) with
       | Some _ => 0
       | None =>
           availableBalance a
           - 2 * sumAmounts (knownAmounts (pending (transactions once)))
       end
  /\ (availableBalance twice = availableBalance once <->
      is_Some (List.find isSweepOrConsolidation (pending (transactions once)))
      \/ sumAmounts (knownAmounts (pending (transactions once))) = 0).
Proof.
  intros once twice.
  assert (Hp : pending (transactions twice) = pending (transactions once)).
  { unfold twice. rewrite pending_updatePendingTransactions.
    unfold once. rewrite confirmed_updatePendingTransactions,
      pending_updatePendingTransactions. apply filter_twice. }
  pose proof (availableBalance_updatePendingTransactions a) as H1.
  pose proof (availableBalance_updatePendingTransactions once) as H2.
  fold once in H1. fold twice in H2. rewrite Hp in H2.
  split; [exact Hp|]. split; [reflexivity|].
  revert H1 H2.
  destruct (List.find isSweepOrConsolidation (pending (transactions once)))
    as [s|] eqn:Hs; intros H1 H2.
  - split; [exact H2|].
    split; [intros _; left; eauto|intros _; congruence].
  - clearbody once twice.
    split; [lia|]. split.
    + intros Heq. right. lia.
    + intros [[? Hc]|Hz]; [discriminate|lia].
Qed.

(** C3: [updatePendingTransactions] removes from the pending list
    exactly the transactions whose [txId] is the [hash] of some
    confirmed transaction: the new list is a subsequence of the old one
    (original order), a transaction is in it iff it was pending and has
    no confirmed match, and every unmatched transaction keeps its
    number of occurrences. *)
Theorem updatePendingTransactions_removes_confirmed (a : Address.t) :
  let old := pending (transactions a) in
  let new := pending (transactions (updatePendingTransactions a)) in
  let matched tx :=
    exists c, c ∈ confirmed (transactions a)
              /\ Transaction.hash c = PendingTx.txId tx in
  new `sublist_of` old
  /\ (forall tx, tx ∈ new <-> tx ∈ old /\ ~ matched tx)
  /\ (forall tx, matched tx -> count_occ PendingTx.eq_dec new tx = 0%nat)
  /\ (forall tx, ~ matched tx ->
        count_occ PendingTx.eq_dec new tx = count_occ PendingTx.eq_dec old tx).
Proof.
  intros old new matched. subst new.
  rewrite pending_updatePendingTransactions. fold old.
  split; [apply filter_sublist|].
  split.
  { intros tx. rewrite !list_elem_of_In, filter_In, notConfirmed_true.
    reflexivity. }
  split.
  - intros tx Hm. apply count_occ_not_In. rewrite filter_In.
    intros [_ Hn]. apply notConfirmed_true in Hn. contradiction.
  - intros tx Hm. apply notConfirmed_true in Hm.
    induction old as [|x old IH]; simpl; [reflexivity|].
    destruct (notConfirmed _ x) eqn:Hx; simpl.
    + destruct (PendingTx.eq_dec x tx); rewrite IH; reflexivity.
    + destruct (PendingTx.eq_dec x tx) as [->|]; [congruence|exact IH].
Qed.

(** The theorem for two pending transfers of which the first is
    confirmed: the first is removed and the second is kept. *)
Lemma updatePendingTransactions_removes_confirmed_witness :
  (pendingTransfer30
     ∉ pending (transactions (updatePendingTransactions addressHalfConfirmed)))
  /\ pendingTransferNoAmount
       ∈ pending (transactions (updatePendingTransactions addressHalfConfirmed)).
Proof.
destruct (updatePendingTransactions_removes_confirmed addressHalfConfirmed)
  as (_ & Hiff & _).
split.
- intros Hin. apply Hiff in Hin. destruct Hin as [_ Hn]. apply Hn.
  exists (Transaction.mk "tx1" 1000 ""). split; [left|reflexivity].
- apply Hiff. split; [right; left|].
  intros (c & Hc & Hh). apply list_elem_of_singleton in Hc. subst c.
  discriminate.
Defined.

(** C2: with balance [B] before reconciliation, if a sweep or
    consolidation is among the pending transactions left after
    confirmed-matching the balance becomes 0; if the ones left are all
    transfers with known amounts summing to [A] it becomes [B - A]. *)
Theorem updatePendingTransactions_balance (a : Address.t) :
  let B := availableBalance a in
  let remaining := pending (transactions (updatePendingTransactions a)) in
  ((exists tx, tx ∈ remaining
               /\ (PendingTx.type tx = sweep
                   \/ PendingTx.type tx = consolidation)) ->
   availableBalance (updatePendingTransactions a) = 0)
  /\ (forall A,
        Forall (fun tx => PendingTx.type tx = transfer
                          /\ is_Some (PendingTx.amount tx)) remaining ->
        sumAmounts (knownAmounts remaining) = A ->
        availableBalance (updatePendingTransactions a) = B - A).
Proof.
  intros B remaining.
  pose proof (availableBalance_updatePendingTransactions a) as H.
  fold remaining in H. split.
  - intros (tx & Hin & Hty).
    destruct (proj2 (find_some_iff isSweepOrConsolidation remaining)) as [s Hs].
    { exists tx. split; [assumption|now apply isSweepOrConsolidation_true]. }
    now rewrite Hs in H.
  - intros A Hall HA.
    assert (Hnone : List.find isSweepOrConsolidation remaining = None).
    { apply find_sweep_none. eapply Forall_impl; [exact Hall|].
      intros tx [Hty _]; simpl. rewrite Hty. split; discriminate. }
    rewrite Hnone, HA in H. exact H.
Qed.

(** The theorem for a pending sweep in front of a transfer (balance 100
    becomes 0) and for a single pending transfer of 30 (balance 100
    becomes 70). *)
Lemma updatePendingTransactions_balance_witness :
  availableBalance (updatePendingTransactions addressSweeping) = 0
  /\ availableBalance (updatePendingTransactions addressA) = 100 - 30.
Proof.
split.
- apply (proj1 (updatePendingTransactions_balance addressSweeping)).
  exists pendingSweep. split; [vm_compute; left|left; reflexivity].
- apply (proj2 (updatePendingTransactions_balance addressA) 30).
  + repeat constructor. exists 30. reflexivity.
  + reflexivity.
Defined.

(** C9: if no sweep or consolidation is left pending after
    confirmed-matching and every remaining transfer lacks an amount,
    the balance is unchanged. *)
Theorem updatePendingTransactions_no_amounts (a : Address.t) :
  let remaining := pending (transactions (updatePendingTransactions a)) in
  Forall (fun tx => PendingTx.type tx <> sweep
                    /\ PendingTx.type tx <> consolidation) remaining ->
  Forall (fun tx => PendingTx.type tx = transfer ->
                    PendingTx.amount tx = None) remaining ->
  availableBalance (updatePendingTransactions a) = availableBalance a.
Proof.
  intros remaining Hns Hna.
  pose proof (availableBalance_updatePendingTransactions a) as H.
  fold remaining in H.
  rewrite (proj2 (find_sweep_none remaining) Hns) in H.
  rewrite (knownAmounts_without_amount remaining Hns Hna) in H.
  rewrite H. unfold sumAmounts; simpl. lia.
Qed.

(** The theorem for a single pending transfer without amount: the
    balance stays 100. *)
Lemma updatePendingTransactions_no_amounts_witness :
  availableBalance (updatePendingTransactions addressWithoutAmount) = 100.
Proof.
apply (updatePendingTransactions_no_amounts addressWithoutAmount).
- repeat constructor; discriminate.
- repeat constructor.
Defined.

(** The scenario of a transfer of 30 from a balance of 100: 70 is
    available while the transfer is pending, and the transfer leaves the
    pending list once a confirmed transaction carries its id. *)
Example transfer_then_confirmation :
  availableBalance (updatePendingTransactions addressA) = 70
  /\ pending (transactions (updatePendingTransactions addressA))
     = [pendingTransfer30]
  /\ pending (transactions addressSettled) = [].
Proof. repeat split. Qed.

End ReconciliationClaims.

(** ** The registry map *)

Section Registry.

Lemma JsMap_get_set_eq k v m : JsMap.get k (JsMap.set k v m) = Some v.
Proof.
induction m as [|[k' v'] m IH]; simpl.
- now rewrite bool_decide_eq_true_2.
- destruct (bool_decide (k' = k)) eqn:Hk; simpl.
  + now rewrite bool_decide_eq_true_2.
  + now rewrite Hk.
Qed.

Lemma JsMap_get_set_ne k k' v m :
  k <> k' -> JsMap.get k' (JsMap.set k v m) = JsMap.get k' m.
Proof.
intros Hne. induction m as [|[k0 v0] m IH]; simpl.
- now rewrite bool_decide_eq_false_2.
- destruct (bool_decide (k0 = k)) eqn:Hk; simpl.
  + apply bool_decide_eq_true in Hk. subst k0.
    now rewrite !bool_decide_eq_false_2.
  + destruct (bool_decide (k0 = k')); [reflexivity|exact IH].
Qed.

(** Keys of one hash under two networks coincide only for one network. *)
Lemma constructMapKey_inj_network n1 n2 h :
  constructMapKey n1 h = constructMapKey n2 h -> n1 = n2.
Proof.
unfold constructMapKey. intros H.
apply String.app_inj in H. now apply String.app_inj in H.
Qed.

Lemma registerAddress_run n l w :
  is_Some (heap w !! l) ->
  registerAddress n l w = (inr tt, registerOne n w l).
Proof.
intros [a Ha].
unfold registerAddress, registerOne, assign, deref, modify, mbind, M_bind.
rewrite Ha. simpl.
rewrite list_lookup_insert_eq by (now apply lookup_lt_Some in Ha).
reflexivity.
Qed.

Lemma registerOne_length n w l :
  length (heap (registerOne n w l)) = length (heap w).
Proof.
unfold registerOne. destruct (heap w !! l); simpl; [|reflexivity].
apply length_insert.
Qed.

Lemma for_of_registerAddress n ls w :
  Forall (fun l => is_Some (heap w !! l)) ls ->
  for_of ls (registerAddress n) w = (inr tt, fold_left (registerOne n) ls w).
Proof.
revert w. induction ls as [|l ls IH]; intros w Hall; simpl; [reflexivity|].
inversion Hall as [|? ? Hl Hls]; subst.
unfold mbind, M_bind. rewrite registerAddress_run by assumption.
apply IH. eapply Forall_impl; [exact Hls|]. intros l' Hl'; simpl in *.
apply lookup_lt_is_Some. rewrite registerOne_length.
now apply lookup_lt_is_Some.
Qed.

(** The run of [updateAddressesState] on references that denote objects. *)
Lemma updateAddressesState_run n ls w :
  ls <> [] ->
  Forall (fun l => is_Some (heap w !! l)) ls ->
  updateAddressesState n ls w =
  (inr tt,
   fold_left (registerOne n) ls (set_trace (trace w ++ [SetAddressesState]) w)).
Proof.
intros Hne Hall. unfold updateAddressesState.
destruct ls as [|l ls]; [contradiction|].
change (length (l :: ls) =? 0)%nat with false. cbv iota.
unfold mbind at 1, M_bind at 1. unfold emit, modify.
now apply for_of_registerAddress.
Qed.

(** The heap after registering: the given objects are stamped, every
    other object is as before. *)
Lemma registerAll_heap n ls w l :
  heap (fold_left (registerOne n) ls w) !! l =
  if bool_decide (l ∈ ls)
  then Address.set_network (Some n) <$> heap w !! l
  else heap w !! l.
Proof.
revert w. induction ls as [|l0 ls IH]; intros w.
- rewrite bool_decide_eq_false_2; [reflexivity|]. apply not_elem_of_nil.
- cbn [fold_left]. rewrite IH.
  assert (Hstep : heap (registerOne n w l0) !! l =
                  if bool_decide (l = l0)
                  then Address.set_network (Some n) <$> heap w !! l
                  else heap w !! l).
  { unfold registerOne. destruct (heap w !! l0) as [a0|] eqn:H0; cbn.
    - destruct (decide (l = l0)) as [->|Hne].
      + rewrite bool_decide_eq_true_2 by reflexivity.
        rewrite list_lookup_insert_eq by (now apply lookup_lt_Some in H0).
        now rewrite H0.
      + rewrite bool_decide_eq_false_2 by assumption.
        apply list_lookup_insert_ne. congruence.
    - destruct (decide (l = l0)) as [->|Hne].
      + rewrite bool_decide_eq_true_2 by reflexivity. now rewrite H0.
      + now rewrite bool_decide_eq_false_2 by assumption. }
  rewrite Hstep.
  destruct (decide (l = l0)) as [->|Hne].
  + rewrite (bool_decide_eq_true_2 (l0 = l0)) by reflexivity.
    rewrite (bool_decide_eq_true_2 (l0 ∈ l0 :: ls)) by left.
    destruct (bool_decide (l0 ∈ ls)); [|reflexivity].
    now destruct (heap w !! l0).
  + rewrite (bool_decide_eq_false_2 (l = l0)) by assumption.
    destruct (decide (l ∈ ls)) as [Hin|Hin].
    * rewrite !bool_decide_eq_true_2; [reflexivity|now right|assumption].
    * rewrite !bool_decide_eq_false_2; [reflexivity| |assumption].
      intros Hc. inversion Hc; subst; contradiction.
Qed.

Lemma registerAll_hash n ls w l :
  Address.hash <$> heap (fold_left (registerOne n) ls w) !! l =
  Address.hash <$> heap w !! l.
Proof.
rewrite registerAll_heap.
destruct (bool_decide (l ∈ ls)); [|reflexivity].
now destruct (heap w !! l).
Qed.

(** The registry after registering: a key that is not the key of a given
    address is bound as before. *)
Lemma registerAll_get_other n ls w k :
  (forall l a, l ∈ ls -> heap w !! l = Some a ->
               constructMapKey n (Address.hash a) <> k) ->
  JsMap.get k (addressesState (fold_left (registerOne n) ls w)) =
  JsMap.get k (addressesState w).
Proof.
revert w. induction ls as [|l0 ls IH]; intros w Hk; simpl; [reflexivity|].
rewrite IH.
- unfold registerOne. destruct (heap w !! l0) as [a0|] eqn:H0; simpl;
    [|reflexivity].
  apply JsMap_get_set_ne. apply (Hk l0 a0); [left|assumption].
- intros l a Hin Ha.
  pose proof (registerAll_hash n [l0] w l) as Hh. simpl in Hh.
  rewrite Ha in Hh. simpl in Hh.
  destruct (heap w !! l) as [a'|] eqn:Ha'; [|discriminate].
  injection Hh as Hh. rewrite Hh. apply (Hk l a'); [now right|assumption].
Qed.

Lemma registerOne_rest n w l : sameOutside w (registerOne n w l).
Proof.
unfold registerOne, sameOutside. destruct (heap w !! l); cbn; tauto.
Qed.

Lemma registerAll_rest n ls w :
  sameOutside w (fold_left (registerOne n) ls w).
Proof.
revert w. induction ls as [|l ls IH]; intros w; cbn [fold_left].
- unfold sameOutside; tauto.
- pose proof (IH (registerOne n w l)) as H1.
  pose proof (registerOne_rest n w l) as H2.
  unfold sameOutside in *.
  destruct H1 as (-> & -> & -> & -> & -> & ->). exact H2.
Qed.

(** Every given address ends up registered: the key of its hash is bound
    to a given reference whose address has that same key (the last such
    one in the list). *)
Lemma registerAll_get_given n ls w l a :
  l ∈ ls -> heap w !! l = Some a ->
  exists l' a', l' ∈ ls /\ heap w !! l' = Some a'
    /\ constructMapKey n (Address.hash a') = constructMapKey n (Address.hash a)
    /\ JsMap.get (constructMapKey n (Address.hash a))
         (addressesState (fold_left (registerOne n) ls w)) = Some l'.
Proof.
induction ls as [|x ls IH] using rev_ind; intros Hin Ha.
- inversion Hin.
- rewrite fold_left_app. simpl.
  set (w1 := fold_left (registerOne n) ls w).
  pose proof (registerAll_hash n ls w x) as Hx. fold w1 in Hx.
  unfold registerOne.
  destruct (heap w1 !! x) as [ax1|] eqn:Hx1; simpl in *.
  + destruct (heap w !! x) as [ax|] eqn:Hax; [|discriminate].
    injection Hx as Hx. rewrite Hx.
    destruct (decide (constructMapKey n (Address.hash ax)
                      = constructMapKey n (Address.hash a))) as [Heq|Hne].
    * exists x, ax. split; [apply elem_of_app; right; left|].
      split; [assumption|]. split; [assumption|].
      rewrite Heq. apply JsMap_get_set_eq.
    * rewrite JsMap_get_set_ne by assumption.
      apply elem_of_app in Hin. destruct Hin as [Hin|Hin].
      -- destruct (IH Hin Ha) as (l' & a' & Hin' & Ha' & Hk & Hg).
         exists l', a'. split; [apply elem_of_app; now left|]. tauto.
      -- apply list_elem_of_singleton in Hin. subst x. congruence.
  + apply elem_of_app in Hin. destruct Hin as [Hin|Hin].
    * destruct (IH Hin Ha) as (l' & a' & Hin' & Ha' & Hk & Hg).
      exists l', a'. split; [apply elem_of_app; now left|]. tauto.
    * apply list_elem_of_singleton in Hin. subst x.
      rewrite Ha in Hx. destruct (heap w1 !! l); discriminate.
Qed.

(** What [updateAddressesState] does when its references denote objects. *)
Lemma updateAddressesState_effect (network_name : NetworkName)
    (newAddresses : list loc) (w : World) :
  Forall (fun l => is_Some (heap w !! l)) newAddresses ->
  let w' := snd (updateAddressesState network_name newAddresses w) in
  fst (updateAddressesState network_name newAddresses w) = inr tt
  /\ (forall k,
        (forall l a, l ∈ newAddresses -> heap w !! l = Some a ->
                     constructMapKey network_name (Address.hash a) <> k) ->
        JsMap.get k (addressesState w') = JsMap.get k (addressesState w))
  /\ (forall l a, l ∈ newAddresses -> heap w !! l = Some a ->
        exists l' a', l' ∈ newAddresses /\ heap w !! l' = Some a'
          /\ constructMapKey network_name (Address.hash a')
             = constructMapKey network_name (Address.hash a)
          /\ getAddress network_name (Address.hash a) w' = Some l')
  /\ (forall l, l ∈ newAddresses ->
        heap w' !! l
        = Address.set_network (Some network_name) <$> heap w !! l)
  /\ (forall l, l ∉ newAddresses -> heap w' !! l = heap w !! l)
  /\ storage w' = storage w
  /\ isLoadingData w' = isLoadingData w
  /\ trace w' = (if newAddresses is [] then trace w
                 else trace w ++ [SetAddressesState]).
Proof.
intros Hall.
destruct newAddresses as [|l0 ls] eqn:Hls.
- cbn. split; [reflexivity|]. split; [reflexivity|].
  split; [intros l a Hin; inversion Hin|].
  split; [intros l Hin; inversion Hin|]. tauto.
- rewrite <- Hls in *.
  rewrite updateAddressesState_run; [|rewrite Hls; discriminate|assumption].
  cbn [fst snd].
  set (w0 := set_trace (trace w ++ [SetAddressesState]) w).
  split; [reflexivity|].
  split. { intros k Hk. now rewrite registerAll_get_other. }
  split. { intros l a Hin Ha. unfold getAddress.
           now apply (registerAll_get_given network_name newAddresses w0 l a). }
  split. { intros l Hin. rewrite registerAll_heap.
           now rewrite bool_decide_eq_true_2. }
  split. { intros l Hin. rewrite registerAll_heap.
           now rewrite bool_decide_eq_false_2. }
  destruct (registerAll_rest network_name newAddresses w0)
    as (Ht & Hs & Hl & _).
  subst w0. cbn in Ht, Hs, Hl. rewrite Ht, Hs, Hl. tauto.
Qed.

(** The stamp: each given object gets the current network name in its
    [network] field and keeps every other field. *)
Lemma updateAddressesState_stamps (network_name : NetworkName)
    (newAddresses : list loc) (w : World) (l : loc) (a : Address.t) :
  Forall (fun l => is_Some (heap w !! l)) newAddresses ->
  l ∈ newAddresses -> heap w !! l = Some a ->
  exists a',
    heap (snd (updateAddressesState network_name newAddresses w)) !! l = Some a'
    /\ Address.network a' = Some network_name
    /\ a' = Address.mk (Address.hash a) (Address.shortHash a)
              (Address.publicKey a) (Address.privateKey a) (Address.group a)
              (Address.index a) (Address.settings a) (Address.details a)
              (Address.transactions a) (Address.availableBalance a)
              (Address.lastUsed a) (Some network_name).
Proof.
intros Hall Hin Ha.
destruct (updateAddressesState_effect network_name newAddresses w Hall)
  as (_ & _ & _ & Hstamp & _).
rewrite (Hstamp l Hin), Ha. eexists. split; [reflexivity|].
split; reflexivity.
Qed.

Lemma registerAll_length n ls w :
  length (heap (fold_left (registerOne n) ls w)) = length (heap w).
Proof.
revert w. induction ls as [|l ls IH]; intros w; cbn [fold_left];
  [reflexivity|].
now rewrite IH, registerOne_length.
Qed.

Lemma updateAddressesState_length (network_name : NetworkName)
    (newAddresses : list loc) (w : World) :
  Forall (fun l => is_Some (heap w !! l)) newAddresses ->
  length (heap (snd (updateAddressesState network_name newAddresses w)))
  = length (heap w).
Proof.
intros Hall. destruct newAddresses as [|l ls]; [reflexivity|].
rewrite updateAddressesState_run by (assumption || discriminate).
cbn [snd]. now rewrite registerAll_length.
Qed.

(** C10: [updateAddressesState] called with an empty list returns without
    touching the world at all. Called with references that denote
    objects, it changes the registry only at the keys built from the
    given addresses' hashes and the current network name (every other
    key is bound as before, and each given key is bound to a given
    address); the [network] field of each given object then holds the
    current network name, whatever it held before, and every other field
    of the object is as it was; every other object is as it was and none
    is created; apart from recording the state update nothing else
    changes. *)
Theorem updateAddressesState_frame (network_name : NetworkName)
    (newAddresses : list loc) (w : World) :
  updateAddressesState network_name [] w = (inr tt, w)
  /\ (Forall (fun l => is_Some (heap w !! l)) newAddresses ->
      let w' := snd (updateAddressesState network_name newAddresses w) in
      fst (updateAddressesState network_name newAddresses w) = inr tt
      /\ (forall k,
            (forall l a, l ∈ newAddresses -> heap w !! l = Some a ->
                         constructMapKey network_name (Address.hash a) <> k) ->
            JsMap.get k (addressesState w') = JsMap.get k (addressesState w))
      /\ (forall l a, l ∈ newAddresses -> heap w !! l = Some a ->
            exists l' a', l' ∈ newAddresses /\ heap w !! l' = Some a'
              /\ constructMapKey network_name (Address.hash a')
                 = constructMapKey network_name (Address.hash a)
              /\ getAddress network_name (Address.hash a) w' = Some l')
      /\ (forall l a, l ∈ newAddresses -> heap w !! l = Some a ->
            exists a',
              heap w' !! l = Some a'
              /\ Address.network a' = Some network_name
              /\ a' = Address.mk (Address.hash a) (Address.shortHash a)
                        (Address.publicKey a) (Address.privateKey a)
                        (Address.group a) (Address.index a)
                        (Address.settings a) (Address.details a)
                        (Address.transactions a) (Address.availableBalance a)
                        (Address.lastUsed a) (Some network_name))
      /\ (forall l, l ∉ newAddresses -> heap w' !! l = heap w !! l)
      /\ length (heap w') = length (heap w)
      /\ storage w' = storage w
      /\ isLoadingData w' = isLoadingData w
      /\ trace w' = (if newAddresses is [] then trace w
                     else trace w ++ [SetAddressesState])).
Proof.
split; [reflexivity|]. intros Hall w'.
destruct (updateAddressesState_effect network_name newAddresses w Hall)
  as (Hret & Hother & Hgiven & _ & Hrest & Hst & Hld & Htr).
split; [exact Hret|]. split; [exact Hother|]. split; [exact Hgiven|].
split. { intros l a Hin Ha. now apply updateAddressesState_stamps. }
split; [exact Hrest|].
split; [now apply updateAddressesState_length|]. auto.
Qed.

(** The theorem for the world that holds the registered address of hash
    "A" and the unregistered one of hash "B", when the second one is
    registered under "testnet": its key is bound and its [network]
    field, which held nothing, holds "testnet"; the entry and the object
    of the first address are as they were. *)
Lemma updateAddressesState_frame_witness :
  let w' := snd (updateAddressesState "testnet" [1%nat] worldAB) in
  Forall (fun l => is_Some (heap worldAB !! l)) [1%nat]
  /\ Address.network addressB = None
  /\ getAddress "testnet" "B" w' = Some 1%nat
  /\ Address.network <$> heap w' !! 1%nat = Some (Some "testnet")
  /\ getAddress "mainnet" "A" w' = Some 0%nat
  /\ heap w' !! 0%nat = Some addressA.
Proof.
intros w'. subst w'.
assert (Hall : Forall (fun l => is_Some (heap worldAB !! l)) [1%nat]).
{ repeat constructor. exists addressB. reflexivity. }
split; [exact Hall|]. split; [reflexivity|].
destruct (proj2 (updateAddressesState_frame "testnet" [1%nat] worldAB) Hall)
  as (_ & Hother & Hgiven & Hstamp & Hrest & _).
assert (Hin : 1%nat ∈ [1%nat]) by left.
split.
{ destruct (Hgiven 1%nat addressB Hin eq_refl)
    as (l' & a' & Hin' & _ & _ & Hget).
  apply list_elem_of_singleton in Hin'. subst l'. exact Hget. }
split.
{ destruct (Hstamp 1%nat addressB Hin eq_refl) as (a' & Ha' & Hnet & _).
  rewrite Ha'. cbn. now rewrite Hnet. }
split.
{ unfold getAddress. rewrite (Hother (constructMapKey "mainnet" "A")).
  - reflexivity.
  - intros l a Hl Ha Hk. apply list_elem_of_singleton in Hl. subst l.
    injection Ha as <-. discriminate Hk. }
rewrite (Hrest 0%nat); [reflexivity|].
intros H0. apply list_elem_of_singleton in H0. discriminate.
Defined.

(** The registry holds references: when an object already registered
    under one network is registered again under another, both entries
    lead to the same object, whose [network] field has been restamped. *)
Remark updateAddressesState_shared_object :
  let w := mkWorld [addressA] JsMap.empty false [] None None None [] in
  let w1 := snd (updateAddressesState "testnet" [0%nat] w) in
  let w2 := snd (updateAddressesState "mainnet" [0%nat] w1) in
  getAddress "testnet" "A" w2 = Some 0%nat
  /\ getAddress "mainnet" "A" w2 = Some 0%nat
  /\ Address.network <$> heap w1 !! 0%nat = Some (Some "testnet")
  /\ Address.network <$> heap w2 !! 0%nat = Some (Some "mainnet").
Proof. repeat split. Qed.

(** C6, as stated, fails: the registry holds references, so the address
    object that is stored while "mainnet" is active and stored again
    while "testnet" is active is the address that [getAddress] returns
    while "testnet" is active; and its state is not kept apart per
    network, for the second store restamps the one object, which the
    "mainnet" entry still leads to but which is not listed among the
    addresses of "mainnet" any more. *)
Lemma getAddress_shared_across_networks :
  let w0 := mkWorld [addressA] JsMap.empty false [] None None None [] in
  let w1 := snd (updateAddressesState "mainnet" [0%nat] w0) in
  let w2 := snd (updateAddressesState "testnet" [0%nat] w1) in
  getAddress "mainnet" "A" w1 = Some 0%nat
  /\ getAddress "testnet" "A" w2 = Some 0%nat
  /\ getAddress "mainnet" "A" w2 = Some 0%nat
  /\ addressesOfCurrentNetwork "mainnet" w1 = [0%nat]
  /\ addressesOfCurrentNetwork "mainnet" w2 = []
  /\ ~ (forall (n1 n2 : NetworkName) (h : AddressHash) (l : loc) (w : World),
          n1 <> n2 ->
          Address.hash <$> heap w !! l = Some h ->
          forall later : list loc,
            getAddress n2 h
              (snd (updateAddressesState n2 later
                      (snd (updateAddressesState n1 [l] w))))
            <> Some l).
Proof.
intros w0 w1 w2. repeat (split; [reflexivity|]).
intros Hnever.
assert (Hn : "mainnet" <> "testnet") by discriminate.
exact (Hnever "mainnet" "testnet" "A" 0%nat w0 Hn eq_refl [0%nat] eq_refl).
Qed.

(** C6 (amended): registering addresses of hash [h] while network [n1]
    is active does not change what [getAddress h] returns while a
    different network [n2] is active (so an address that is not bound
    under [n2] is not returned there), while under [n1] the hash is now
    bound to one of the registered addresses: the same hash has separate
    entries per network. The entries hold references: an address
    registered while [n1] is active and again while [n2] is active is
    returned under both networks, and it is one object, which carries
    the stamp of the network it was registered under last. *)
Theorem getAddress_network_isolation (n1 n2 : NetworkName) (h : AddressHash)
    (newAddresses : list loc) (w : World) :
  n1 <> n2 ->
  Forall (fun l => Address.hash <$> heap w !! l = Some h) newAddresses ->
  let w' := snd (updateAddressesState n1 newAddresses w) in
  getAddress n2 h w' = getAddress n2 h w
  /\ (getAddress n2 h w = None -> getAddress n2 h w' = None)
  /\ (newAddresses <> [] ->
      exists l, l ∈ newAddresses /\ getAddress n1 h w' = Some l)
  /\ (forall l, newAddresses = [l] ->
      let w'' := snd (updateAddressesState n2 [l] w') in
      getAddress n1 h w'' = Some l
      /\ getAddress n2 h w'' = Some l
      /\ Address.network <$> heap w'' !! l = Some (Some n2)).
Proof.
intros Hn Hh w'.
assert (Hall : Forall (fun l => is_Some (heap w !! l)) newAddresses).
{ eapply Forall_impl; [exact Hh|]. intros l Hl; cbn in Hl.
  destruct (heap w !! l); [eauto|discriminate]. }
destruct (updateAddressesState_effect n1 newAddresses w Hall)
  as (_ & Hother & Hgiven & Hstamp & _).
fold w' in Hother, Hgiven, Hstamp.
assert (Heq : getAddress n2 h w' = getAddress n2 h w).
{ unfold getAddress. apply Hother. intros l a Hin Ha Hk.
  rewrite Forall_forall in Hh. specialize (Hh l Hin).
  rewrite Ha in Hh. injection Hh as Hh. rewrite Hh in Hk.
  apply Hn. now apply constructMapKey_inj_network in Hk. }
assert (Hbound : newAddresses <> [] ->
                 exists l, l ∈ newAddresses /\ getAddress n1 h w' = Some l).
{ intros Hne. destruct newAddresses as [|l ls]; [contradiction|].
  rewrite Forall_forall in Hh.
  assert (Hin : l ∈ l :: ls) by left.
  pose proof (Hh l Hin) as Hl.
  destruct (heap w !! l) as [a|] eqn:Ha; [|discriminate].
  injection Hl as Hl.
  destruct (Hgiven l a Hin Ha) as (l' & a' & Hin' & _ & _ & Hg).
  exists l'. rewrite Hl in Hg. eauto. }
split; [exact Heq|]. split; [intros Hnone; now rewrite Heq|].
split; [exact Hbound|].
intros l Hl w''. subst newAddresses.
assert (Hin : l ∈ [l]) by left.
assert (Hobj : exists a, heap w !! l = Some a /\ Address.hash a = h).
{ rewrite Forall_forall in Hh. specialize (Hh l Hin).
  destruct (heap w !! l) as [a|]; [|discriminate]. injection Hh as Hh. eauto. }
destruct Hobj as (a & Ha & Hhash).
assert (Ha' : heap w' !! l = Some (Address.set_network (Some n1) a)).
{ rewrite (Hstamp l Hin), Ha. reflexivity. }
assert (Hall' : Forall (fun l0 => is_Some (heap w' !! l0)) [l]).
{ repeat constructor. rewrite Ha'. eauto. }
destruct (updateAddressesState_effect n2 [l] w' Hall')
  as (_ & Hother' & Hgiven' & Hstamp' & _).
fold w'' in Hother', Hgiven', Hstamp'.
split; [|split].
- destruct (Hbound ltac:(discriminate)) as (l1 & Hl1 & Hget).
  apply list_elem_of_singleton in Hl1. subst l1.
  unfold getAddress in *. rewrite Hother'; [exact Hget|].
  intros l0 a0 Hl0 Ha0 Hk. apply list_elem_of_singleton in Hl0. subst l0.
  rewrite Ha' in Ha0. injection Ha0 as <-. cbn in Hk. rewrite Hhash in Hk.
  apply Hn. symmetry. now apply constructMapKey_inj_network in Hk.
- destruct (Hgiven' l _ Hin Ha') as (l1 & a1 & Hl1 & _ & _ & Hget).
  apply list_elem_of_singleton in Hl1. subst l1.
  cbn in Hget. now rewrite Hhash in Hget.
- rewrite (Hstamp' l Hin), Ha'. reflexivity.
Qed.

(** The theorem for an address of hash "A" registered under "testnet"
    and looked up under "mainnet", and then registered under "mainnet"
    as well. *)
Lemma getAddress_network_isolation_witness :
  let w := mkWorld [addressA] JsMap.empty false [] None None None [] in
  let w' := snd (updateAddressesState "testnet" [0%nat] w) in
  let w'' := snd (updateAddressesState "mainnet" [0%nat] w') in
  getAddress "mainnet" "A" w' = None
  /\ getAddress "testnet" "A" w' = Some 0%nat
  /\ getAddress "testnet" "A" w'' = Some 0%nat
  /\ getAddress "mainnet" "A" w'' = Some 0%nat.
Proof.
intros w w' w''.
assert (Hn : "testnet" <> "mainnet") by discriminate.
assert (Hh : Forall (fun l => Address.hash <$> heap w !! l = Some "A") [0%nat]).
{ repeat constructor. }
destruct (getAddress_network_isolation "testnet" "mainnet" "A" [0%nat] w Hn Hh)
  as (_ & Hnone & _ & Hshared).
split; [apply Hnone; reflexivity|]. split; [reflexivity|].
destruct (Hshared 0%nat eq_refl) as (H1 & H2 & _).
split; [exact H1|exact H2].
Defined.

(** The key is the concatenation [hash-network]: two different hashes
    can share a key under two different networks when the names contain
    the separator. *)
Remark constructMapKey_collision :
  constructMapKey "b" "x-a" = constructMapKey "a-b" "x".
Proof. reflexivity. Qed.

End Registry.

(** ** Data fetching while the wallet is offline *)

Lemma clientCalls_app tr1 tr2 :
  clientCalls (tr1 ++ tr2) = clientCalls tr1 ++ clientCalls tr2.
Proof. apply omap_app. Qed.

Lemma notifications_app tr1 tr2 :
  notifications (tr1 ++ tr2) = notifications tr1 ++ notifications tr2.
Proof. apply omap_app. Qed.

Section Offline.

Variable client : option Client.t.
Variable network_name : NetworkName.
Variable network_status : string.
Variable getHumanReadableError : Exn -> string -> string.
Variable convertUnconfirmedTxToPendingTx :
  UnconfirmedTransaction.t -> AddressHash -> NetworkName -> PendingTx.t.

Hypothesis Hunavailable : unavailable client network_status = true.

Lemma fetchAndStoreAddressesData_unavailable addresses checking w :
  fetchAndStoreAddressesData client network_name network_status
    getHumanReadableError addresses checking w =
  updateAddressesState network_name addresses
    (set_trace (trace w ++ [SetSnackbarMessage offlineNotification]) w).
Proof.
unfold fetchAndStoreAddressesData. rewrite Hunavailable. reflexivity.
Qed.

Lemma fetchPendingTxs_unavailable addresses w :
  fetchPendingTxs client network_name network_status getHumanReadableError
    convertUnconfirmedTxToPendingTx addresses w =
  (inr tt, set_trace (trace w ++ [SetSnackbarMessage offlineNotification]) w).
Proof.
unfold fetchPendingTxs. unfold unavailable in Hunavailable.
destruct client; [|reflexivity]. now rewrite Hunavailable.
Qed.

Lemma fetchAddressTransactionsNextPage_unavailable address w :
  fetchAddressTransactionsNextPage client network_status address w = (inr tt, w).
Proof.
unfold fetchAddressTransactionsNextPage. unfold unavailable in Hunavailable.
destruct client; [|reflexivity]. now rewrite Hunavailable.
Qed.

End Offline.

(** C8, as stated, fails for [fetchAddressTransactionsNextPage]: with no
    client it returns without any notification. *)
Lemma fetchAddressTransactionsNextPage_offline_silent :
  unavailable None "online" = true
  /\ fetchAddressTransactionsNextPage None "online" 0%nat worldA = (inr tt, worldA)
  /\ notifications
       (trace (snd (fetchAddressTransactionsNextPage None "online" 0%nat worldA)))
     = []
  /\ ~ (forall (client : option Client.t) (network_status : string)
               (address : loc) (w : World),
          unavailable client network_status = true ->
          notifications
            (trace (snd (fetchAddressTransactionsNextPage client network_status
                           address w)))
          = notifications (trace w) ++ [offlineNotification]).
Proof.
split; [reflexivity|]. split; [reflexivity|]. split; [reflexivity|].
intros H. specialize (H None "online" 0%nat worldA eq_refl). discriminate.
Qed.

(** C8 (amended): whenever the client is unset or the network status is
    'offline', none of [fetchAndStoreAddressesData], [fetchPendingTxs]
    and [fetchAddressTransactionsNextPage] makes a client call.
    [fetchAndStoreAddressesData] surfaces exactly one offline
    notification and registers the addresses it was given;
    [fetchPendingTxs] surfaces exactly one offline notification and
    changes nothing else; [fetchAddressTransactionsNextPage] returns
    without a notification and changes nothing. *)
Theorem data_fetching_unavailable
    (client : option Client.t) (network_name : NetworkName)
    (network_status : string)
    (getHumanReadableError : Exn -> string -> string)
    (convertUnconfirmedTxToPendingTx :
       UnconfirmedTransaction.t -> AddressHash -> NetworkName -> PendingTx.t)
    (addresses : list loc) (checking : bool) (address : loc) (w : World) :
  unavailable client network_status = true ->
  Forall (fun l => is_Some (heap w !! l)) addresses ->
  let w1 := snd (fetchAndStoreAddressesData client network_name network_status
                   getHumanReadableError addresses checking w) in
  let w2 := snd (fetchPendingTxs client network_name network_status
                   getHumanReadableError convertUnconfirmedTxToPendingTx
                   addresses w) in
  let w3 := snd (fetchAddressTransactionsNextPage client network_status
                   address w) in
  (clientCalls (trace w1) = clientCalls (trace w)
   /\ notifications (trace w1) = notifications (trace w) ++ [offlineNotification]
   /\ w1 = snd (updateAddressesState network_name addresses
                  (set_trace (trace w ++ [SetSnackbarMessage offlineNotification])
                     w)))
  /\ (clientCalls (trace w2) = clientCalls (trace w)
      /\ notifications (trace w2) = notifications (trace w) ++ [offlineNotification]
      /\ w2 = set_trace (trace w ++ [SetSnackbarMessage offlineNotification]) w)
  /\ (clientCalls (trace w3) = clientCalls (trace w)
      /\ notifications (trace w3) = notifications (trace w)
      /\ w3 = w).
Proof.
intros Hun Hall w1 w2 w3.
subst w1 w2 w3.
rewrite fetchAndStoreAddressesData_unavailable,
  fetchPendingTxs_unavailable, fetchAddressTransactionsNextPage_unavailable
  by assumption.
cbn [snd].
split; [|split].
- set (w0 := set_trace (trace w ++ [SetSnackbarMessage offlineNotification]) w).
  assert (Hall0 : Forall (fun l => is_Some (heap w0 !! l)) addresses)
    by exact Hall.
  destruct (updateAddressesState_effect network_name addresses w0 Hall0)
    as (_ & _ & _ & _ & _ & _ & _ & Ht).
  rewrite Ht. subst w0. cbn [trace set_trace].
  destruct addresses;
    rewrite ?clientCalls_app, ?notifications_app; cbn;
    rewrite ?app_nil_r; auto.
- cbn [trace set_trace]. rewrite clientCalls_app, notifications_app. cbn.
  rewrite app_nil_r. auto.
- auto.
Qed.

(** The theorem with no client, for the registered address of [worldA]. *)
Lemma data_fetching_unavailable_witness :
  notifications
    (trace (snd (fetchPendingTxs None "mainnet" "online" (fun _ s => s)
                   (fun tx _ n =>
                      PendingTx.mk (UnconfirmedTransaction.hash tx) "" "" 0
                        transfer n None)
                   [0%nat] worldA)))
  = [offlineNotification].
Proof.
assert (Hall : Forall (fun l => is_Some (heap worldA !! l)) [0%nat]).
{ repeat constructor. exists addressA. reflexivity. }
destruct (data_fetching_unavailable None "mainnet" "online" (fun _ s => s)
            (fun tx _ n =>
               PendingTx.mk (UnconfirmedTransaction.hash tx) "" "" 0
                 transfer n None)
            [0%nat] false 0%nat worldA eq_refl Hall)
  as (_ & (_ & Hn & _) & _).
exact Hn.
Defined.

(** ** Saving a new address *)

Lemma detached_returns (m : M unit) (w : World) : fst (detached m w) = inr tt.
Proof.
unfold detached, try_catch. destruct (m w) as [[e|[]] w']; reflexivity.
Qed.

Lemma bind_returns {A B : Type} (m : M A) (f : A -> M B) (w w' : World) (x : A) :
  m w = (inr x, w') -> (m ≫= f) w = f x w'.
Proof. intros H. unfold mbind, M_bind. now rewrite H. Qed.

(** A call that is not awaited never throws into its caller. *)
Lemma unawaited_returns (m : Async unit) (w : World) :
  exists t w', unawaited m w = (inr t, w').
Proof.
unfold unawaited, try_catch. destruct (start m w) as [[e|t] w']; cbn; eauto.
Qed.

Section SaveNewAddress.

Variable activeWalletName : string.
Variable client : option Client.t.
Variable isPassphraseUsed : bool.
Variable network_name : NetworkName.
Variable network_status : string.
Variable addressToGroup : AddressHash -> Z.
Variable getHumanReadableError : Exn -> string -> string.
Variable convertUnconfirmedTxToPendingTx :
  UnconfirmedTransaction.t -> AddressHash -> NetworkName -> PendingTx.t.

Local Abbreviation saveNewAddress' :=
  (saveNewAddress activeWalletName client isPassphraseUsed network_name
     network_status getHumanReadableError convertUnconfirmedTxToPendingTx).

(** Whether [saveNewAddress] throws is decided by its own second
    argument alone. *)
Lemma saveNewAddress_throws newAddress (argument : option string) w :
  truthy argument = false ->
  saveNewAddress' newAddress argument w =
  (inl (Error "Could not save new address, mnemonic not found"), w).
Proof.
unfold saveNewAddress', saveNewAddress, js_or. intros Hf. rewrite Hf.
destruct argument as [m|]; [|reflexivity].
cbn in Hf. apply negb_false_iff in Hf. now rewrite Hf.
Qed.

Lemma saveNewAddress_returns newAddress (argument : option string) w :
  truthy argument = true ->
  is_Some (heap w !! newAddress) ->
  exists fetching checking,
    fst (saveNewAddress' newAddress argument w) = inr [fetching; checking].
Proof.
unfold saveNewAddress', saveNewAddress, js_or. intros Ht [a Ha]. rewrite Ht.
destruct argument as [m|]; [|discriminate].
cbn in Ht. apply negb_true_iff in Ht. rewrite Ht.
set (store := if negb isPassphraseUsed then _ else _).
assert (Hstore : exists w1, store w = (inr tt, w1) /\ heap w1 = heap w).
{ subst store. destruct (negb isPassphraseUsed).
  - unfold storeMetadata, deref, modify, mbind, M_bind. rewrite Ha. cbn.
    rewrite Ha. eauto.
  - eauto. }
destruct Hstore as (w1 & Hw1 & Hheap).
rewrite (bind_returns _ _ _ _ _ Hw1).
unfold setAddress.
rewrite (bind_returns _ _ w1 _ tt
           (updateAddressesState_run network_name [newAddress] w1
              ltac:(discriminate)
              ltac:(repeat constructor; rewrite Hheap, Ha; eauto))).
match goal with
| |- context [(unawaited ?m ≫= ?f) ?w] =>
    destruct (unawaited_returns m w) as (fetching & w2 & Hrun);
    rewrite (bind_returns _ _ _ _ _ Hrun)
end.
match goal with
| |- context [(unawaited ?m ≫= ?f) ?w] =>
    destruct (unawaited_returns m w) as (checking & w3 & Hrun');
    rewrite (bind_returns _ _ _ _ _ Hrun')
end.
exists fetching, checking. reflexivity.
Qed.

(** C4: the claim at the input where the code departs from it. A wallet
    secret is unlocked ([mnemonic] is a non-empty string) and
    [saveNewAddress] is called with the address alone, as
    [generateOneAddressPerGroup] calls it: it throws, and nothing is
    stored, registered or fetched. It throws exactly when its own second
    argument is absent or empty, whatever the unlocked secret is; with a
    non-empty argument it returns. *)
Theorem saveNewAddress_unlocked_throws (mnemonic : option string)
    (newAddress : loc) (w : World) :
  truthy mnemonic = true ->
  is_Some (heap w !! newAddress) ->
  saveNewAddress' newAddress None w =
    (inl (Error "Could not save new address, mnemonic not found"), w)
  /\ (forall argument : option string,
        (exists e, fst (saveNewAddress' newAddress argument w) = inl e)
        <-> truthy argument = false).
Proof.
intros _ Hvalid. split; [now apply saveNewAddress_throws|].
intros argument. destruct (truthy argument) eqn:Ht.
- destruct (saveNewAddress_returns newAddress argument w Ht Hvalid)
    as (fetching & checking & Hret).
  rewrite Hret. split; [intros [e He]; discriminate|discriminate].
- rewrite saveNewAddress_throws by assumption. cbn. split; eauto.
Qed.

(** The handler that [generateOneAddressPerGroup] installs on the worker
    calls [saveNewAddress] with the address alone, so it throws on the
    first derived address. *)
Lemma onAddressesInGroupsDerived_throws labelPrefix labelColor d data w :
  fst (onAddressesInGroupsDerived activeWalletName client isPassphraseUsed
         network_name network_status addressToGroup getHumanReadableError
         convertUnconfirmedTxToPendingTx labelPrefix labelColor (d :: data) w)
  = inl (Error "Could not save new address, mnemonic not found").
Proof.
unfold onAddressesInGroupsDerived. cbn [map_M].
unfold mbind, M_bind, alloc.
fold saveNewAddress'. rewrite saveNewAddress_throws by reflexivity.
reflexivity.
Qed.

End SaveNewAddress.

(** The theorem for the unlocked secret "secret" and the address of
    [worldA]. *)
Lemma saveNewAddress_unlocked_throws_witness :
  truthy (Some "secret") = true
  /\ saveNewAddress "wallet" None false "mainnet" "online" (fun _ s => s)
       (fun tx _ n =>
          PendingTx.mk (UnconfirmedTransaction.hash tx) "" "" 0 transfer n None)
       0%nat None worldA
     = (inl (Error "Could not save new address, mnemonic not found"), worldA).
Proof.
split; [reflexivity|].
apply (saveNewAddress_unlocked_throws "wallet" None false "mainnet" "online"
         (fun _ s => s)
         (fun tx _ n =>
            PendingTx.mk (UnconfirmedTransaction.hash tx) "" "" 0 transfer n None)
         (Some "secret") 0%nat worldA eq_refl).
exists addressA. reflexivity.
Defined.

(** ** Initialisation *)

Create HintDb preserves discriminated.

Lemma stable_refl w : stable w w.
Proof. split; reflexivity. Qed.

Lemma stable_trans w1 w2 w3 : stable w1 w2 -> stable w2 w3 -> stable w1 w3.
Proof. unfold stable. intros [-> ->] [-> ->]. split; reflexivity. Qed.

Lemma preserves_mret {A : Type} (x : A) : preserves (mret x).
Proof. intros w. apply stable_refl. Qed.

Lemma preserves_throw {A : Type} (e : Exn) : preserves (@throw A e).
Proof. intros w. apply stable_refl. Qed.

Lemma preserves_gets {A : Type} (f : World -> A) : preserves (gets f).
Proof. intros w. apply stable_refl. Qed.

Lemma preserves_bind {A B : Type} (m : M A) (f : A -> M B) :
  preserves m -> (forall x, preserves (f x)) -> preserves (m ≫= f).
Proof.
intros Hm Hf w. unfold mbind, M_bind.
specialize (Hm w). destruct (m w) as [[e|x] w1]; cbn in *; [exact Hm|].
eapply stable_trans; [exact Hm|apply Hf].
Qed.

Lemma preserves_try_catch {A : Type} (m : M A) (h : Exn -> M A) :
  preserves m -> (forall e, preserves (h e)) -> preserves (try_catch m h).
Proof.
intros Hm Hh w. unfold try_catch.
specialize (Hm w). destruct (m w) as [[e|x] w1]; cbn in *; [|exact Hm].
eapply stable_trans; [exact Hm|apply Hh].
Qed.

Lemma preserves_emit e : preserves (emit e).
Proof. intros w. split; reflexivity. Qed.

Lemma preserves_set_isLoadingData b : preserves (modify (set_isLoadingData b)).
Proof. intros w. split; reflexivity. Qed.

Lemma preserves_set_addressesState (f : World -> JsMap.t) :
  preserves (modify (fun w => set_addressesState (f w) w)).
Proof. intros w. split; reflexivity. Qed.

Lemma preserves_deref l : preserves (deref l).
Proof. intros w. unfold deref. destruct (heap w !! l); apply stable_refl. Qed.

Lemma preserves_assign l f : preserves (assign l f).
Proof.
intros w. unfold assign, deref, modify, mbind, M_bind.
destruct (heap w !! l); cbn; [|apply stable_refl].
split; [reflexivity|apply length_insert].
Qed.

#[local] Hint Resolve preserves_mret preserves_throw preserves_gets
  preserves_emit preserves_set_isLoadingData preserves_set_addressesState
  preserves_deref preserves_assign : preserves.

Ltac preserves_step :=
  first
    [ solve [auto with preserves]
    | apply preserves_bind; [|intros ?]
    | apply preserves_try_catch; [|intros ?]
    | match goal with
      | |- preserves (match ?x with _ => _ end) => destruct x
      end ].

Lemma preserves_for_of {A : Type} (xs : list A) (body : A -> M unit) :
  (forall x, preserves (body x)) -> preserves (for_of xs body).
Proof.
intros Hbody. induction xs as [|x xs IH]; cbn [for_of].
- auto with preserves.
- apply preserves_bind; auto.
Qed.

Lemma preserves_call_on_address call method address :
  preserves (call_on_address call method address).
Proof. unfold call_on_address. repeat preserves_step. Qed.

Lemma preserves_updateAddressesState n ls :
  preserves (updateAddressesState n ls).
Proof.
unfold updateAddressesState.
destruct (length ls =? 0)%nat; [auto with preserves|].
apply preserves_bind; [auto with preserves|intros _].
apply preserves_for_of. intros l. unfold registerAddress.
repeat preserves_step.
Qed.

#[local] Hint Resolve preserves_call_on_address preserves_updateAddressesState
  : preserves.

Lemma preserves_refreshEach ghre c checking ls shouldUpdate addressesToUpdate :
  preserves (refreshEach ghre c checking ls shouldUpdate addressesToUpdate).
Proof.
revert shouldUpdate addressesToUpdate.
induction ls as [|l ls IH]; intros shouldUpdate addressesToUpdate;
  cbn [refreshEach].
- auto with preserves.
- apply preserves_bind.
  + repeat preserves_step.
  + intros [s u]. apply IH.
Qed.

#[local] Hint Resolve preserves_refreshEach : preserves.

Lemma preserves_Legacy_fetchAndStoreAddressesData client n ghre ls checking :
  preserves (Legacy.fetchAndStoreAddressesData client n ghre ls checking).
Proof.
unfold Legacy.fetchAndStoreAddressesData.
destruct client; [|auto with preserves].
repeat preserves_step.
Qed.

Lemma load_nil_filter key (P : StorageKey * AddressMetadata.t -> bool) s :
  AddressMetadataStorage.load key s = [] ->
  (forall e, fst e <> key -> P e = true) ->
  List.filter P s = s.
Proof.
unfold AddressMetadataStorage.load. intros Hload HP.
induction s as [|e s IH]; cbn in *; [reflexivity|].
destruct (bool_decide (fst e = key)) eqn:He; cbn in Hload; [discriminate|].
apply bool_decide_eq_false in He. rewrite (HP e He). f_equal. now apply IH.
Qed.

Lemma store_fresh key index settings s :
  AddressMetadataStorage.load key s = [] ->
  AddressMetadataStorage.store key index settings s =
  s ++ [(key,
         AddressMetadata.mk index (AddressSettings.isMain settings)
           (AddressSettings.label settings) (AddressSettings.color settings))].
Proof.
intros Hload. unfold AddressMetadataStorage.store.
rewrite (load_nil_filter key _ s Hload); [reflexivity|].
intros e He. now rewrite bool_decide_eq_false_2.
Qed.

Lemma load_app_one key m s :
  AddressMetadataStorage.load key (s ++ [(key, m)]) =
  AddressMetadataStorage.load key s ++ [m].
Proof.
unfold AddressMetadataStorage.load.
rewrite List.filter_app, List.map_app. cbn.
now rewrite bool_decide_eq_true_2.
Qed.

(** C5, as stated, fails on the current initialisation: with an unlocked
    secret and no stored metadata, [initializeCurrentNetworkAddresses]
    returns without deriving or saving anything, and so does the whole
    effect apart from noting the secret and the hosts it has seen. *)
Lemma initialize_without_metadata_saves_nothing :
  AddressMetadataStorage.load (WalletKey "secret" "wallet") (storage emptyWorld)
  = []
  /\ initializeCurrentNetworkAddresses "wallet" (Some "secret") false emptyWorld
     = (inr tt, emptyWorld)
  /\ (let w' := snd (initializeEffect "wallet" None (Some "secret") false
                       "online" "node" "explorer" emptyWorld) in
      heap w' = [] /\ storage w' = [] /\ addressesState w' = []
      /\ forall r, PostMessage r ∉ trace w').
Proof.
split; [reflexivity|]. split; [reflexivity|].
cbn. split; [reflexivity|]. split; [reflexivity|]. split; [reflexivity|].
intros r Hin. apply list_elem_of_In in Hin.
destruct Hin as [H|[]]. discriminate.
Qed.

(** ** The polling loop *)

Section PollingClaims.

Variable client : option Client.t.
Variable network_name : NetworkName.
Variable network_status : string.
Variable getHumanReadableError : Exn -> string -> string.

Local Abbreviation pollRun' :=
  (pollRun client network_name network_status getHumanReadableError).
Local Abbreviation pollStep' :=
  (pollStep client network_name network_status getHumanReadableError).

(** The receiving addresses are found through the sending ones: with no
    sender there is nothing to refresh. *)
Lemma addressesToRefresh_nil_iff w :
  addressesToRefresh network_name w = [] <->
  addressesWithPendingSentTxs network_name w = [].
Proof.
unfold addressesToRefresh. split.
- intros H. now apply app_eq_nil in H.
- intros H. rewrite H. cbn [app].
  unfold addressesWithPendingReceivingTxs.
  induction (addressesOfCurrentNetwork network_name w) as [|l ls IH];
    [reflexivity|].
  cbn [List.filter]. unfold isReceiving at 1. rewrite H.
  destruct (heap w !! l); exact IH.
Qed.

(** A tick of an interval that closed over an empty array changes
    nothing but the interval, which it clears. *)
Lemma pollStep_idle w cleared ev :
  addressesToRefresh network_name w = [] ->
  exists cleared', pollStep' (w, mkInterval [] cleared) ev
                   = (w, mkInterval [] cleared')
                   /\ (ev = Tick -> cleared' = true).
Proof.
intros Hnil. destruct ev; cbn.
- destruct cleared; cbn; eauto.
- unfold pollingEffect. rewrite Hnil. exists false. split; [reflexivity|].
  discriminate.
Qed.

Lemma pollRun_idle evs w cleared :
  addressesToRefresh network_name w = [] ->
  exists cleared', pollRun' evs (w, mkInterval [] cleared)
                   = (w, mkInterval [] cleared').
Proof.
intros Hnil. revert cleared.
induction evs as [|ev evs IH]; intros cleared; [eauto|].
destruct (pollStep_idle w cleared ev Hnil) as (c1 & Hstep & _).
unfold pollRun', pollRun in *. cbn [fold_left].
fold pollStep'. rewrite Hstep. apply IH.
Qed.

(** C7: once the addresses to refresh (current-network addresses with a
    pending transaction of their own, or that are the destination of
    one) are none, the polling loop makes no further calls: whatever
    sequence of timer ticks and re-renders follows, the world stays as it
    is, so no client call is added to the trace, and the first tick
    clears the interval. *)
Theorem polling_stops_when_nothing_pending (w : World) (evs : list PollEvent) :
  addressesToRefresh network_name w = [] ->
  let start := (w, pollingEffect network_name w) in
  fst (pollRun' evs start) = w
  /\ clientCalls (trace (fst (pollRun' evs start))) = clientCalls (trace w)
  /\ captured (snd (pollRun' evs start)) = []
  /\ forall n, snd (pollRun' (repeat Tick (S n)) start) = mkInterval [] true.
Proof.
intros Hnil start.
assert (Hstart : start = (w, mkInterval [] false)).
{ subst start. unfold pollingEffect. now rewrite Hnil. }
rewrite Hstart.
destruct (pollRun_idle evs w false Hnil) as (c & Hrun).
rewrite Hrun. cbn [fst snd captured].
split; [reflexivity|]. split; [reflexivity|]. split; [reflexivity|].
intros n. induction n as [|n IH].
- reflexivity.
- change (repeat Tick (S (S n))) with (Tick :: repeat Tick (S n)) in *.
  rewrite repeat_cons.
  unfold pollRun', pollRun in *. rewrite fold_left_app.
  destruct (pollRun_idle (repeat Tick (S n)) w false Hnil) as (c' & Hrun').
  unfold pollRun', pollRun in Hrun'. rewrite Hrun' in *.
  cbn in IH. injection IH as ->. reflexivity.
Qed.

End PollingClaims.

(** With a pending transfer in the registry the interval does poll: a
    tick issues the two calls for the sending address. *)
Example polling_polls_while_pending :
  addressesToRefresh "mainnet" worldA = [0%nat]
  /\ clientCalls
       (trace (fst (pollRun (Some idleClient) "mainnet" "online" (fun _ s => s)
                      [Tick] (worldA, pollingEffect "mainnet" worldA))))
     = [FetchAddressDetails 0%nat; FetchAddressConfirmedTransactions 0%nat].
Proof. split; reflexivity. Qed.

(** The theorem for the world whose address has nothing pending, over a
    tick, a re-render and two more ticks. *)
Lemma polling_stops_when_nothing_pending_witness :
  addressesToRefresh "mainnet" worldSettled = []
  /\ fst (pollRun (Some idleClient) "mainnet" "online" (fun _ s => s)
            [Tick; Render; Tick; Tick]
            (worldSettled, pollingEffect "mainnet" worldSettled))
     = worldSettled.
Proof.
split; [reflexivity|].
apply (polling_stops_when_nothing_pending (Some idleClient) "mainnet" "online"
         (fun _ s => s) worldSettled [Tick; Render; Tick; Tick] eq_refl).
Defined.

(** With a client and a network that is not offline the three
    operations do issue their calls. *)
Example data_fetching_online_calls :
  clientCalls
    (trace (snd (fetchAndStoreAddressesData (Some idleClient) "mainnet" "online"
                   (fun _ s => s) [0%nat] false worldA)))
  = [FetchAddressDetails 0%nat; FetchAddressConfirmedTransactions 0%nat]
  /\ clientCalls
       (trace (snd (fetchPendingTxs (Some idleClient) "mainnet" "online"
                      (fun _ s => s)
                      (fun tx _ n =>
                         PendingTx.mk (UnconfirmedTransaction.hash tx) "" "" 0
                           transfer n None)
                      [0%nat] worldA)))
     = [GetAddressesAddressUnconfirmedTransactions "A"]
  /\ clientCalls
       (trace (snd (fetchAddressTransactionsNextPage (Some idleClient) "online"
                      0%nat worldA)))
     = [FetchAddressConfirmedTransactionsNextPage 0%nat].
Proof. repeat split. Qed.

(** * Further properties *)

(** ** The [Address] class *)

Section AddressClass.

Import Address.

Lemma string_length_append (s1 s2 : string) :
  String.length (s1 +:+ s2) = (String.length s1 + String.length s2)%nat.
Proof.
induction s1 as [|c s1 IH]; [reflexivity|].
change (String c s1 +:+ s2) with (String c (s1 +:+ s2)).
cbn [String.length]. now rewrite IH.
Qed.

Lemma substring_length_le (m : nat) (s : string) :
  (String.length (String.substring 0 m s) <= m)%nat.
Proof.
revert s. induction m as [|m IH]; intros [|c s]; cbn; try lia.
specialize (IH s). lia.
Qed.

(** X1: reconciling after [addPendingTransaction] gives the reconciled
    earlier pending list followed by the added transaction when no
    confirmed transaction carries its id, and just the reconciled earlier
    list when one does. *)
Theorem addPendingTransaction_then_update (tx : PendingTx.t) (a : Address.t) :
  pending (transactions (updatePendingTransactions (addPendingTransaction tx a)))
  = pending (transactions (updatePendingTransactions a))
    ++ (if notConfirmed (confirmed (transactions a)) tx then [tx] else []).
Proof.
rewrite !pending_updatePendingTransactions. cbn.
rewrite List.filter_app. cbn.
now destruct (notConfirmed _ tx).
Qed.

(** X2: when the balance and the known amounts are not negative,
    [updatePendingTransactions] never raises the available balance, and
    the result is not negative when a sweep or consolidation is left
    pending or the known amounts left pending do not exceed the balance. *)
Theorem updatePendingTransactions_never_raises (a : Address.t) :
  0 <= availableBalance a ->
  Forall (fun tx => forall amount, PendingTx.amount tx = Some amount -> 0 <= amount)
    (pending (transactions a)) ->
  let remaining := pending (transactions (updatePendingTransactions a)) in
  availableBalance (updatePendingTransactions a) <= availableBalance a
  /\ (is_Some (List.find isSweepOrConsolidation remaining)
      \/ sumAmounts (knownAmounts remaining) <= availableBalance a ->
      0 <= availableBalance (updatePendingTransactions a)).
Proof.
intros HB Hpos remaining.
assert (Hsum : 0 <= sumAmounts (knownAmounts remaining)).
{ assert (Hrem : Forall (fun tx => forall amount,
                           PendingTx.amount tx = Some amount -> 0 <= amount)
                   remaining).
  { subst remaining. rewrite pending_updatePendingTransactions.
    rewrite Forall_forall in Hpos |- *. intros tx Hin.
    apply Hpos. apply list_elem_of_In in Hin. apply filter_In in Hin.
    apply list_elem_of_In. tauto. }
  clear -Hrem. induction remaining as [|tx txs IH]; [cbn; lia|].
  inversion Hrem as [|? ? Htx Htxs]; subst.
  unfold knownAmounts, sumAmounts in *. cbn.
  destruct (PendingTx.amount tx) as [amount|] eqn:Ha; cbn.
  - specialize (Htx amount eq_refl). specialize (IH Htxs). lia.
  - now apply IH. }
pose proof (availableBalance_updatePendingTransactions a) as H.
fold remaining in H.
destruct (List.find isSweepOrConsolidation remaining) as [s|].
- rewrite H. split; [lia|intros _; lia].
- rewrite H. split; [lia|].
  intros [[? Hc]|Hle]; [discriminate|lia].
Qed.

(** The theorem for the address with balance 100 and a pending transfer
    of 30. *)
Lemma updatePendingTransactions_never_raises_witness :
  availableBalance (updatePendingTransactions addressA) <= 100.
Proof.
assert (HB : 0 <= availableBalance addressA) by (cbn; lia).
assert (Hpos : Forall (fun tx => forall amount,
                         PendingTx.amount tx = Some amount -> 0 <= amount)
                 (pending (transactions addressA))).
{ repeat constructor. intros amount [= <-]. lia. }
exact (proj1 (updatePendingTransactions_never_raises addressA HB Hpos)).
Defined.

(** X3: the displayed name of a constructed address is never empty: it
    is the label when there is a non-empty one, and otherwise the first
    ten characters of the hash followed by three dots. *)
Theorem getName_new (toGroup : AddressHash -> Z)
    (hash publicKey privateKey : string) (index : Z)
    (given : AddressSettings.t) :
  let a := Address.new toGroup hash publicKey privateKey index given in
  getName a <> ""
  /\ (forall l, AddressSettings.label given = Some l -> l <> "" ->
                getName a = l)
  /\ (truthy (AddressSettings.label given) = false ->
      getName a = String.substring 0 10 hash +:+ "..."
      /\ (String.length (getName a) <= 13)%nat).
Proof.
intros a.
assert (Hshort : shortHash a <> "").
{ cbn [shortHash a Address.new]. intros H.
  apply (f_equal String.length) in H.
  rewrite string_length_append in H. cbn in H. lia. }
unfold getName. cbn [Address.settings a Address.new].
split; [|split].
- destruct (AddressSettings.label given) as [l|]; [|exact Hshort].
  destruct (bool_decide (l = "")) eqn:Hl; [exact Hshort|].
  now apply bool_decide_eq_false in Hl.
- intros l -> Hl. now rewrite bool_decide_eq_false_2.
- intros Hf.
  assert (Hname : match AddressSettings.label given with
                  | Some l => if bool_decide (l = "") then shortHash a else l
                  | None => shortHash a
                  end = shortHash a).
  { destruct (AddressSettings.label given) as [l|]; [|reflexivity].
    cbn in Hf. apply negb_false_iff in Hf. now rewrite Hf. }
  rewrite Hname. cbn [shortHash a Address.new]. split; [reflexivity|].
  rewrite string_length_append. cbn [String.length].
  pose proof (substring_length_le 10 hash). lia.
Qed.

(** The theorem for an address with the label "Main" and one without
    label. *)
Lemma getName_new_witness :
  getName (Address.new (fun _ => 0) "1DrDyTr9RpRsQnDnXo2YRiPzPW4ooHX5LLoqXrqfMrpQH"
             "pub" "priv" 0 (AddressSettings.mk true (Some "Main") None))
  = "Main"
  /\ getName (Address.new (fun _ => 0)
                "1DrDyTr9RpRsQnDnXo2YRiPzPW4ooHX5LLoqXrqfMrpQH"
                "pub" "priv" 0 (AddressSettings.mk true None None))
     = "1DrDyTr9Rp...".
Proof.
split.
- apply (proj1 (proj2 (getName_new (fun _ => 0)
                         "1DrDyTr9RpRsQnDnXo2YRiPzPW4ooHX5LLoqXrqfMrpQH"
                         "pub" "priv" 0
                         (AddressSettings.mk true (Some "Main") None)))
           "Main" eq_refl).
  discriminate.
- apply (proj2 (proj2 (getName_new (fun _ => 0)
                         "1DrDyTr9RpRsQnDnXo2YRiPzPW4ooHX5LLoqXrqfMrpQH"
                         "pub" "priv" 0
                         (AddressSettings.mk true None None)))
           eq_refl).
Defined.

End AddressClass.

(** ** Properties kept by the computations of the provider *)

Section Keeps.

Context {I : World -> Prop}.

Lemma keeps_mret {A : Type} (x : A) : keeps I (mret x).
Proof. intros w Hw. exact Hw. Qed.

Lemma keeps_throw {A : Type} (e : Exn) : keeps I (@throw A e).
Proof. intros w Hw. exact Hw. Qed.

Lemma keeps_gets {A : Type} (f : World -> A) : keeps I (gets f).
Proof. intros w Hw. exact Hw. Qed.

Lemma keeps_deref l : keeps I (deref l).
Proof. intros w Hw. unfold deref. now destruct (heap w !! l). Qed.

Lemma keeps_bind {A B : Type} (m : M A) (f : A -> M B) :
  keeps I m -> (forall x, keeps I (f x)) -> keeps I (m ≫= f).
Proof.
intros Hm Hf w Hw. unfold mbind, M_bind.
specialize (Hm w Hw). destruct (m w) as [[e|x] w1]; cbn in *; [exact Hm|].
now apply Hf.
Qed.

Lemma keeps_try_catch {A : Type} (m : M A) (h : Exn -> M A) :
  keeps I m -> (forall e, keeps I (h e)) -> keeps I (try_catch m h).
Proof.
intros Hm Hh w Hw. unfold try_catch.
specialize (Hm w Hw). destruct (m w) as [[e|x] w1]; cbn in *; [|exact Hm].
now apply Hh.
Qed.

Lemma keeps_for_of {A : Type} (xs : list A) (body : A -> M unit) :
  (forall x, keeps I (body x)) -> keeps I (for_of xs body).
Proof.
intros Hbody. induction xs as [|x xs IH]; cbn [for_of].
- apply keeps_mret.
- apply keeps_bind; auto.
Qed.

Lemma keeps_map_M {A B : Type} (f : A -> M B) (xs : list A) :
  (forall x, keeps I (f x)) -> keeps I (map_M f xs).
Proof.
intros Hf. induction xs as [|x xs IH]; cbn [map_M].
- apply keeps_mret.
- apply keeps_bind; [apply Hf|intros y].
  apply keeps_bind; [exact IH|intros ys]. apply keeps_mret.
Qed.

Lemma keeps_modify (f : World -> World) :
  (forall w, I w -> I (f w)) -> keeps I (modify f).
Proof. intros Hf w Hw. now apply Hf. Qed.

Lemma keeps_emit (e : Event) :
  (forall w, I w -> I (set_trace (trace w ++ [e]) w)) -> keeps I (emit e).
Proof. intros He. now apply keeps_modify. Qed.

Lemma keeps_assign l (f : Address.t -> Address.t) :
  (forall w a, I w -> heap w !! l = Some a ->
               I (set_heap (<[l := f a]> (heap w)) w)) ->
  keeps I (assign l f).
Proof.
intros Hf w Hw. unfold assign, deref, modify, mbind, M_bind.
destruct (heap w !! l) as [a|] eqn:Ha; cbn; [|exact Hw]. now apply Hf.
Qed.

Lemma keeps_alloc (a : Address.t) :
  (forall w, I w -> I (set_heap (heap w ++ [a]) w)) -> keeps I (alloc a).
Proof. intros Ha w Hw. now apply Ha. Qed.

Lemma keeps_detached (m : M unit) :
  keeps I m ->
  (forall e w, I w -> I (set_trace (trace w ++ [UnhandledRejection e]) w)) ->
  keeps I (detached m).
Proof.
intros Hm He. unfold detached. apply keeps_try_catch; [exact Hm|].
intros e. apply keeps_emit. apply He.
Qed.

End Keeps.

(** Taking a computation apart into the primitive steps it is made of;
    [leaf] closes the obligations of the primitive steps. *)
Ltac keeps_walk leaf :=
  repeat first
    [ apply keeps_mret | apply keeps_throw | apply keeps_gets
    | apply keeps_deref
    | apply keeps_assign; [intros ? ? ? ?; leaf]
    | apply keeps_alloc; [intros ? ?; leaf]
    | apply keeps_emit; [intros ? ?; leaf]
    | apply keeps_modify; [intros ? ?; leaf]
    | apply keeps_detached; [|intros ? ? ?; leaf]
    | apply keeps_for_of; intros ?
    | apply keeps_map_M; intros ?
    | apply keeps_try_catch; [|intros ?]
    | apply keeps_bind; [|intros ?]
    | match goal with
      | |- keeps _ (match ?x with _ => _ end) => destruct x
      end
    | progress unfold call_on_address, updateAddressesState, registerAddress,
        setAddress, storeMetadata, displayDataFetchingError, addIfNew ].

(** ** Properties kept by tasks *)

(** Induction on a task: what holds of every task a pending task can
    leave when it is resumed holds of the pending task. *)
Lemma Task_induction {A : Type} (P : Task A -> Prop)
    (Hsettled : forall x, P (Settled x))
    (Hpending : forall resume,
        (forall w t w', resume w = (inr t, w') -> P t) -> P (Pending resume)) :
  forall t, P t.
Proof.
fix IH 1. intros [x|resume]; [apply Hsettled|].
apply Hpending. intros w.
destruct (resume w) as [[e|t0] w0]; intros t w' Hr.
- discriminate.
- injection Hr as <- <-. apply IH.
Qed.

Section TasksKeep.

Context {I : World -> Prop}.

Lemma keeps_async_mret {A : Type} (x : A) : keeps_async I (mret x).
Proof. intros w. cbn. auto. Qed.

Lemma keeps_async_lift {A : Type} (m : M A) :
  keeps I m -> keeps_async I (lift m).
Proof.
intros Hm w. specialize (Hm w). unfold lift. cbn.
unfold mbind, M_bind. destruct (m w) as [[e|x] w']; cbn in *; auto.
Qed.

Lemma keeps_async_await {A : Type} (response : M A) :
  keeps I response -> keeps_async I (await response).
Proof.
intros Hr w. unfold await. cbn. split; [auto|].
intros w1 Hw1. specialize (Hr w1 Hw1). unfold mbind, M_bind.
destruct (response w1) as [[e|x] w']; cbn in *; auto.
Qed.

Lemma task_keeps_bind {A B : Type} (f : A -> Async B) (t : Task A) :
  task_keeps I t -> (forall x, keeps_async I (f x)) ->
  forall w,
    (I w -> I (snd (Task_bind f t w)))
    /\ match Task_bind f t w with
       | (inr t', _) => task_keeps I t'
       | (inl _, _) => True
       end.
Proof.
intros Ht Hf. induction t as [x|resume IH] using Task_induction; intros w.
- cbn. apply Hf.
- cbn. split; [auto|]. intros w1 Hw1.
  destruct (Ht w1 Hw1) as [Hw' Ht'].
  destruct (resume w1) as [[e|t'] w'] eqn:Hr; cbn in *; [auto|].
  destruct (IH w1 t' w' Hr Ht' w') as [Hstate Htask]. auto.
Qed.

Lemma keeps_async_bind {A B : Type} (m : Async A) (f : A -> Async B) :
  keeps_async I m -> (forall x, keeps_async I (f x)) -> keeps_async I (m ≫= f).
Proof.
intros Hm Hf w. destruct (Hm w) as [Hw' Ht].
change (start (m ≫= f)) with (t ← start m; Task_bind f t).
unfold mbind, M_bind.
destruct (start m w) as [[e|t] w'] eqn:Hrun; cbn in *; [auto|].
destruct (task_keeps_bind f t Ht Hf w') as [Hstate Htask]. auto.
Qed.

Lemma task_keeps_catch {A : Type} (handler : Exn -> Async A) (t : Task A) :
  task_keeps I t -> (forall e, keeps_async I (handler e)) ->
  task_keeps I (Task_catch handler t).
Proof.
intros Ht Hh. induction t as [x|resume IH] using Task_induction.
- exact Logic.I.
- cbn. intros w Hw. destruct (Ht w Hw) as [Hw' Ht'].
  destruct (resume w) as [[e|t'] w'] eqn:Hr; cbn in *.
  + destruct (Hh e w') as [Hstate Htask]. auto.
  + split; [exact Hw'|]. now apply (IH w t' w' Hr).
Qed.

Lemma keeps_async_try_catch {A : Type} (body : Async A)
    (handler : Exn -> Async A) :
  keeps_async I body -> (forall e, keeps_async I (handler e)) ->
  keeps_async I (try_catch_async body handler).
Proof.
intros Hb Hh w. destruct (Hb w) as [Hw' Ht].
unfold try_catch_async. cbn [start].
destruct (start body w) as [[e|t] w'] eqn:Hrun; cbn in *.
- destruct (Hh e w') as [Hstate Htask]. auto.
- split; [exact Hw'|]. now apply task_keeps_catch.
Qed.

Lemma keeps_async_for_of {A : Type} (xs : list A) (body : A -> Async unit) :
  (forall x, keeps_async I (body x)) -> keeps_async I (for_of_async xs body).
Proof.
intros Hbody. induction xs as [|x xs IH]; cbn [for_of_async].
- apply keeps_async_mret.
- apply keeps_async_bind; auto.
Qed.

Hypothesis Hunhandled :
  forall e w, I w -> I (set_trace (trace w ++ [UnhandledRejection e]) w).

Lemma keeps_unawaited (m : Async unit) :
  keeps_async I m ->
  forall w,
    (I w -> I (snd (unawaited m w)))
    /\ match unawaited m w with
       | (inr t, _) => task_keeps I t
       | (inl _, _) => True
       end.
Proof.
intros Hm w. destruct (Hm w) as [Hw' Ht].
unfold unawaited, try_catch.
destruct (start m w) as [[e|t] w'] eqn:Hrun; cbn in *; [|auto].
split; [|exact Logic.I]. intros Hw. now apply Hunhandled, Hw'.
Qed.

Lemma keeps_resume (t : Task unit) :
  task_keeps I t ->
  forall w, I w ->
    exists t' w', resume t w = (inr t', w') /\ I w' /\ task_keeps I t'.
Proof.
intros Ht w Hw. destruct t as [x|r]; cbn.
- exists (Settled x), w. auto.
- destruct (Ht w Hw) as [Hw' Ht']. unfold try_catch.
  destruct (r w) as [[e|t'] w'] eqn:Hr; cbn in *.
  + eexists _, _. split; [reflexivity|]. split; [now apply Hunhandled|].
    exact Logic.I.
  + exists t', w'. auto.
Qed.

Lemma keeps_eventLoop (schedule : list nat) (tasks : list (Task unit)) :
  Forall (task_keeps I) tasks ->
  forall w, I w -> I (snd (eventLoop schedule tasks w)).
Proof.
revert tasks. induction schedule as [|i rest IH]; intros tasks Hts w Hw;
  cbn [eventLoop]; [exact Hw|].
destruct (tasks !! i) as [t|] eqn:Hi; [|now apply IH].
assert (Ht : task_keeps I t).
{ rewrite Forall_forall in Hts. apply Hts. apply list_elem_of_lookup. eauto. }
destruct (keeps_resume t Ht w Hw) as (t' & w' & Hrun & Hw' & Ht').
rewrite (bind_returns _ _ _ _ _ Hrun). apply IH; [|exact Hw'].
apply Forall_insert; assumption.
Qed.

Lemma spawns_throw (e : Exn) : spawns I (throw e).
Proof. intros w. split; [auto|constructor]. Qed.

Lemma spawns_bind {A : Type} (m : M A) (f : A -> M (list (Task unit))) :
  keeps I m -> (forall x, spawns I (f x)) -> spawns I (m ≫= f).
Proof.
intros Hm Hf w. specialize (Hm w). unfold mbind, M_bind, started.
destruct (m w) as [[e|x] w'] eqn:Hrun; cbn in *.
- split; [exact Hm|constructor].
- destruct (Hf x w') as [Hstate Htasks]. split; [auto|exact Htasks].
Qed.

(** Two calls that are not awaited, one after the other. *)
Lemma spawns_two (first second : Async unit) :
  keeps_async I first -> keeps_async I second ->
  spawns I (fetching ← unawaited first;
            checking ← unawaited second;
            mret [fetching; checking]).
Proof.
intros H1 H2 w.
destruct (keeps_unawaited first H1 w) as [Hw1 Ht1].
destruct (unawaited_returns first w) as (t1 & w1 & Hrun1).
rewrite Hrun1 in Hw1, Ht1. cbn in Hw1.
rewrite (bind_returns _ _ _ _ _ Hrun1).
destruct (keeps_unawaited second H2 w1) as [Hw2 Ht2].
destruct (unawaited_returns second w1) as (t2 & w2 & Hrun2).
rewrite Hrun2 in Hw2, Ht2. cbn in Hw2.
rewrite (bind_returns _ _ _ _ _ Hrun2).
split; [auto|]. repeat constructor; assumption.
Qed.

(** What holds when a computation returns, and is kept by the tasks it
    leaves, holds through every schedule of the event loop. *)
Lemma spawns_eventLoop (m : M (list (Task unit))) (schedule : list nat) :
  spawns I m -> forall w, I (snd (m w)) -> I (afterwards schedule (m w)).
Proof.
intros Hm w Hw'. destruct (Hm w) as [_ Hts].
unfold afterwards. now apply keeps_eventLoop.
Qed.

Lemma spawns_afterwards (m : M (list (Task unit))) (schedule : list nat) :
  spawns I m -> forall w, I w -> I (afterwards schedule (m w)).
Proof.
intros Hm w Hw. apply spawns_eventLoop; [exact Hm|]. now apply (Hm w).
Qed.

End TasksKeep.

(** The event loop never throws: a rejection is left unhandled. *)
Lemma eventLoop_returns (schedule : list nat) (tasks : list (Task unit)) w :
  exists tasks', fst (eventLoop schedule tasks w) = inr tasks'.
Proof.
revert tasks w. induction schedule as [|i rest IH]; intros tasks w;
  cbn [eventLoop]; [eexists; reflexivity|].
destruct (tasks !! i) as [t|]; [|apply IH].
assert (Hres : exists t' w', resume t w = (inr t', w')).
{ destruct t as [x|r]; cbn; [eauto|]. unfold try_catch.
  destruct (r w) as [[e|t'] w']; cbn; eauto. }
destruct Hres as (t' & w' & Hrun).
rewrite (bind_returns _ _ _ _ _ Hrun). apply IH.
Qed.

(** Taking an [async] function apart into its steps; [leaf] closes the
    obligations of the primitive steps. *)
Ltac keeps_async_walk leaf :=
  repeat first
    [ apply keeps_async_mret
    | apply keeps_async_lift; keeps_walk leaf
    | apply keeps_async_await; keeps_walk leaf
    | apply keeps_async_for_of; intros ?
    | apply keeps_async_try_catch; [|intros ?]
    | apply keeps_async_bind; [|intros ?]
    | match goal with
      | |- keeps_async _ (match ?x with _ => _ end) => destruct x
      end
    | progress unfold call_on_address_async ].

Ltac robust_leaf HI :=
  cbv beta;
  first [ assumption
        | apply (robust_trace _ HI); assumption
        | apply (robust_loading _ HI); assumption
        | eapply (robust_heap _ HI); eassumption
        | apply (robust_registry _ HI); assumption ].

(** ** What the fetches keep, awaited or not *)

Section RobustFetches.

Variable client : option Client.t.
Variable network_name : NetworkName.
Variable network_status : string.
Variable getHumanReadableError : Exn -> string -> string.
Variable convertUnconfirmedTxToPendingTx :
  UnconfirmedTransaction.t -> AddressHash -> NetworkName -> PendingTx.t.

Variable I : World -> Prop.
Hypothesis HI : robust I.

Lemma robust_refreshEach_async c checking ls shouldUpdate addressesToUpdate :
  keeps_async I (refreshEach_async getHumanReadableError c checking ls
                   shouldUpdate addressesToUpdate).
Proof.
revert shouldUpdate addressesToUpdate.
induction ls as [|l ls IH]; intros shouldUpdate addressesToUpdate;
  cbn [refreshEach_async].
- apply keeps_async_mret.
- apply keeps_async_bind; [|intros [s u]; apply IH].
  keeps_async_walk ltac:(robust_leaf HI).
Qed.

Lemma robust_fetchAndStoreAddressesData_async ls checking :
  keeps_async I (fetchAndStoreAddressesData_async client network_name
                   network_status getHumanReadableError ls checking).
Proof.
unfold fetchAndStoreAddressesData_async.
destruct (unavailable client network_status);
  [keeps_async_walk ltac:(robust_leaf HI)|].
destruct client as [c|]; [|apply keeps_async_mret].
apply keeps_async_bind; [keeps_async_walk ltac:(robust_leaf HI)|intros _].
apply keeps_async_bind; [keeps_async_walk ltac:(robust_leaf HI)|intros current].
apply keeps_async_bind; [apply robust_refreshEach_async|intros [s u]].
keeps_async_walk ltac:(robust_leaf HI).
Qed.

Lemma robust_fetchPendingTxs_async ls :
  keeps_async I (fetchPendingTxs_async client network_name network_status
                   getHumanReadableError convertUnconfirmedTxToPendingTx ls).
Proof.
unfold fetchPendingTxs_async. keeps_async_walk ltac:(robust_leaf HI).
Qed.

(** The two fetches [saveNewAddress] starts for [address], and the
    event loop after them. *)
Lemma robust_fetches_unawaited address :
  spawns I
    (fetching ← unawaited
       (fetchAndStoreAddressesData_async client network_name network_status
          getHumanReadableError [address] false);
     checking ← unawaited
       (fetchPendingTxs_async client network_name network_status
          getHumanReadableError convertUnconfirmedTxToPendingTx [address]);
     mret [fetching; checking]).
Proof.
apply spawns_two.
- intros e w Hw. now apply (robust_trace _ HI).
- apply robust_fetchAndStoreAddressesData_async.
- apply robust_fetchPendingTxs_async.
Qed.

End RobustFetches.

Lemma robust_bound k : robust (bound k).
Proof.
split; unfold bound; cbn; intros; try assumption.
destruct (decide (k0 = k)) as [->|Hne].
- rewrite JsMap_get_set_eq. eauto.
- now rewrite JsMap_get_set_ne.
Qed.

Lemma robust_store_and_size (stored : AddressMetadataStorage.t) (N : nat) :
  robust (fun w => storage w = stored /\ length (heap w) = N).
Proof.
split; cbn; intros; try assumption.
now rewrite length_insert.
Qed.

Lemma detailsCalls_app tr1 tr2 :
  detailsCalls (tr1 ++ tr2) = detailsCalls tr1 ++ detailsCalls tr2.
Proof. apply omap_app. Qed.

Lemma robust_requested l : robust (fun w => l ∈ detailsCalls (trace w)).
Proof.
split; cbn; intros; try assumption.
rewrite detailsCalls_app. apply elem_of_app. now left.
Qed.

(** ** The fetches when they are awaited

    Awaiting the functions with their [await]s marked, while nothing
    else runs, is running them as they are given for the callers that
    await them. *)

Section Awaited.

Lemma awaited_mret {A : Type} (x : A) w : awaited (mret x) w = (inr x, w).
Proof. reflexivity. Qed.

Lemma awaited_lift {A : Type} (m : M A) w : awaited (lift m) w = m w.
Proof.
unfold awaited, lift. cbn. unfold mbind, M_bind.
destruct (m w) as [[e|x] w']; reflexivity.
Qed.

Lemma awaited_await {A : Type} (response : M A) w :
  awaited (await response) w = response w.
Proof.
unfold awaited, await. cbn. unfold mbind, M_bind. cbn.
destruct (response w) as [[e|x] w']; reflexivity.
Qed.

Lemma await_task_bind {A B : Type} (f : A -> Async B) (t : Task A) w :
  (t' ← Task_bind f t; await_task t') w
  = (x ← await_task t; awaited (f x)) w.
Proof.
revert w. induction t as [x|resume IH] using Task_induction; intros w.
- reflexivity.
- cbn. unfold mbind, M_bind, mret, M_ret. cbn.
  destruct (resume w) as [[e|t0] w0] eqn:Hr; [reflexivity|].
  specialize (IH w t0 w0 Hr w0). unfold mbind, M_bind in IH. exact IH.
Qed.

Lemma awaited_bind {A B : Type} (m : Async A) (f : A -> Async B) w :
  awaited (m ≫= f) w = (awaited m ≫= fun x => awaited (f x)) w.
Proof.
unfold awaited.
change (start (m ≫= f)) with (t ← start m; Task_bind f t).
pose proof (fun t w1 => await_task_bind f t w1) as Hbind.
unfold awaited in Hbind. unfold mbind, M_bind in *.
destruct (start m w) as [[e|t] w1]; [reflexivity|].
apply Hbind.
Qed.

Lemma await_task_catch {A : Type} (handler : Exn -> Async A) (t : Task A) w :
  await_task (Task_catch handler t) w
  = try_catch (await_task t) (fun e => awaited (handler e)) w.
Proof.
revert w. induction t as [x|resume IH] using Task_induction; intros w.
- reflexivity.
- cbn. unfold try_catch. cbn.
  destruct (resume w) as [[e|t0] w0] eqn:Hr; [reflexivity|].
  rewrite (IH w t0 w0 Hr w0). reflexivity.
Qed.

Lemma awaited_try_catch {A : Type} (body : Async A) (handler : Exn -> Async A)
    w :
  awaited (try_catch_async body handler) w
  = try_catch (awaited body) (fun e => awaited (handler e)) w.
Proof.
pose proof (fun t w1 => await_task_catch handler t w1) as Hcatch.
unfold awaited, try_catch_async in *. cbn [start].
unfold try_catch, mbind, M_bind in *.
destruct (start body w) as [[e|t] w1]; [reflexivity|].
apply Hcatch.
Qed.

Lemma bind_ext {A B : Type} (m m' : M A) (f f' : A -> M B) w :
  (forall w0, m w0 = m' w0) -> (forall x w0, f x w0 = f' x w0) ->
  (m ≫= f) w = (m' ≫= f') w.
Proof.
intros Hm Hf. unfold mbind, M_bind. rewrite Hm.
destruct (m' w) as [[e|x] w1]; [reflexivity|apply Hf].
Qed.

Lemma try_catch_ext {A : Type} (m m' : M A) (h h' : Exn -> M A) w :
  (forall w0, m w0 = m' w0) -> (forall e w0, h e w0 = h' e w0) ->
  try_catch m h w = try_catch m' h' w.
Proof.
intros Hm Hh. unfold try_catch. rewrite Hm.
destruct (m' w) as [[e|x] w1]; [apply Hh|reflexivity].
Qed.

Lemma awaited_for_of {A : Type} (xs : list A) (body : A -> Async unit)
    (body' : A -> M unit) w :
  (forall x w0, awaited (body x) w0 = body' x w0) ->
  awaited (for_of_async xs body) w = for_of xs body' w.
Proof.
intros Hbody. revert w. induction xs as [|x xs IH]; intros w;
  cbn [for_of_async for_of]; [reflexivity|].
rewrite awaited_bind. apply bind_ext; [apply Hbody|intros _; apply IH].
Qed.

Lemma awaited_call_on_address call method address w :
  awaited (call_on_address_async call method address) w
  = call_on_address call method address w.
Proof.
unfold call_on_address_async, call_on_address.
rewrite awaited_bind. apply bind_ext; [apply awaited_lift|intros _ w0].
apply awaited_await.
Qed.

Variable client : option Client.t.
Variable network_name : NetworkName.
Variable network_status : string.
Variable getHumanReadableError : Exn -> string -> string.
Variable convertUnconfirmedTxToPendingTx :
  UnconfirmedTransaction.t -> AddressHash -> NetworkName -> PendingTx.t.

Lemma awaited_refreshEach c checking ls shouldUpdate addressesToUpdate w :
  awaited (refreshEach_async getHumanReadableError c checking ls shouldUpdate
             addressesToUpdate) w
  = refreshEach getHumanReadableError c checking ls shouldUpdate
      addressesToUpdate w.
Proof.
revert shouldUpdate addressesToUpdate w.
induction ls as [|l ls IH]; intros shouldUpdate addressesToUpdate w;
  cbn [refreshEach_async refreshEach]; [reflexivity|].
rewrite awaited_bind. apply bind_ext; [|intros [s u] w0; apply IH].
intros w0. rewrite awaited_try_catch. apply try_catch_ext.
- intros w1. rewrite awaited_bind.
  apply bind_ext; [apply awaited_call_on_address|intros _ w2].
  rewrite awaited_bind.
  apply bind_ext; [apply awaited_call_on_address|intros _ w3].
  apply awaited_lift.
- intros e w1. apply awaited_lift.
Qed.

Lemma awaited_fetchAndStoreAddressesData ls checking w :
  awaited (fetchAndStoreAddressesData_async client network_name network_status
             getHumanReadableError ls checking) w
  = fetchAndStoreAddressesData client network_name network_status
      getHumanReadableError ls checking w.
Proof.
unfold fetchAndStoreAddressesData_async, fetchAndStoreAddressesData.
destruct (unavailable client network_status); [apply awaited_lift|].
destruct client as [c|]; [|reflexivity].
rewrite awaited_bind. apply bind_ext; [apply awaited_lift|intros _ w0].
rewrite awaited_bind. apply bind_ext; [apply awaited_lift|intros current w1].
rewrite awaited_bind.
apply bind_ext; [apply awaited_refreshEach|intros [s u] w2].
apply awaited_lift.
Qed.

Lemma awaited_fetchPendingTxs ls w :
  awaited (fetchPendingTxs_async client network_name network_status
             getHumanReadableError convertUnconfirmedTxToPendingTx ls) w
  = fetchPendingTxs client network_name network_status
      getHumanReadableError convertUnconfirmedTxToPendingTx ls w.
Proof.
unfold fetchPendingTxs_async, fetchPendingTxs.
destruct client as [c|]; [|apply awaited_lift].
destruct (bool_decide (network_status = "offline")); [apply awaited_lift|].
rewrite awaited_bind. apply bind_ext; [apply awaited_lift|intros _ w0].
rewrite awaited_bind. apply bind_ext; [apply awaited_lift|intros current w1].
rewrite awaited_bind. apply bind_ext; [|intros _ w2; apply awaited_lift].
intros w2. apply awaited_for_of. intros address w3.
rewrite awaited_bind. apply bind_ext; [apply awaited_lift|intros a w4].
rewrite awaited_try_catch. apply try_catch_ext; [|intros e w5; apply awaited_lift].
intros w5. rewrite awaited_bind.
apply bind_ext; [apply awaited_lift|intros _ w6].
rewrite awaited_bind.
assert (Hresp : forall w7,
          awaited
            (await
               (match Client.getAddressesAddressUnconfirmedTransactions c
                        (Address.hash a) with
                | inr txs => mret txs
                | inl e => throw e
                end)) w7
          = (match Client.getAddressesAddressUnconfirmedTransactions c
                     (Address.hash a) with
             | inr txs => mret txs
             | inl e => throw e
             end) w7)
  by (intros w7; apply awaited_await).
unfold mbind at 1, M_bind at 1. rewrite Hresp.
destruct (Client.getAddressesAddressUnconfirmedTransactions c (Address.hash a))
  as [e|txs]; cbn; [reflexivity|].
apply awaited_lift.
Qed.

End Awaited.

(** ** The registry only grows *)

Section RegistryGrows.

Variable activeWalletName : string.
Variable client : option Client.t.
Variable mnemonic : option string.
Variable isPassphraseUsed : bool.
Variable network_name : NetworkName.
Variable network_status : string.
Variable getHumanReadableError : Exn -> string -> string.
Variable convertUnconfirmedTxToPendingTx :
  UnconfirmedTransaction.t -> AddressHash -> NetworkName -> PendingTx.t.

Variable k : string.

Local Abbreviation boundK := (bound k).

Lemma JsMap_set_bound k' v m :
  is_Some (JsMap.get k m) -> is_Some (JsMap.get k (JsMap.set k' v m)).
Proof.
intros H. destruct (decide (k' = k)) as [->|Hne].
- rewrite JsMap_get_set_eq. eauto.
- now rewrite JsMap_get_set_ne.
Qed.

Ltac bound_leaf :=
  unfold bound in *; cbn in *;
  first [ assumption | apply JsMap_set_bound; assumption ].

Lemma bound_refreshEach c checking ls shouldUpdate addressesToUpdate :
  keeps boundK (refreshEach getHumanReadableError c checking ls shouldUpdate
                 addressesToUpdate).
Proof.
revert shouldUpdate addressesToUpdate.
induction ls as [|l ls IH]; intros shouldUpdate addressesToUpdate;
  cbn [refreshEach].
- apply keeps_mret.
- apply keeps_bind; [|intros [s u]; apply IH].
  keeps_walk bound_leaf.
Qed.

Lemma bound_fetchAndStoreAddressesData ls checking :
  keeps boundK (fetchAndStoreAddressesData client network_name network_status
                 getHumanReadableError ls checking).
Proof.
unfold fetchAndStoreAddressesData.
destruct (unavailable client network_status); [keeps_walk bound_leaf|].
destruct client as [c|]; [|apply keeps_mret].
apply keeps_bind; [keeps_walk bound_leaf|intros _].
apply keeps_bind; [keeps_walk bound_leaf|intros current].
apply keeps_bind; [apply bound_refreshEach|intros [s u]].
keeps_walk bound_leaf.
Qed.

Lemma bound_fetchPendingTxs ls :
  keeps boundK (fetchPendingTxs client network_name network_status
                 getHumanReadableError convertUnconfirmedTxToPendingTx ls).
Proof. unfold fetchPendingTxs. keeps_walk bound_leaf. Qed.

Lemma bound_fetchAddressTransactionsNextPage l :
  keeps boundK (fetchAddressTransactionsNextPage client network_status l).
Proof. unfold fetchAddressTransactionsNextPage. keeps_walk bound_leaf. Qed.

Lemma bound_saveNewAddress l argument :
  spawns boundK (saveNewAddress activeWalletName client isPassphraseUsed
                  network_name network_status getHumanReadableError
                  convertUnconfirmedTxToPendingTx l argument).
Proof.
unfold saveNewAddress.
destruct (js_or argument argument) as [m|]; [|apply spawns_throw].
destruct (bool_decide (m = "")); [apply spawns_throw|].
apply spawns_bind; [keeps_walk bound_leaf|intros _].
apply spawns_bind; [keeps_walk bound_leaf|intros _].
apply robust_fetches_unawaited. apply robust_bound.
Qed.

Lemma bound_updateAddressSettings l given :
  keeps boundK (updateAddressSettings activeWalletName mnemonic isPassphraseUsed
                 network_name l given).
Proof. unfold updateAddressSettings. keeps_walk bound_leaf. Qed.

(** X6: none of the registry operations and data-fetching operations
    removes a key from the registry: a key that is bound stays bound
    through [updateAddressesState], [updateAddressSettings],
    [saveNewAddress], [fetchAndStoreAddressesData], [fetchPendingTxs]
    and [fetchAddressTransactionsNextPage], also when they throw; and it
    stays bound while the two fetches that [saveNewAddress] started are
    resumed, in whatever order. *)
Theorem registry_keys_stay_bound (w : World) (addresses : list loc)
    (address : loc) (checking : bool) (argument : option string)
    (given : AddressSettings.t) :
  is_Some (JsMap.get k (addressesState w)) ->
  let stays (w' : World) := is_Some (JsMap.get k (addressesState w')) in
  stays (snd (updateAddressesState network_name addresses w))
  /\ stays (snd (updateAddressSettings activeWalletName mnemonic
                   isPassphraseUsed network_name address given w))
  /\ stays (snd (saveNewAddress activeWalletName client isPassphraseUsed
                   network_name network_status getHumanReadableError
                   convertUnconfirmedTxToPendingTx address argument w))
  /\ stays (snd (fetchAndStoreAddressesData client network_name network_status
                   getHumanReadableError addresses checking w))
  /\ stays (snd (fetchPendingTxs client network_name network_status
                   getHumanReadableError convertUnconfirmedTxToPendingTx
                   addresses w))
  /\ stays (snd (fetchAddressTransactionsNextPage client network_status
                   address w))
  /\ (forall schedule,
        stays (afterwards schedule
                 (saveNewAddress activeWalletName client isPassphraseUsed
                    network_name network_status getHumanReadableError
                    convertUnconfirmedTxToPendingTx address argument w))).
Proof.
intros Hw stays. subst stays. cbv beta.
split; [|split; [|split; [|split; [|split; [|split]]]]].
- revert w Hw. change (keeps boundK (updateAddressesState network_name addresses)).
  keeps_walk bound_leaf.
- now apply bound_updateAddressSettings.
- now apply bound_saveNewAddress.
- now apply bound_fetchAndStoreAddressesData.
- now apply bound_fetchPendingTxs.
- now apply bound_fetchAddressTransactionsNextPage.
- intros schedule.
  apply (spawns_afterwards (I := boundK)); [|apply bound_saveNewAddress|exact Hw].
  intros e w0 Hw0. exact Hw0.
Qed.

End RegistryGrows.

(** The theorem for the registered address of [worldA] through a data
    refresh. *)
Lemma registry_keys_stay_bound_witness :
  is_Some (JsMap.get "A-mainnet"
             (addressesState
                (snd (fetchAndStoreAddressesData (Some idleClient) "mainnet"
                        "online" (fun _ s => s) [] false worldA)))).
Proof.
assert (H : is_Some (JsMap.get "A-mainnet" (addressesState worldA)))
  by (exists 0%nat; reflexivity).
exact (proj1 (proj2 (proj2 (proj2
         (registry_keys_stay_bound "wallet" (Some idleClient) None false
            "mainnet" "online" (fun _ s => s)
            (fun tx _ n =>
               PendingTx.mk (UnconfirmedTransaction.hash tx) "" "" 0
                 transfer n None)
            "A-mainnet" worldA [] 0%nat false None
            (AddressSettings.mk true None None) H))))).
Defined.

(** ** Settings and listing of registered addresses *)

Lemma setAddress_run n l w :
  is_Some (heap w !! l) ->
  setAddress n l w =
  (inr tt, registerOne n (set_trace (trace w ++ [SetAddressesState]) w) l).
Proof.
intros Hl. unfold setAddress.
rewrite updateAddressesState_run; [reflexivity|discriminate|].
now repeat constructor.
Qed.

Lemma JsMap_get_values k m l : JsMap.get k m = Some l -> l ∈ JsMap.values m.
Proof.
induction m as [|[k' v] m IH]; cbn; [discriminate|].
destruct (bool_decide (k' = k)).
- intros [= ->]. left.
- intros H. right. now apply IH.
Qed.

Section Settings.

Variable activeWalletName : string.
Variable mnemonic : option string.
Variable isPassphraseUsed : bool.
Variable network_name : NetworkName.

Local Abbreviation updateAddressSettings' :=
  (updateAddressSettings activeWalletName mnemonic isPassphraseUsed network_name).

(** X4: [updateAddressSettings] throws exactly when no wallet secret is
    unlocked (the mnemonic of the store is absent or empty), and then
    changes nothing. Otherwise it replaces the settings of the address,
    registers it under the current network, and writes the settings to
    the metadata store under the unlocked secret and the address index,
    unless the wallet is passphrase-derived, in which case the store is
    left as it was. *)
Theorem updateAddressSettings_effect (address : loc) (a : Address.t)
    (given : AddressSettings.t) (w : World) :
  heap w !! address = Some a ->
  let w' := snd (updateAddressSettings' address given w) in
  (truthy mnemonic = false ->
   updateAddressSettings' address given w =
   (inl (Error "Could not update address settings, mnemonic not found"), w))
  /\ (forall secret, mnemonic = Some secret -> secret <> "" ->
      fst (updateAddressSettings' address given w) = inr tt
      /\ heap w' !! address
         = Some (Address.set_network (Some network_name)
                   (Address.set_settings given a))
      /\ (forall l, l <> address -> heap w' !! l = heap w !! l)
      /\ getAddress network_name (Address.hash a) w' = Some address
      /\ storage w'
         = (if isPassphraseUsed then storage w
            else AddressMetadataStorage.store
                   (WalletKey secret activeWalletName) (Address.index a) given
                   (storage w))).
Proof.
intros Ha w'. split.
- intros Hf. unfold updateAddressSettings.
  destruct mnemonic as [m|]; [|reflexivity].
  cbn in Hf. apply negb_false_iff in Hf. now rewrite Hf.
- intros secret Hm Hne. subst w'. unfold updateAddressSettings.
  rewrite Hm. rewrite bool_decide_eq_false_2 by assumption.
  set (store := if negb isPassphraseUsed then _ else _).
  set (s1 := if isPassphraseUsed then storage w
             else AddressMetadataStorage.store
                    (WalletKey secret activeWalletName) (Address.index a) given
                    (storage w)).
  assert (Hstore : store w = (inr tt, set_storage s1 w)).
  { subst store s1. destruct isPassphraseUsed; cbn.
    - now destruct w.
    - unfold storeMetadata, deref, modify, mbind, M_bind. now rewrite Ha. }
  rewrite (bind_returns _ _ _ _ _ Hstore).
  assert (Hassign : assign address (Address.set_settings given) (set_storage s1 w)
                    = (inr tt,
                       set_heap (<[address := Address.set_settings given a]>
                                   (heap w)) (set_storage s1 w))).
  { unfold assign, deref, modify, mbind, M_bind. cbn. now rewrite Ha. }
  rewrite (bind_returns _ _ _ _ _ Hassign).
  assert (Hlt : (address < length (heap w))%nat)
    by (now apply lookup_lt_Some in Ha).
  rewrite setAddress_run
    by (cbn; rewrite list_lookup_insert_eq by exact Hlt; eauto).
  unfold registerOne. cbn.
  rewrite list_lookup_insert_eq by exact Hlt. cbn.
  split; [reflexivity|]. split.
  { rewrite list_lookup_insert_eq; [reflexivity|].
    now rewrite length_insert. }
  split.
  { intros l Hl. now rewrite !list_lookup_insert_ne by congruence. }
  split; [apply JsMap_get_set_eq|reflexivity].
Qed.

End Settings.

(** The theorem for the address of [worldA] under the unlocked secret
    "secret", with and without passphrase. *)
Lemma updateAddressSettings_effect_witness :
  let given := AddressSettings.mk false (Some "Savings") (Some "#fff") in
  storage (snd (updateAddressSettings "wallet" (Some "secret") false "mainnet"
                  0%nat given worldA))
  = [(WalletKey "secret" "wallet",
      AddressMetadata.mk 0 false (Some "Savings") (Some "#fff"))]
  /\ storage (snd (updateAddressSettings "wallet" (Some "secret") true "mainnet"
                     0%nat given worldA))
     = [].
Proof.
intros given.
assert (Ha : heap worldA !! 0%nat = Some addressA) by reflexivity.
assert (Hne : "secret" <> "") by discriminate.
split.
- destruct (proj2 (updateAddressSettings_effect "wallet" (Some "secret") false
                     "mainnet" 0%nat addressA given worldA Ha)
              "secret" eq_refl Hne) as (_ & _ & _ & _ & Hs).
  exact Hs.
- destruct (proj2 (updateAddressSettings_effect "wallet" (Some "secret") true
                     "mainnet" 0%nat addressA given worldA Ha)
              "secret" eq_refl Hne) as (_ & _ & _ & _ & Hs).
  exact Hs.
Defined.

(** X5: after [updateAddressesState] under the network [n], none of the
    given addresses is listed among the addresses of any other network
    (whatever keys still lead to it), and every given address that a
    lookup under [n] returns is listed among the addresses of [n]. The
    address given to [setAddress] is such an address. *)
Theorem updateAddressesState_listing (n : NetworkName) (newAddresses : list loc)
    (w : World) :
  Forall (fun l => is_Some (heap w !! l)) newAddresses ->
  let w' := snd (updateAddressesState n newAddresses w) in
  (forall l n', l ∈ newAddresses -> n' <> n ->
                l ∉ addressesOfCurrentNetwork n' w')
  /\ (forall l h, l ∈ newAddresses -> getAddress n h w' = Some l ->
                  l ∈ addressesOfCurrentNetwork n w')
  /\ (forall l, newAddresses = [l] -> l ∈ addressesOfCurrentNetwork n w').
Proof.
intros Hall w'.
destruct (updateAddressesState_effect n newAddresses w Hall)
  as (_ & _ & Hgiven & Hstamp & _).
fold w' in Hgiven, Hstamp.
assert (Hnet : forall l, l ∈ newAddresses ->
          exists a, heap w' !! l = Some a /\ Address.network a = Some n).
{ intros l Hin. rewrite (Hstamp l Hin).
  rewrite Forall_forall in Hall. destruct (Hall l Hin) as [a Ha].
  rewrite Ha. cbn. eauto. }
assert (Hlisted : forall l h, l ∈ newAddresses -> getAddress n h w' = Some l ->
                    l ∈ addressesOfCurrentNetwork n w').
{ intros l h Hin Hget. unfold addressesOfCurrentNetwork.
  apply list_elem_of_In, filter_In. split.
  - apply list_elem_of_In. eapply JsMap_get_values. exact Hget.
  - unfold isOfNetwork. destruct (Hnet l Hin) as (a & -> & ->).
    now apply bool_decide_eq_true. }
split; [|split; [exact Hlisted|]].
- intros l n' Hin Hne Hl. unfold addressesOfCurrentNetwork in Hl.
  apply list_elem_of_In, filter_In in Hl. destruct Hl as [_ Hl].
  unfold isOfNetwork in Hl. destruct (Hnet l Hin) as (a & Ha & Hn).
  rewrite Ha, Hn in Hl. apply bool_decide_eq_true in Hl. congruence.
- intros l ->. assert (Hin : l ∈ [l]) by left.
  rewrite Forall_forall in Hall. destruct (Hall l Hin) as [a Ha].
  destruct (Hgiven l a Hin Ha) as (l' & a' & Hin' & _ & _ & Hget).
  apply list_elem_of_singleton in Hin'. subst l'.
  now apply (Hlisted l (Address.hash a)).
Qed.

(** The theorem for the object of [worldA] registered again under
    "testnet": it is listed under "testnet" and no longer under
    "mainnet", although the key "A-mainnet" still leads to it. *)
Lemma updateAddressesState_listing_witness :
  let w' := snd (updateAddressesState "testnet" [0%nat] worldA) in
  0%nat ∈ addressesOfCurrentNetwork "testnet" w'
  /\ (0%nat ∉ addressesOfCurrentNetwork "mainnet" w')
  /\ getAddress "mainnet" "A" w' = Some 0%nat.
Proof.
intros w'.
assert (Hall : Forall (fun l => is_Some (heap worldA !! l)) [0%nat]).
{ repeat constructor. exists addressA. reflexivity. }
destruct (updateAddressesState_listing "testnet" [0%nat] worldA Hall)
  as (Hother & _ & Hone).
split; [now apply Hone|]. split; [|reflexivity].
apply Hother; [left|discriminate].
Defined.

(** ** What data fetching leaves alone, and how it ends *)

Section ReturnsIn.

Context {V : World -> Prop}.

Lemma returnsIn_mret {A : Type} (x : A) : returnsIn V (mret x).
Proof. intros w Hw. exists x, w. split; [reflexivity|exact Hw]. Qed.

Lemma returnsIn_gets {A : Type} (f : World -> A) : returnsIn V (gets f).
Proof. intros w Hw. exists (f w), w. split; [reflexivity|exact Hw]. Qed.

Lemma returnsIn_bind {A B : Type} (m : M A) (f : A -> M B) :
  returnsIn V m -> (forall x, returnsIn V (f x)) -> returnsIn V (m ≫= f).
Proof.
intros Hm Hf w Hw. destruct (Hm w Hw) as (x & w1 & Hrun & Hw1).
rewrite (bind_returns _ _ _ _ _ Hrun). now apply Hf.
Qed.

Lemma returnsIn_try_catch {A : Type} (m : M A) (h : Exn -> M A) :
  keeps V m -> (forall e, returnsIn V (h e)) -> returnsIn V (try_catch m h).
Proof.
intros Hm Hh w Hw. unfold try_catch. specialize (Hm w Hw).
destruct (m w) as [[e|x] w1]; cbn in Hm.
- now apply Hh.
- exists x, w1. split; [reflexivity|exact Hm].
Qed.

Lemma returnsIn_for_of {A : Type} (xs : list A) (body : A -> M unit) :
  (forall x, x ∈ xs -> returnsIn V (body x)) -> returnsIn V (for_of xs body).
Proof.
induction xs as [|x xs IH]; intros Hbody; cbn [for_of].
- apply returnsIn_mret.
- apply returnsIn_bind; [apply Hbody; left|intros _].
  apply IH. intros y Hy. apply Hbody. now right.
Qed.

Lemma returnsIn_modify (f : World -> World) :
  (forall w, V w -> V (f w)) -> returnsIn V (modify f).
Proof. intros Hf w Hw. exists tt, (f w). split; [reflexivity|now apply Hf]. Qed.

Lemma returnsIn_detached (m : M unit) :
  keeps V m ->
  (forall e w, V w -> V (set_trace (trace w ++ [UnhandledRejection e]) w)) ->
  returnsIn V (detached m).
Proof.
intros Hm He. unfold detached. apply returnsIn_try_catch; [exact Hm|].
intros e. apply returnsIn_modify. apply He.
Qed.

End ReturnsIn.

Section HeapSize.

Variable N : nat.

Local Abbreviation sized := (heapSize N).

Ltac sized_leaf :=
  unfold heapSize in *; cbn in *; rewrite ?length_insert; assumption.

Lemma sized_deref l : (l < N)%nat -> returnsIn sized (deref l).
Proof.
intros Hl w Hw. unfold deref.
destruct (heap w !! l) as [a|] eqn:Ha.
- exists a, w. split; [reflexivity|exact Hw].
- apply lookup_ge_None in Ha. unfold heapSize in Hw. lia.
Qed.

Lemma sized_assign l f : (l < N)%nat -> returnsIn sized (assign l f).
Proof.
intros Hl. unfold assign. apply returnsIn_bind; [now apply sized_deref|].
intros a. apply returnsIn_modify. intros w Hw. sized_leaf.
Qed.

Lemma sized_emit e : returnsIn sized (emit e).
Proof. apply returnsIn_modify. intros w Hw. sized_leaf. Qed.

Lemma sized_set_isLoadingData b : returnsIn sized (modify (set_isLoadingData b)).
Proof. apply returnsIn_modify. intros w Hw. sized_leaf. Qed.

Lemma keeps_sized_call_on_address call method l :
  keeps sized (call_on_address call method l).
Proof. keeps_walk sized_leaf. Qed.

Lemma sized_updateAddressesState n ls :
  Forall (fun l => (l < N)%nat) ls ->
  returnsIn sized (updateAddressesState n ls).
Proof.
intros Hls. unfold updateAddressesState.
destruct (length ls =? 0)%nat; [apply returnsIn_mret|].
apply returnsIn_bind; [apply sized_emit|intros _].
apply returnsIn_for_of. intros l Hl. rewrite Forall_forall in Hls.
unfold registerAddress.
apply returnsIn_bind; [apply sized_assign; auto|intros _].
apply returnsIn_bind; [apply sized_deref; auto|intros a].
apply returnsIn_modify. intros w Hw. sized_leaf.
Qed.

Lemma sized_refreshEach ghre c checking ls shouldUpdate addressesToUpdate :
  Forall (fun l => (l < N)%nat) ls ->
  Forall (fun l => (l < N)%nat) addressesToUpdate ->
  forall w, sized w ->
  exists s u w',
    refreshEach ghre c checking ls shouldUpdate addressesToUpdate w
    = (inr (s, u), w')
    /\ sized w' /\ Forall (fun l => (l < N)%nat) u.
Proof.
revert shouldUpdate addressesToUpdate.
induction ls as [|l ls IH]; intros shouldUpdate addressesToUpdate Hls Hacc w Hw;
  cbn [refreshEach].
- exists shouldUpdate, addressesToUpdate, w. auto.
- inversion Hls as [|? ? Hl Hls']; subst.
  match goal with
  | |- context [try_catch ?body ?handler] =>
      assert (Hstep : exists s u w1,
                try_catch body handler w = (inr (s, u), w1)
                /\ sized w1 /\ Forall (fun l => (l < N)%nat) u)
  end.
  { unfold try_catch.
    match goal with
    | |- context [let (_, _) := ?body w in _] =>
        assert (Hbody : sized (snd (body w))
                        /\ forall s u w1, body w = (inr (s, u), w1) ->
                                          Forall (fun l => (l < N)%nat) u);
        [|destruct (body w) as [[e|[s u]] w1] eqn:Hrun]
    end.
    - split.
      + revert w Hw.
        match goal with |- forall w, _ -> sized (snd (?b w)) =>
          change (keeps sized b) end.
        keeps_walk sized_leaf.
      + intros s u w1.
        unfold mbind, M_bind.
        repeat match goal with
               | |- context [let (_, _) := ?m ?w0 in _] =>
                   destruct (m w0) as [[?|?] ?]; try discriminate
               | |- context [match ?m ?w0 with _ => _ end] =>
                   destruct (m w0) as [[?|?] ?]; try discriminate
               end.
        intros [= <- <- <-].
        match goal with
        | |- Forall _ (if ?b then _ else _) => destruct b
        end; [apply Forall_app; split; [assumption|now constructor]|assumption].
    - cbn in Hbody. destruct Hbody as [Hsz _].
      assert (Hh : returnsIn sized
                (a ← deref l;
                 emit (SetSnackbarMessage
                         (SnackbarMessage.mk
                            (ghre e ("Error while fetching data for address "
                                     +:+ Address.hash a)) "alert" None)) ;;
                 mret (shouldUpdate, addressesToUpdate))).
      { apply returnsIn_bind; [now apply sized_deref|intros a].
        apply returnsIn_bind; [apply sized_emit|intros _].
        apply returnsIn_mret. }
      destruct (Hh w1 Hsz) as ([s u] & w2 & Hrun2 & Hsz2).
      assert (Hsu : (s, u) = (shouldUpdate, addressesToUpdate)).
      { revert Hrun2. unfold mbind, M_bind, deref, emit, modify, mret, M_ret.
        destruct (heap w1 !! l); [|discriminate]. now intros [= <- <- _]. }
      injection Hsu as -> ->.
      exists shouldUpdate, addressesToUpdate, w2. auto.
    - cbn in Hbody. destruct Hbody as [Hsz Hu].
      exists s, u, w1. split; [reflexivity|]. split; [exact Hsz|].
      now apply (Hu s u w1). }
  destruct Hstep as (s & u & w1 & Hrun & Hsz & Hu).
  rewrite (bind_returns _ _ _ _ _ Hrun). now apply IH.
Qed.

End HeapSize.

Lemma addressesOfCurrentNetwork_valid n w l :
  l ∈ addressesOfCurrentNetwork n w -> (l < length (heap w))%nat.
Proof.
unfold addressesOfCurrentNetwork. intros Hin.
apply list_elem_of_In, filter_In in Hin. destruct Hin as [_ Hl].
unfold isOfNetwork in Hl.
destruct (heap w !! l) as [a|] eqn:Ha; [|discriminate].
now apply lookup_lt_Some in Ha.
Qed.

Section FetchingEnds.

Variable client : Client.t.
Variable network_name : NetworkName.
Variable network_status : string.
Variable getHumanReadableError : Exn -> string -> string.
Variable convertUnconfirmedTxToPendingTx :
  UnconfirmedTransaction.t -> AddressHash -> NetworkName -> PendingTx.t.

Hypothesis Honline : network_status <> "offline".

Ltac sized_leaf' :=
  unfold heapSize in *; cbn in *; rewrite ?length_insert; assumption.

Lemma fetchAndStoreAddressesData_returns addresses checking w :
  Forall (fun l => (l < length (heap w))%nat) addresses ->
  exists w',
    fetchAndStoreAddressesData (Some client) network_name network_status
      getHumanReadableError addresses checking w = (inr tt, w')
    /\ isLoadingData w' = false
    /\ length (heap w') = length (heap w).
Proof.
intros Hvalid. unfold fetchAndStoreAddressesData, unavailable.
rewrite bool_decide_eq_false_2 by assumption.
unfold mbind at 1, M_bind at 1, modify at 1.
unfold mbind at 1, M_bind at 1, gets at 1.
set (w0 := set_isLoadingData true w).
set (ls := if (0 <? length addresses)%nat then addresses
           else addressesOfCurrentNetwork network_name w0).
assert (Hls : Forall (fun l => (l < length (heap w))%nat) ls).
{ subst ls. destruct (0 <? length addresses)%nat; [assumption|].
  apply Forall_forall. intros l Hl.
  now apply addressesOfCurrentNetwork_valid in Hl. }
destruct (sized_refreshEach (length (heap w)) getHumanReadableError client
            checking ls (negb checking) [] Hls (List.Forall_nil _) w0 eq_refl)
  as (s & u & w1 & Hrun & Hsz & Hu).
rewrite (bind_returns _ _ _ _ _ Hrun).
assert (Hupd : returnsIn (heapSize (length (heap w)))
                 (if s then updateAddressesState network_name u else mret tt)).
{ destruct s; [now apply sized_updateAddressesState|apply returnsIn_mret]. }
destruct (Hupd w1 Hsz) as ([] & w2 & Hrun2 & Hsz2).
rewrite (bind_returns _ _ _ _ _ Hrun2).
exists (set_isLoadingData false w2). split; [reflexivity|].
split; [reflexivity|exact Hsz2].
Qed.

Lemma fetchPendingTxs_returns addresses w :
  Forall (fun l => (l < length (heap w))%nat) addresses ->
  exists w',
    fetchPendingTxs (Some client) network_name network_status
      getHumanReadableError convertUnconfirmedTxToPendingTx addresses w
    = (inr tt, w')
    /\ isLoadingData w' = false
    /\ length (heap w') = length (heap w).
Proof.
intros Hvalid. unfold fetchPendingTxs.
rewrite bool_decide_eq_false_2 by assumption.
unfold mbind at 1, M_bind at 1, modify at 1.
unfold mbind at 1, M_bind at 1, gets at 1.
set (w0 := set_isLoadingData true w).
set (ls := if (0 <? length addresses)%nat then addresses
           else addressesOfCurrentNetwork network_name w0).
assert (Hls : Forall (fun l => (l < length (heap w))%nat) ls).
{ subst ls. destruct (0 <? length addresses)%nat; [assumption|].
  apply Forall_forall. intros l Hl.
  now apply addressesOfCurrentNetwork_valid in Hl. }
match goal with
| |- context [for_of ls ?body] =>
    assert (Hloop : returnsIn (heapSize (length (heap w))) (for_of ls body))
end.
{ apply returnsIn_for_of. intros l Hl. rewrite Forall_forall in Hls.
  apply returnsIn_bind; [apply sized_deref; auto|intros a].
  apply returnsIn_try_catch.
  - keeps_walk sized_leaf'.
  - intros e. apply sized_emit. }
destruct (Hloop w0 eq_refl) as ([] & w1 & Hrun & Hsz).
rewrite (bind_returns _ _ _ _ _ Hrun).
exists (set_isLoadingData false w1). split; [reflexivity|].
split; [reflexivity|exact Hsz].
Qed.

(** X9: with a client and a network that is not offline,
    [fetchAndStoreAddressesData] and [fetchPendingTxs] never throw,
    whatever the client calls do: every failure of a call is caught, the
    loading flag is [false] at the end, and no object is created or
    dropped. *)
Theorem data_fetching_returns (addresses : list loc) (checking : bool)
    (w : World) :
  Forall (fun l => is_Some (heap w !! l)) addresses ->
  (exists w',
     fetchAndStoreAddressesData (Some client) network_name network_status
       getHumanReadableError addresses checking w = (inr tt, w')
     /\ isLoadingData w' = false
     /\ length (heap w') = length (heap w))
  /\ (exists w',
        fetchPendingTxs (Some client) network_name network_status
          getHumanReadableError convertUnconfirmedTxToPendingTx addresses w
        = (inr tt, w')
        /\ isLoadingData w' = false
        /\ length (heap w') = length (heap w)).
Proof.
intros Hall.
assert (Hvalid : Forall (fun l => (l < length (heap w))%nat) addresses).
{ eapply Forall_impl; [exact Hall|]. intros l Hl. now apply lookup_lt_is_Some. }
split.
- now apply fetchAndStoreAddressesData_returns.
- now apply fetchPendingTxs_returns.
Qed.

(** X10: [fetchAddressTransactionsNextPage] does not catch: when the
    client call fails the exception reaches the caller and the loading
    flag stays [true]; when the call succeeds the address is replaced by
    what the client left and the flag is [false] again. *)
Theorem fetchAddressTransactionsNextPage_outcome (address : loc)
    (a : Address.t) (w : World) :
  heap w !! address = Some a ->
  let run := fetchAddressTransactionsNextPage (Some client) network_status
               address w in
  let called :=
    set_trace (trace w ++ [Call (FetchAddressConfirmedTransactionsNextPage address)])
      w in
  match Client.fetchAddressConfirmedTransactionsNextPage client a with
  | inl e => run = (inl e, set_isLoadingData true called)
  | inr a' =>
      run = (inr tt,
             set_isLoadingData false
               (set_heap (<[address := a']> (heap w)) called))
  end.
Proof.
intros Ha run called. subst run called.
unfold fetchAddressTransactionsNextPage.
rewrite bool_decide_eq_false_2 by assumption.
unfold call_on_address, assign, deref, emit, modify, throw, mbind, M_bind.
cbn. rewrite Ha.
destruct (Client.fetchAddressConfirmedTransactionsNextPage client a) as [e|a'];
  [reflexivity|].
cbn. rewrite Ha. reflexivity.
Qed.

End FetchingEnds.

(** The theorem for the address of [worldA] and a client whose every
    call fails: the refresh returns and reports the failure. *)
Lemma data_fetching_returns_witness :
  fst (fetchAndStoreAddressesData (Some failingClient) "mainnet" "online"
         (fun _ s => s) [0%nat] false worldA) = inr tt
  /\ notifications
       (trace (snd (fetchAndStoreAddressesData (Some failingClient) "mainnet"
                      "online" (fun _ s => s) [0%nat] false worldA)))
     = [SnackbarMessage.mk "Error while fetching data for address A" "alert" None].
Proof.
assert (Hon : "online" <> "offline") by discriminate.
assert (Hall : Forall (fun l => is_Some (heap worldA !! l)) [0%nat]).
{ repeat constructor. exists addressA. reflexivity. }
destruct (proj1 (data_fetching_returns failingClient "mainnet" "online"
                   (fun _ s => s)
                   (fun tx _ n =>
                      PendingTx.mk (UnconfirmedTransaction.hash tx) "" "" 0
                        transfer n None)
                   Hon [0%nat] false worldA Hall)) as (w' & Hrun & _).
split; [now rewrite Hrun|reflexivity].
Defined.

(** The theorem for the address of [worldA] and the failing client: the
    exception comes out and the flag stays set. *)
Lemma fetchAddressTransactionsNextPage_outcome_witness :
  fetchAddressTransactionsNextPage (Some failingClient) "online" 0%nat worldA
  = (inl (Error "request failed"),
     set_isLoadingData true
       (set_trace
          (trace worldA
           ++ [Call (FetchAddressConfirmedTransactionsNextPage 0%nat)])
          worldA)).
Proof.
assert (Hon : "online" <> "offline") by discriminate.
exact (fetchAddressTransactionsNextPage_outcome failingClient "online" Hon
         0%nat addressA worldA eq_refl).
Defined.

Section FetchingFrame.

Variable client : option Client.t.
Variable network_name : NetworkName.
Variable network_status : string.
Variable getHumanReadableError : Exn -> string -> string.
Variable convertUnconfirmedTxToPendingTx :
  UnconfirmedTransaction.t -> AddressHash -> NetworkName -> PendingTx.t.

Lemma preserves_fetchAndStoreAddressesData ls checking :
  preserves (fetchAndStoreAddressesData client network_name network_status
               getHumanReadableError ls checking).
Proof.
unfold fetchAndStoreAddressesData, displayDataFetchingError.
destruct (unavailable client network_status); [repeat preserves_step|].
destruct client; [|auto with preserves].
repeat preserves_step.
Qed.

Lemma preserves_fetchPendingTxs ls :
  preserves (fetchPendingTxs client network_name network_status
               getHumanReadableError convertUnconfirmedTxToPendingTx ls).
Proof.
unfold fetchPendingTxs, displayDataFetchingError.
destruct client; [|auto with preserves].
destruct (bool_decide (network_status = "offline")); [auto with preserves|].
apply preserves_bind; [auto with preserves|intros _].
apply preserves_bind; [auto with preserves|intros current].
apply preserves_bind; [|auto with preserves].
apply preserves_for_of. intros l.
apply preserves_bind; [auto with preserves|intros a].
apply preserves_try_catch; [|auto with preserves].
apply preserves_bind; [auto with preserves|intros _].
destruct (Client.getAddressesAddressUnconfirmedTransactions _ _);
  [auto with preserves|].
apply preserves_for_of. intros tx. unfold addIfNew.
repeat preserves_step.
Qed.

Lemma preserves_fetchAddressTransactionsNextPage l :
  preserves (fetchAddressTransactionsNextPage client network_status l).
Proof.
unfold fetchAddressTransactionsNextPage.
destruct client; [|auto with preserves].
repeat preserves_step.
Qed.

(** X7: the data-fetching operations never write the metadata store and
    never create or drop an address object, whether the client is
    there or not and whether its calls succeed or fail. *)
Theorem data_fetching_leaves_store (addresses : list loc) (checking : bool)
    (address : loc) (w : World) :
  let untouched (w' : World) :=
    storage w' = storage w /\ length (heap w') = length (heap w) in
  untouched (snd (fetchAndStoreAddressesData client network_name network_status
                    getHumanReadableError addresses checking w))
  /\ untouched (snd (fetchPendingTxs client network_name network_status
                       getHumanReadableError convertUnconfirmedTxToPendingTx
                       addresses w))
  /\ untouched (snd (fetchAddressTransactionsNextPage client network_status
                       address w)).
Proof.
intros untouched. subst untouched. cbv beta.
split; [|split].
- apply preserves_fetchAndStoreAddressesData.
- apply preserves_fetchPendingTxs.
- apply preserves_fetchAddressTransactionsNextPage.
Qed.

End FetchingFrame.

(** ** One failing address does not stop the others *)

Lemma leads_bind_keeps {A B : Type} (P Q : World -> Prop) (m : M A)
    (f : A -> M B) :
  leads P m Q -> (forall x, keeps Q (f x)) -> leads P (m ≫= f) Q.
Proof.
intros Hm Hf w Hw. unfold mbind, M_bind. specialize (Hm w Hw).
destruct (m w) as [[e|x] w1]; cbn in *; [exact Hm|]. now apply Hf.
Qed.

Lemma leads_try_catch_keeps {A : Type} (P Q : World -> Prop) (m : M A)
    (h : Exn -> M A) :
  leads P m Q -> (forall e, keeps Q (h e)) -> leads P (try_catch m h) Q.
Proof.
intros Hm Hh w Hw. unfold try_catch. specialize (Hm w Hw).
destruct (m w) as [[e|x] w1]; cbn in *; [|exact Hm]. now apply Hh.
Qed.

Section PartialFailure.

Variable client : Client.t.
Variable network_name : NetworkName.
Variable network_status : string.
Variable getHumanReadableError : Exn -> string -> string.
Variable convertUnconfirmedTxToPendingTx :
  UnconfirmedTransaction.t -> AddressHash -> NetworkName -> PendingTx.t.

Hypothesis Honline : network_status <> "offline".

Ltac details_leaf :=
  cbn in *; unfold detailsCalls in *; rewrite ?omap_app; cbn;
  rewrite ?app_nil_r; assumption.

Lemma refreshEach_detailsCalls N checking ls shouldUpdate addressesToUpdate w :
  Forall (fun l => (l < N)%nat) ls ->
  Forall (fun l => (l < N)%nat) addressesToUpdate ->
  heapSize N w ->
  detailsCalls
    (trace (snd (refreshEach getHumanReadableError client checking ls
                   shouldUpdate addressesToUpdate w)))
  = detailsCalls (trace w) ++ ls.
Proof.
revert shouldUpdate addressesToUpdate w.
induction ls as [|l ls IH]; intros shouldUpdate addressesToUpdate w Hls Hacc Hw.
- cbn. now rewrite app_nil_r.
- inversion Hls as [|? ? Hl Hls']; subst.
  destruct (sized_refreshEach N getHumanReadableError client checking [l]
              shouldUpdate addressesToUpdate
              ltac:(now repeat constructor) Hacc w Hw)
    as (s & u & w1 & Hrun & Hsz & Hu).
  cbn [refreshEach] in Hrun |- *.
  match goal with
  | |- context [try_catch ?body ?handler] =>
      set (block := try_catch body handler) in *
  end.
  assert (Hblock : block w = (inr (s, u), w1)).
  { revert Hrun. unfold mbind, M_bind.
    destruct (block w) as [[e|[s' u']] w']; [discriminate|].
    now intros [= -> -> ->]. }
  rewrite (bind_returns _ _ _ _ _ Hblock).
  rewrite IH by assumption.
  assert (Hstep : leads (fun w' => detailsCalls (trace w')
                                   = detailsCalls (trace w))
                    block
                    (fun w' => detailsCalls (trace w')
                               = detailsCalls (trace w) ++ [l])).
  { subst block.
    apply leads_try_catch_keeps; [|intros e; keeps_walk details_leaf].
    apply leads_bind_keeps; [|intros _; keeps_walk details_leaf].
    unfold call_on_address.
    apply leads_bind_keeps; [|intros _; keeps_walk details_leaf].
    intros w' Hw'. cbn. unfold detailsCalls in *. rewrite omap_app, Hw'.
    reflexivity. }
  specialize (Hstep w eq_refl). rewrite Hblock in Hstep. cbn in Hstep.
  rewrite Hstep. now rewrite <- app_assoc.
Qed.

Lemma fetchAndStoreAddressesData_detailsCalls (addresses : list loc)
    (checking : bool) (w : World) :
  Forall (fun l => is_Some (heap w !! l)) addresses ->
  detailsCalls
    (trace (snd (fetchAndStoreAddressesData (Some client) network_name
                   network_status getHumanReadableError addresses checking w)))
  = detailsCalls (trace w)
    ++ (if (0 <? length addresses)%nat then addresses
        else addressesOfCurrentNetwork network_name w).
Proof.
intros Hall.
assert (Hvalid : Forall (fun l => (l < length (heap w))%nat) addresses).
{ eapply Forall_impl; [exact Hall|]. intros l Hl. now apply lookup_lt_is_Some. }
unfold fetchAndStoreAddressesData, unavailable.
rewrite bool_decide_eq_false_2 by assumption.
unfold mbind at 1, M_bind at 1, modify at 1.
unfold mbind at 1, M_bind at 1, gets at 1.
set (w0 := set_isLoadingData true w).
change (addressesOfCurrentNetwork network_name w0)
  with (addressesOfCurrentNetwork network_name w).
set (ls := if (0 <? length addresses)%nat then addresses
           else addressesOfCurrentNetwork network_name w).
assert (Hls : Forall (fun l => (l < length (heap w))%nat) ls).
{ subst ls. destruct (0 <? length addresses)%nat; [assumption|].
  apply Forall_forall. intros l Hl.
  now apply addressesOfCurrentNetwork_valid in Hl. }
match goal with
| |- detailsCalls (trace (snd ((?m ≫= ?k) w0))) = ?X =>
    assert (Hleads : leads (fun w' => w' = w0) (m ≫= k)
                       (fun w' => detailsCalls (trace w') = X))
end.
{ apply leads_bind_keeps.
  - intros w' ->.
    apply (refreshEach_detailsCalls (length (heap w)) checking ls
             (negb checking) [] w0 Hls (List.Forall_nil _) eq_refl).
  - intros [s u]. keeps_walk details_leaf. }
exact (Hleads w0 eq_refl).
Qed.

(** X11: with a client and a network that is not offline,
    [fetchAndStoreAddressesData] requests the details of every address
    it is to refresh, once each and in order, whatever calls fail on the
    way: a failure for one address does not stop the others. The
    addresses to refresh are the given ones, or those of the current
    network when none is given. *)
Theorem fetchAndStoreAddressesData_requests_all (addresses : list loc)
    (checking : bool) (w : World) :
  Forall (fun l => is_Some (heap w !! l)) addresses ->
  detailsCalls
    (trace (snd (fetchAndStoreAddressesData (Some client) network_name
                   network_status getHumanReadableError addresses checking w)))
  = detailsCalls (trace w)
    ++ (if (0 <? length addresses)%nat then addresses
        else addressesOfCurrentNetwork network_name w).
Proof. apply fetchAndStoreAddressesData_detailsCalls. Qed.

End PartialFailure.

(** ** Initialisation without stored metadata *)

(** With a client, the earlier [fetchAndStoreAddressesData] is the
    current one on a network that is not offline. *)
Lemma Legacy_fetchAndStoreAddressesData_online (c : Client.t)
    (currentNetwork : NetworkName)
    (getHumanReadableError : Exn -> string -> string) (addresses : list loc)
    (checking : bool) (w : World) :
  Legacy.fetchAndStoreAddressesData (Some c) currentNetwork
    getHumanReadableError addresses checking w
  = fetchAndStoreAddressesData (Some c) currentNetwork "online"
      getHumanReadableError addresses checking w.
Proof. reflexivity. Qed.

(** C5 (amended): in the current initialisation, when a secret is
    unlocked and no metadata is stored for the wallet (or the wallet is
    passphrase-derived), nothing is derived or saved: the world is left
    as it was. In the earlier revision of the provider, when an account
    name, a wallet and a client are present and no metadata is stored
    for the account, initialisation creates exactly one address, from
    the wallet's own address and keys with index 0 and [isMain] true,
    stores exactly one metadata record for it (index 0, [isMain] true),
    and then fetches the data of that one address: it returns after
    requesting from the client the details of that address and of no
    other. (The effect starts this initialisation for a client it has
    not recorded yet, [Legacy_initializeEffect_guard] below.) *)
Theorem initialization_without_metadata
    (activeWalletName : string) (secret : string) (isPassphraseUsed : bool)
    (currentAccountName : string) (wallet : Legacy.Wallet)
    (client : Client.t) (currentNetwork : NetworkName)
    (addressToGroup : AddressHash -> Z)
    (getHumanReadableError : Exn -> string -> string)
    (deriveNewAddressData : string -> Z -> string * string * string)
    (w : World) :
  (secret <> "" ->
   isPassphraseUsed = true
   \/ AddressMetadataStorage.load (WalletKey secret activeWalletName) (storage w)
      = [] ->
   initializeCurrentNetworkAddresses activeWalletName (Some secret)
     isPassphraseUsed w = (inr tt, w))
  /\ (currentAccountName <> "" ->
      AddressMetadataStorage.load (AccountKey currentAccountName) (storage w)
      = [] ->
      let default := AddressMetadata.mk 0 true None None in
      let a0 :=
        Address.new addressToGroup (Legacy.address wallet)
          (Legacy.publicKey wallet) (Legacy.privateKey wallet) 0
          (AddressSettings.mk true None None) in
      let w0 :=
        set_storage (storage w ++ [(AccountKey currentAccountName, default)])
          (set_heap (heap w ++ [a0]) w) in
      let run :=
        Legacy.initializeCurrentNetworkAddresses currentAccountName
          (Some wallet) (Some client) currentNetwork addressToGroup
          getHumanReadableError deriveNewAddressData w in
      run = Legacy.fetchAndStoreAddressesData (Some client) currentNetwork
              getHumanReadableError [length (heap w)] false w0
      /\ fst run = inr tt
      /\ storage (snd run)
         = storage w ++ [(AccountKey currentAccountName, default)]
      /\ AddressMetadataStorage.load (AccountKey currentAccountName)
           (storage (snd run)) = [default]
      /\ length (heap (snd run)) = S (length (heap w))
      /\ detailsCalls (trace (snd run))
         = detailsCalls (trace w) ++ [length (heap w)]).
Proof.
split.
- intros Hsecret Hnone.
  unfold initializeCurrentNetworkAddresses.
  rewrite bool_decide_eq_false_2 by assumption.
  destruct Hnone as [-> | Hload].
  + reflexivity.
  + destruct isPassphraseUsed; [reflexivity|].
    unfold mbind, M_bind, gets. rewrite Hload. reflexivity.
- intros Hname Hload default a0 w0 run.
  assert (Hlk : (heap w ++ [a0]) !! length (heap w) = Some a0).
  { rewrite lookup_app_r by reflexivity. now rewrite Nat.sub_diag. }
  assert (Hrun : run = Legacy.fetchAndStoreAddressesData (Some client)
                         currentNetwork getHumanReadableError
                         [length (heap w)] false w0).
  { subst run. unfold Legacy.initializeCurrentNetworkAddresses.
    rewrite bool_decide_eq_false_2 by assumption.
    unfold mbind at 1, M_bind at 1, gets. rewrite Hload.
    change (length [] =? 0)%nat with true. cbv iota.
    unfold Legacy.saveNewAddress, storeMetadata, deref, modify, alloc.
    unfold mbind, M_bind. cbn [heap set_heap]. fold a0. rewrite Hlk.
    cbn [heap set_heap]. rewrite Hlk.
    cbn [storage set_heap Address.index Address.settings Address.new a0].
    rewrite store_fresh by assumption. reflexivity. }
  split; [exact Hrun|].
  pose proof (preserves_Legacy_fetchAndStoreAddressesData (Some client)
                currentNetwork getHumanReadableError [length (heap w)] false w0)
    as [Hs Hl].
  rewrite <- Hrun in Hs, Hl.
  assert (Hon : "online" <> "offline") by discriminate.
  assert (Hnew : Forall (fun l => is_Some (heap w0 !! l)) [length (heap w)]).
  { repeat constructor. subst w0. cbn [heap set_storage set_heap]. eauto. }
  rewrite Legacy_fetchAndStoreAddressesData_online in Hrun.
  split.
  { destruct (fetchAndStoreAddressesData_returns client currentNetwork "online"
                getHumanReadableError Hon [length (heap w)] false w0)
      as (w' & Hret & _).
    - eapply Forall_impl; [exact Hnew|]. intros l Hl0.
      now apply lookup_lt_is_Some.
    - now rewrite Hrun, Hret. }
  split; [exact Hs|]. split.
  { rewrite Hs. cbn [storage w0 set_storage].
    rewrite load_app_one, Hload. reflexivity. }
  split.
  { rewrite Hl. cbn [heap w0 set_storage set_heap].
    rewrite length_app. cbn. lia. }
  rewrite Hrun.
  rewrite (fetchAndStoreAddressesData_detailsCalls client currentNetwork
             "online" getHumanReadableError Hon [length (heap w)] false w0 Hnew).
  reflexivity.
Qed.

(** The effect of the earlier revision calls the initialisation for a
    wallet when the client or the wallet is not the one of the refs, and
    records both; without a wallet, or with the wallet and the client of
    the refs, it does nothing. A provider that has no client and has
    seen none therefore never initialises. *)
Remark Legacy_initializeEffect_guard
    (currentAccountName : string) (wallet : option Legacy.Wallet)
    (client : option Client.t) (currentNetwork : NetworkName)
    (walletObject clientObject : option nat)
    (addressToGroup : AddressHash -> Z)
    (getHumanReadableError : Exn -> string -> string)
    (deriveNewAddressData : string -> Z -> string * string * string)
    (refs : Legacy.Refs) (w : World) :
  let effect :=
    Legacy.initializeEffect currentAccountName wallet client currentNetwork
      walletObject clientObject addressToGroup getHumanReadableError
      deriveNewAddressData refs in
  let closure :=
    Legacy.initializeCurrentNetworkAddresses currentAccountName wallet client
      currentNetwork addressToGroup getHumanReadableError
      deriveNewAddressData in
  (is_Some wallet ->
   Legacy.previousClient refs <> clientObject
   \/ Legacy.previousWallet refs <> walletObject ->
   effect w
   = (inr (Legacy.mkRefs walletObject clientObject), snd (detached closure w)))
  /\ (wallet = None
      \/ (Legacy.previousClient refs = clientObject
          /\ Legacy.previousWallet refs = walletObject) ->
      effect w = (inr refs, w)).
Proof.
intros effect closure. subst effect. unfold Legacy.initializeEffect. split.
- intros Hwallet Hnew.
  rewrite (bool_decide_eq_true_2 _ Hwallet).
  assert (Hguard : negb (bool_decide (Legacy.previousClient refs = clientObject))
                   || negb (bool_decide
                              (Legacy.previousWallet refs = walletObject))
                   = true).
  { destruct Hnew as [Hne|Hne];
      rewrite (bool_decide_eq_false_2 _ Hne); [reflexivity|].
    apply orb_true_r. }
  rewrite Hguard. cbn [andb]. fold closure.
  unfold mbind, M_bind, detached, try_catch.
  destruct (closure w) as [[e|[]] w1]; reflexivity.
- intros [-> | [Hclient Hwallet]].
  + rewrite bool_decide_eq_false_2 by (intros [? [=]]). reflexivity.
  + rewrite (bool_decide_eq_true_2 _ Hclient), (bool_decide_eq_true_2 _ Hwallet).
    rewrite andb_false_r. reflexivity.
Qed.

(** The theorem for the empty world: the current initialisation under
    the secret "secret", and the earlier one under the account "account"
    with a client. *)
Lemma initialization_without_metadata_witness :
  let wallet := Legacy.mkWallet "A" "pub" "priv" "seed" in
  let run :=
    Legacy.initializeCurrentNetworkAddresses "account" (Some wallet)
      (Some idleClient) "mainnet" (fun _ => 0) (fun _ s => s)
      (fun _ _ => ("", "", "")) emptyWorld in
  initializeCurrentNetworkAddresses "wallet" (Some "secret") false emptyWorld
  = (inr tt, emptyWorld)
  /\ AddressMetadataStorage.load (AccountKey "account") (storage (snd run))
     = [AddressMetadata.mk 0 true None None]
  /\ length (heap (snd run)) = 1%nat
  /\ detailsCalls (trace (snd run)) = [0%nat].
Proof.
intros wallet run.
destruct (initialization_without_metadata "wallet" "secret" false "account"
            wallet idleClient "mainnet" (fun _ => 0) (fun _ s => s)
            (fun _ _ => ("", "", "")) emptyWorld) as [Hcurrent Hlegacy].
split.
- apply Hcurrent; [discriminate|right; reflexivity].
- assert (Hname : "account" <> "") by discriminate.
  destruct (Hlegacy Hname eq_refl) as (_ & _ & _ & Hload & Hlen & Hcalls).
  split; [exact Hload|]. split; [exact Hlen|exact Hcalls].
Defined.


(** ** The refresh of one address *)

Ltac wsimpl :=
  cbn [heap addressesState isLoadingData storage trace previousMnemonic
       previousNodeApiHost previousExplorerApiHost
       set_heap set_addressesState set_isLoadingData set_storage set_trace
       set_previous fst snd].

Section RefreshOne.

Variable getHumanReadableError : Exn -> string -> string.
Variable client : Client.t.

Local Abbreviation notice := (failureNotice getHumanReadableError).

Lemma refreshEach_one checking l shouldUpdate addressesToUpdate w a0 :
  heap w !! l = Some a0 ->
  refreshEach getHumanReadableError client checking [l] shouldUpdate
    addressesToUpdate w =
  let w1 := set_trace (trace w ++ [Call (FetchAddressDetails l)]) w in
  match Client.fetchAddressDetails client a0 with
  | inl e =>
      (inr (shouldUpdate, addressesToUpdate),
       set_trace (trace w1 ++ [notice e a0]) w1)
  | inr a1 =>
      let w2 :=
        set_trace (trace w1 ++ [Call (FetchAddressConfirmedTransactions l)])
          (set_heap (<[l := a1]> (heap w)) w1) in
      match Client.fetchAddressConfirmedTransactions client a1 with
      | inl e =>
          (inr (shouldUpdate, addressesToUpdate),
           set_trace (trace w2 ++ [notice e a1]) w2)
      | inr a2 =>
          let a3 := Address.updatePendingTransactions a2 in
          let shouldUpdate' :=
            if checking
               && negb (length (Address.pending (Address.transactions a3))
                        =? length (Address.pending (Address.transactions a2)))%nat
            then true else shouldUpdate in
          (inr (shouldUpdate',
                if shouldUpdate' then addressesToUpdate ++ [l]
                else addressesToUpdate),
           set_heap (<[l := a3]> (heap w)) w2)
      end
  end.
Proof.
intros Ha.
assert (Hlt : (l < length (heap w))%nat) by (now apply lookup_lt_Some in Ha).
cbn [refreshEach]. unfold failureNotice.
unfold call_on_address, assign, deref, emit, modify, throw, try_catch,
  mbind, M_bind, mret, M_ret.
cbn [heap set_trace set_heap trace]. rewrite Ha.
destruct (Client.fetchAddressDetails client a0) as [e|a1]; cbn.
- rewrite Ha. reflexivity.
- rewrite Ha. cbn. rewrite list_lookup_insert_eq by exact Hlt.
  destruct (Client.fetchAddressConfirmedTransactions client a1) as [e|a2]; cbn.
  + rewrite list_lookup_insert_eq by exact Hlt. reflexivity.
  + repeat first
      [ rewrite list_insert_insert_eq
      | rewrite list_lookup_insert_eq by (rewrite ?length_insert; exact Hlt)
      | progress cbn ].
    reflexivity.
Qed.

Lemma refreshEach_cons checking l ls shouldUpdate addressesToUpdate w :
  refreshEach getHumanReadableError client checking (l :: ls) shouldUpdate
    addressesToUpdate w =
  match refreshEach getHumanReadableError client checking [l] shouldUpdate
          addressesToUpdate w with
  | (inr (s, u), w') =>
      refreshEach getHumanReadableError client checking ls s u w'
  | (inl e, w') => (inl e, w')
  end.
Proof.
cbn [refreshEach]. unfold mbind, M_bind.
match goal with
| |- context [try_catch ?body ?h w] => destruct (try_catch body h w) as [[e|[s u]] w']
end; reflexivity.
Qed.

Variable network_name : NetworkName.
Variable network_status : string.

Hypothesis Honline : network_status <> "offline".

Local Abbreviation nothingConfirmed := (nothingConfirmed client).

Lemma filter_all_true {A : Type} (f : A -> bool) (xs : list A) :
  Forall (fun x => f x = true) xs -> List.filter f xs = xs.
Proof.
induction 1 as [|x xs Hx _ IH]; cbn; [reflexivity|]. now rewrite Hx, IH.
Qed.

Lemma stateUpdates_snoc tr e :
  e <> SetAddressesState -> stateUpdates (tr ++ [e]) = stateUpdates tr.
Proof.
intros He. unfold stateUpdates. rewrite List.filter_app, length_app.
destruct e; cbn; try lia. congruence.
Qed.

Lemma refreshEach_quiet ls addressesToUpdate w :
  nothingConfirmed ->
  Forall (fun l => is_Some (heap w !! l)) ls ->
  exists w',
    refreshEach getHumanReadableError client true ls false addressesToUpdate w
    = (inr (false, addressesToUpdate), w')
    /\ addressesState w' = addressesState w
    /\ stateUpdates (trace w') = stateUpdates (trace w)
    /\ length (heap w') = length (heap w).
Proof.
intros Hquiet. revert w.
induction ls as [|l ls IH]; intros w Hls.
- exists w. auto.
- inversion Hls as [|? ? [a0 Ha0] Hls']; subst.
  rewrite refreshEach_cons, (refreshEach_one true l false addressesToUpdate w a0 Ha0).
  cbv zeta.
  assert (Hnext : forall w1,
            addressesState w1 = addressesState w ->
            stateUpdates (trace w1) = stateUpdates (trace w) ->
            length (heap w1) = length (heap w) ->
            exists w',
              refreshEach getHumanReadableError client true ls false
                addressesToUpdate w1 = (inr (false, addressesToUpdate), w')
              /\ addressesState w' = addressesState w
              /\ stateUpdates (trace w') = stateUpdates (trace w)
              /\ length (heap w') = length (heap w)).
  { intros w1 Hs Ht Hn. destruct (IH w1) as (w' & Hrun & Hs' & Ht' & Hn').
    - eapply Forall_impl; [exact Hls'|]. intros x Hx. cbn in *.
      apply lookup_lt_is_Some. rewrite Hn. now apply lookup_lt_is_Some.
    - exists w'. rewrite Hrun, Hs', Ht', Hn'. auto. }
  destruct (Client.fetchAddressDetails client a0) as [e|a1].
  + apply Hnext; wsimpl; [reflexivity| |reflexivity].
    unfold failureNotice. now rewrite !stateUpdates_snoc.
  + destruct (Client.fetchAddressConfirmedTransactions client a1) as [e|a2] eqn:H2.
    * apply Hnext; wsimpl; [reflexivity| |apply length_insert].
      unfold failureNotice. now rewrite !stateUpdates_snoc.
    * pose proof (Hquiet a1 a2 H2) as Hall.
      rewrite pending_updatePendingTransactions, (filter_all_true _ _ Hall).
      rewrite Nat.eqb_refl. cbn [negb andb].
      apply Hnext; wsimpl; [reflexivity| |apply length_insert].
      now rewrite !stateUpdates_snoc.
Qed.

(** X14: while polling for pending transactions
    ([checkingForPendingTransactions] is true), if the client reports no
    confirmed transaction carrying the id of a pending one, the refresh
    returns without any registry update: no state update is recorded and
    the registry map is as before, although the refreshed data has been
    written into the address objects. *)
Theorem polling_refresh_without_confirmation (addresses : list loc) (w : World) :
  nothingConfirmed ->
  Forall (fun l => is_Some (heap w !! l)) addresses ->
  let w' := snd (fetchAndStoreAddressesData (Some client) network_name
                   network_status getHumanReadableError addresses true w) in
  fst (fetchAndStoreAddressesData (Some client) network_name network_status
         getHumanReadableError addresses true w) = inr tt
  /\ addressesState w' = addressesState w
  /\ stateUpdates (trace w') = stateUpdates (trace w)
  /\ isLoadingData w' = false.
Proof.
intros Hquiet Hall w'.
set (w0 := set_isLoadingData true w).
set (ls := if (0 <? length addresses)%nat then addresses
           else addressesOfCurrentNetwork network_name w0).
assert (Hls : Forall (fun l => is_Some (heap w0 !! l)) ls).
{ subst ls. destruct (0 <? length addresses)%nat; [assumption|].
  apply Forall_forall. intros l Hl. apply lookup_lt_is_Some.
  now apply addressesOfCurrentNetwork_valid in Hl. }
destruct (refreshEach_quiet ls [] w0 Hquiet Hls) as (w1 & Hrun & Hs & Ht & _).
assert (Hfull : fetchAndStoreAddressesData (Some client) network_name
                  network_status getHumanReadableError addresses true w
                = (inr tt, set_isLoadingData false w1)).
{ unfold fetchAndStoreAddressesData, unavailable.
  rewrite bool_decide_eq_false_2 by assumption.
  unfold mbind at 1, M_bind at 1, modify at 1.
  unfold mbind at 1, M_bind at 1, gets at 1.
  fold w0. fold ls. cbn [negb]. rewrite (bind_returns _ _ _ _ _ Hrun).
  reflexivity. }
subst w'. rewrite Hfull. wsimpl. rewrite Hs, Ht. auto.
Qed.

(** X15: the refresh of a single address both of whose client calls
    succeed updates the registry exactly when it was not a polling
    refresh or the number of pending transactions changed; either way
    the address object holds the reconciled data the client left. *)
Theorem refresh_updates_registry_iff (checking : bool) (l : loc)
    (a0 a1 a2 : Address.t) (w : World) :
  heap w !! l = Some a0 ->
  Client.fetchAddressDetails client a0 = inr a1 ->
  Client.fetchAddressConfirmedTransactions client a1 = inr a2 ->
  let a3 := Address.updatePendingTransactions a2 in
  let changed :=
    length (Address.pending (Address.transactions a3))
    <> length (Address.pending (Address.transactions a2)) in
  let w' := snd (fetchAndStoreAddressesData (Some client) network_name
                   network_status getHumanReadableError [l] checking w) in
  (checking = false \/ changed ->
   stateUpdates (trace w') = S (stateUpdates (trace w))
   /\ getAddress network_name (Address.hash a3) w' = Some l
   /\ heap w' !! l = Some (Address.set_network (Some network_name) a3))
  /\ (~ (checking = false \/ changed) ->
      stateUpdates (trace w') = stateUpdates (trace w)
      /\ addressesState w' = addressesState w
      /\ heap w' !! l = Some a3).
Proof.
intros Ha0 H1 H2 a3 changed w'.
assert (Hlt : (l < length (heap w))%nat) by (now apply lookup_lt_Some in Ha0).
set (s' := if checking
              && negb (length (Address.pending (Address.transactions a3))
                       =? length (Address.pending (Address.transactions a2)))%nat
           then true else negb checking).
set (w2 := set_heap (<[l := a3]> (heap w))
             (set_trace
                ((trace w ++ [Call (FetchAddressDetails l)])
                 ++ [Call (FetchAddressConfirmedTransactions l)])
                (set_isLoadingData true w))).
assert (Hfull : fetchAndStoreAddressesData (Some client) network_name
                  network_status getHumanReadableError [l] checking w
                = (inr tt,
                   set_isLoadingData false
                     (if s'
                      then registerOne network_name
                             (set_trace (trace w2 ++ [SetAddressesState]) w2) l
                      else w2))).
{ unfold fetchAndStoreAddressesData, unavailable.
  rewrite bool_decide_eq_false_2 by assumption.
  unfold mbind at 1, M_bind at 1, modify at 1.
  unfold mbind at 1, M_bind at 1, gets at 1.
  change (0 <? length [l])%nat with true. cbv iota.
  pose proof (refreshEach_one checking l (negb checking) []
                (set_isLoadingData true w) a0 Ha0) as Hone.
  rewrite H1, H2 in Hone. cbv zeta in Hone.
  rewrite (bind_returns _ _ _ _ _ Hone). clear Hone.
  fold a3. fold s'. wsimpl. fold w2.
  destruct s'; [|reflexivity].
  cbn [app].
  rewrite (bind_returns _ _ _ _ tt
             (updateAddressesState_run network_name [l] w2 ltac:(discriminate)
                ltac:(repeat constructor; subst w2; wsimpl;
                      rewrite list_lookup_insert_eq by exact Hlt; eauto))).
  reflexivity. }
subst w'. rewrite Hfull. clear Hfull.
assert (Hcases : (checking = false \/ changed) <-> s' = true).
{ subst s' changed.
  destruct (Nat.eqb_spec (length (Address.pending (Address.transactions a3)))
              (length (Address.pending (Address.transactions a2))));
    destruct checking; cbn; intuition congruence. }
split.
- intros Hc. apply Hcases in Hc. rewrite Hc.
  unfold registerOne. subst w2. wsimpl.
  rewrite list_lookup_insert_eq by exact Hlt. wsimpl.
  rewrite list_lookup_insert_eq by (rewrite length_insert; exact Hlt).
  unfold getAddress. wsimpl. rewrite JsMap_get_set_eq.
  split; [|auto].
  unfold stateUpdates. rewrite !List.filter_app, !length_app. cbn. lia.
- intros Hc. destruct s'; [exfalso; apply Hc, Hcases; reflexivity|].
  subst w2. wsimpl. rewrite !stateUpdates_snoc by discriminate.
  rewrite list_lookup_insert_eq by exact Hlt. auto.
Qed.

End RefreshOne.

(** ** Fetching pending transactions *)

Lemma set_pending_same a :
  Address.set_pending (Address.pending (Address.transactions a) ++ []) a = a.
Proof. rewrite app_nil_r. now destruct a as [? ? ? ? ? ? ? ? [] ? ? ?]. Qed.

Lemma pendingExtends_refl w : pendingExtends w w.
Proof.
split; [reflexivity|]. intros l a Ha. exists []. now rewrite set_pending_same.
Qed.

Section PendingTxs.

Variable client : option Client.t.
Variable network_name : NetworkName.
Variable network_status : string.
Variable getHumanReadableError : Exn -> string -> string.
Variable convertUnconfirmedTxToPendingTx :
  UnconfirmedTransaction.t -> AddressHash -> NetworkName -> PendingTx.t.

Local Abbreviation fetchPendingTxs' :=
  (fetchPendingTxs client network_name network_status getHumanReadableError
     convertUnconfirmedTxToPendingTx).

Lemma keeps_fetchPendingTxs (I : World -> Prop) addresses :
  (forall w b, I w -> I (set_isLoadingData b w)) ->
  (forall w e, I w -> I (set_trace (trace w ++ [e]) w)) ->
  (forall l tx, keeps I (addIfNew network_name convertUnconfirmedTxToPendingTx
                           l tx)) ->
  keeps I (fetchPendingTxs' addresses).
Proof.
intros Hload Htrace Hadd. unfold fetchPendingTxs, displayDataFetchingError.
destruct client as [c|]; [|apply keeps_emit; auto].
destruct (bool_decide (network_status = "offline")); [apply keeps_emit; auto|].
apply keeps_bind; [apply keeps_modify; auto|intros _].
apply keeps_bind; [apply keeps_gets|intros current].
apply keeps_bind; [|intros _; apply keeps_modify; auto].
apply keeps_for_of. intros l.
apply keeps_bind; [apply keeps_deref|intros a].
apply keeps_try_catch; [|intros e; apply keeps_emit; auto].
apply keeps_bind; [apply keeps_emit; auto|intros _].
destruct (Client.getAddressesAddressUnconfirmedTransactions c _);
  [apply keeps_throw|].
apply keeps_for_of. intros tx. apply Hadd.
Qed.

Lemma addIfNew_run l tx w :
  addIfNew network_name convertUnconfirmedTxToPendingTx l tx w =
  match heap w !! l with
  | Some a =>
      if bool_decide (UnconfirmedTransaction.type tx = "Unconfirmed")
         && negb (existsb
                    (fun t => bool_decide
                                (PendingTx.txId t
                                 = UnconfirmedTransaction.hash tx))
                    (Address.pending (Address.transactions a)))
      then (inr tt,
            set_heap
              (<[l := Address.addPendingTransaction
                        (convertUnconfirmedTxToPendingTx tx (Address.hash a)
                           network_name) a]> (heap w)) w)
      else (inr tt, w)
  | None => (inl (Error "TypeError"), w)
  end.
Proof.
unfold addIfNew, assign, deref, modify, mbind, M_bind.
destruct (heap w !! l) as [a|] eqn:Ha; [|reflexivity].
destruct (_ && _); [|reflexivity]. now rewrite Ha.
Qed.

Lemma addIfNew_extends w0 l tx :
  keeps (fun w => addressesState w = addressesState w0 /\ pendingExtends w0 w)
    (addIfNew network_name convertUnconfirmedTxToPendingTx l tx).
Proof.
intros w [Hs [Hn Hext]]. rewrite addIfNew_run.
destruct (heap w !! l) as [a|] eqn:Ha; [|now repeat split].
destruct (_ && _); [|now repeat split].
wsimpl. split; [exact Hs|]. unfold pendingExtends. wsimpl.
split; [now rewrite length_insert|].
intros l0 a0 Ha0. destruct (Hext l0 a0 Ha0) as [extra Hl0].
destruct (decide (l0 = l)) as [->|Hne].
- rewrite Ha in Hl0. injection Hl0 as ->.
  exists (extra
          ++ [convertUnconfirmedTxToPendingTx tx
                (Address.hash
                   (Address.set_pending
                      (Address.pending (Address.transactions a0) ++ extra) a0))
                network_name]).
  rewrite list_lookup_insert_eq by (now apply lookup_lt_Some in Ha).
  f_equal. unfold Address.addPendingTransaction, Address.set_pending,
    Address.set_transactions. cbn. now rewrite app_assoc.
- exists extra. now rewrite list_lookup_insert_ne by congruence.
Qed.

(** X12: [fetchPendingTxs] only ever appends to pending lists: for every
    address object the earlier pending transactions are still there, in
    order, at the front of its pending list, nothing else of the object
    is changed, no object is created, and the registry map is not
    updated. *)
Theorem fetchPendingTxs_appends (addresses : list loc) (w : World) :
  let w' := snd (fetchPendingTxs' addresses w) in
  addressesState w' = addressesState w
  /\ length (heap w') = length (heap w)
  /\ forall l a, heap w !! l = Some a ->
       exists extra,
         heap w' !! l
         = Some (Address.set_pending
                   (Address.pending (Address.transactions a) ++ extra) a).
Proof.
intros w'.
assert (H : addressesState w' = addressesState w /\ pendingExtends w w').
{ subst w'.
  apply (keeps_fetchPendingTxs
           (fun w1 => addressesState w1 = addressesState w
                      /\ pendingExtends w w1)).
  - intros w1 b Hw1. exact Hw1.
  - intros w1 e Hw1. exact Hw1.
  - intros l tx. apply addIfNew_extends.
  - split; [reflexivity|apply pendingExtends_refl]. }
destruct H as [Hs [Hn Hext]]. auto.
Qed.

Hypothesis Hconvert :
  forall tx h n,
    PendingTx.txId (convertUnconfirmedTxToPendingTx tx h n)
    = UnconfirmedTransaction.hash tx.

Lemma addIfNew_distinct l tx :
  keeps distinctPendingIds
    (addIfNew network_name convertUnconfirmedTxToPendingTx l tx).
Proof.
intros w Hw. rewrite addIfNew_run.
destruct (heap w !! l) as [a|] eqn:Ha; [|exact Hw].
destruct (bool_decide _ && negb (existsb _ _)) eqn:Hnew; [|exact Hw].
wsimpl. unfold distinctPendingIds in *. wsimpl.
apply Forall_insert; [exact Hw|].
apply andb_true_iff in Hnew. destruct Hnew as [_ Hnew].
apply negb_true_iff in Hnew.
assert (Ha' : NoDup (List.map PendingTx.txId
                       (Address.pending (Address.transactions a)))).
{ rewrite Forall_forall in Hw. apply Hw.
  apply list_elem_of_lookup. eauto. }
cbn [Address.addPendingTransaction Address.set_pending Address.set_transactions
     Address.transactions Address.pending].
rewrite List.map_app. cbn [List.map].
apply NoDup_app. split; [exact Ha'|]. split; [|apply NoDup_singleton].
intros id Hin Hid. apply list_elem_of_singleton in Hid. subst id.
rewrite Hconvert in Hin.
apply list_elem_of_In, in_map_iff in Hin. destruct Hin as (t & Ht & Hin).
assert (Hex : existsb
                (fun t0 => bool_decide
                             (PendingTx.txId t0 = UnconfirmedTransaction.hash tx))
                (Address.pending (Address.transactions a)) = true).
{ apply existsb_exists. exists t. split; [exact Hin|].
  now apply bool_decide_eq_true. }
congruence.
Qed.

(** X13: when the conversion of an unconfirmed transaction keeps its
    hash as the id of the pending transaction, [fetchPendingTxs] keeps
    the pending ids of every address distinct: a transaction the
    explorer reports again, within one answer or in a later one, is not
    added twice. *)
Theorem fetchPendingTxs_no_duplicates (addresses : list loc) (w : World) :
  distinctPendingIds w ->
  distinctPendingIds (snd (fetchPendingTxs' addresses w)).
Proof.
apply keeps_fetchPendingTxs.
- intros w1 b Hw1. exact Hw1.
- intros w1 e Hw1. exact Hw1.
- apply addIfNew_distinct.
Qed.

End PendingTxs.

(** ** What [saveNewAddress] does when it is given a secret *)

Lemma leads_detached (P Q : World -> Prop) (m : M unit) :
  leads P m Q ->
  (forall e w, Q w -> Q (set_trace (trace w ++ [UnhandledRejection e]) w)) ->
  leads P (detached m) Q.
Proof.
intros Hm He. unfold detached. apply leads_try_catch_keeps; [exact Hm|].
intros e. apply keeps_emit. intros w. apply He.
Qed.

Lemma preserves_detached' (m : M unit) : preserves m -> preserves (detached m).
Proof.
intros Hm. unfold detached. apply preserves_try_catch; [exact Hm|].
intros e w. split; reflexivity.
Qed.

(** ** Where a call that is not awaited stops *)

Lemma start_lift {A : Type} (m : M A) (x : A) (w w' : World) :
  m w = (inr x, w') -> start (lift m) w = (inr (Settled x), w').
Proof. intros H. unfold lift. cbn. unfold mbind, M_bind. now rewrite H. Qed.

Lemma suspends_await {A : Type} (response : M A) (w : World) :
  suspends (await response) w w.
Proof. eexists. reflexivity. Qed.

Lemma suspends_bind {A B : Type} (m : Async A) (f : A -> Async B)
    (w w' : World) :
  suspends m w w' -> suspends (m ≫= f) w w'.
Proof.
intros [r Hr]. unfold suspends.
change (start (m ≫= f)) with (t ← start m; Task_bind f t).
rewrite (bind_returns _ _ _ _ _ Hr). eexists. reflexivity.
Qed.

Lemma suspends_bind_settled {A B : Type} (m : Async A) (f : A -> Async B)
    (x : A) (w w1 w' : World) :
  start m w = (inr (Settled x), w1) -> suspends (f x) w1 w' ->
  suspends (m ≫= f) w w'.
Proof.
intros Hm [r Hr]. unfold suspends.
change (start (m ≫= f)) with (t ← start m; Task_bind f t).
rewrite (bind_returns _ _ _ _ _ Hm). exists r. exact Hr.
Qed.

Lemma suspends_try_catch {A : Type} (body : Async A) (handler : Exn -> Async A)
    (w w' : World) :
  suspends body w w' -> suspends (try_catch_async body handler) w w'.
Proof.
intros [r Hr]. unfold suspends, try_catch_async. cbn [start]. rewrite Hr.
eexists. reflexivity.
Qed.

Lemma suspends_unawaited (m : Async unit) (w w' : World) :
  suspends m w w' -> exists t, unawaited m w = (inr t, w').
Proof.
intros [r Hr]. unfold unawaited, try_catch. rewrite Hr. eauto.
Qed.

Section SaveNewAddressEffect.

Variable activeWalletName : string.
Variable client : option Client.t.
Variable isPassphraseUsed : bool.
Variable network_name : NetworkName.
Variable network_status : string.
Variable getHumanReadableError : Exn -> string -> string.
Variable convertUnconfirmedTxToPendingTx :
  UnconfirmedTransaction.t -> AddressHash -> NetworkName -> PendingTx.t.

Local Abbreviation save :=
  (saveNewAddress activeWalletName client isPassphraseUsed network_name
     network_status getHumanReadableError convertUnconfirmedTxToPendingTx).
Local Abbreviation fetches address :=
  (fetching ← unawaited
     (fetchAndStoreAddressesData_async client network_name network_status
        getHumanReadableError [address] false);
   checking ← unawaited
     (fetchPendingTxs_async client network_name network_status
        getHumanReadableError convertUnconfirmedTxToPendingTx [address]);
   mret [fetching; checking]).

(** The run of [saveNewAddress] up to the two fetches. *)
Lemma saveNewAddress_run (address : loc) (a : Address.t) (secret : string)
    (w : World) :
  heap w !! address = Some a -> secret <> "" ->
  let w1 :=
    set_storage
      (if isPassphraseUsed then storage w
       else AddressMetadataStorage.store (WalletKey secret activeWalletName)
              (Address.index a) (Address.settings a) (storage w)) w in
  let w2 :=
    registerOne network_name (set_trace (trace w1 ++ [SetAddressesState]) w1)
      address in
  save address (Some secret) w = fetches address w2.
Proof.
intros Ha Hne w1 w2. unfold saveNewAddress, js_or.
assert (Ht : truthy (Some secret) = true).
{ cbn. now rewrite bool_decide_eq_false_2. }
rewrite Ht, bool_decide_eq_false_2 by assumption.
set (store := if negb isPassphraseUsed then _ else _).
assert (Hstore : store w = (inr tt, w1)).
{ subst store w1. destruct isPassphraseUsed; cbn [negb].
  - now destruct w.
  - unfold storeMetadata, deref, modify, mbind, M_bind.
    rewrite Ha. cbn. rewrite Ha. reflexivity. }
rewrite (bind_returns _ _ _ _ _ Hstore).
rewrite (bind_returns _ _ _ _ tt (setAddress_run network_name address w1
                                    ltac:(subst w1; wsimpl; eauto))).
reflexivity.
Qed.

(** With a client and a network that is not offline, both requests are
    issued before [saveNewAddress] returns and before any answer is
    used. *)
Lemma fetches_requests (c : Client.t) (address : loc) (a : Address.t)
    (w : World) :
  client = Some c -> network_status <> "offline" ->
  heap w !! address = Some a ->
  exists fetching checking,
    fetches address w
    = (inr [fetching; checking],
       set_trace
         (trace w
          ++ [Call (FetchAddressDetails address);
              Call (GetAddressesAddressUnconfirmedTransactions (Address.hash a))])
         (set_isLoadingData true w)).
Proof.
intros -> Honline Ha.
set (w1 := set_trace (trace w ++ [Call (FetchAddressDetails address)])
             (set_isLoadingData true w)).
assert (H1 : suspends
               (fetchAndStoreAddressesData_async (Some c) network_name
                  network_status getHumanReadableError [address] false) w w1).
{ unfold fetchAndStoreAddressesData_async, unavailable.
  rewrite bool_decide_eq_false_2 by assumption.
  eapply suspends_bind_settled; [apply start_lift; reflexivity|].
  eapply suspends_bind_settled; [apply start_lift; reflexivity|].
  cbn [length Nat.ltb Nat.leb refreshEach_async].
  apply suspends_bind, suspends_bind, suspends_try_catch.
  unfold call_on_address_async at 1.
  apply suspends_bind.
  eapply suspends_bind_settled; [apply start_lift; reflexivity|].
  apply suspends_await. }
assert (H2 : suspends
               (fetchPendingTxs_async (Some c) network_name network_status
                  getHumanReadableError convertUnconfirmedTxToPendingTx
                  [address]) w1
               (set_trace
                  (trace w1
                   ++ [Call (GetAddressesAddressUnconfirmedTransactions
                               (Address.hash a))])
                  (set_isLoadingData true w1))).
{ unfold fetchPendingTxs_async.
  rewrite bool_decide_eq_false_2 by assumption.
  eapply suspends_bind_settled; [apply start_lift; reflexivity|].
  eapply suspends_bind_settled; [apply start_lift; reflexivity|].
  cbn [length Nat.ltb Nat.leb for_of_async].
  apply suspends_bind, suspends_bind.
  eapply suspends_bind_settled.
  { apply start_lift. unfold deref. subst w1. wsimpl. rewrite Ha. reflexivity. }
  apply suspends_try_catch.
  eapply suspends_bind_settled; [apply start_lift; reflexivity|].
  apply suspends_bind, suspends_await. }
destruct (suspends_unawaited _ _ _ H1) as [fetching Hf].
destruct (suspends_unawaited _ _ _ H2) as [checking Hc].
exists fetching, checking.
rewrite (bind_returns _ _ _ _ _ Hf), (bind_returns _ _ _ _ _ Hc).
unfold mret, M_ret. f_equal. subst w1. wsimpl.
now rewrite <- app_assoc.
Qed.

(** X8: called with a non-empty mnemonic argument for an existing
    address, [saveNewAddress] returns, leaving the two fetches it has
    started to the event loop. With a client and a network that is not
    offline, both requests have then been issued, for the details of the
    address and for its unconfirmed transactions in this order, before
    any answer is used, and the loading flag is set. At its return and
    however the event loop resumes the two fetches afterwards: the
    address's settings are in the metadata store under that mnemonic and
    the address index unless the wallet is passphrase-derived, in which
    case the store is as it was; the key of the address's hash is bound
    in the registry; no object has been created; and with a client and a
    network that is not offline the details of the address have been
    requested. *)
Theorem saveNewAddress_saves (address : loc) (a : Address.t) (secret : string)
    (w : World) :
  heap w !! address = Some a -> secret <> "" ->
  let run := save address (Some secret) w in
  (exists fetching checking, fst run = inr [fetching; checking])
  /\ (is_Some client -> network_status <> "offline" ->
      trace (snd run)
      = trace w
        ++ [SetAddressesState;
            Call (FetchAddressDetails address);
            Call (GetAddressesAddressUnconfirmedTransactions (Address.hash a))]
      /\ isLoadingData (snd run) = true)
  /\ (forall schedule,
        let w' := afterwards schedule run in
        storage w'
        = (if isPassphraseUsed then storage w
           else AddressMetadataStorage.store
                  (WalletKey secret activeWalletName)
                  (Address.index a) (Address.settings a) (storage w))
        /\ is_Some (getAddress network_name (Address.hash a) w')
        /\ length (heap w') = length (heap w)
        /\ (is_Some client -> network_status <> "offline" ->
            address ∈ detailsCalls (trace w'))).
Proof.
intros Ha Hne run. subst run.
assert (Hlt : (address < length (heap w))%nat) by (now apply lookup_lt_Some in Ha).
rewrite (saveNewAddress_run address a secret w Ha Hne).
set (w1 := set_storage _ w).
set (w2 := registerOne network_name
             (set_trace (trace w1 ++ [SetAddressesState]) w1) address).
assert (Hw2 : heap w2 !! address
              = Some (Address.set_network (Some network_name) a)
              /\ getAddress network_name (Address.hash a) w2 = Some address
              /\ storage w2 = storage w1
              /\ length (heap w2) = length (heap w)
              /\ trace w2 = trace w ++ [SetAddressesState]
              /\ isLoadingData w2 = isLoadingData w).
{ subst w2. unfold registerOne. subst w1. wsimpl. rewrite Ha. wsimpl.
  rewrite list_lookup_insert_eq by exact Hlt. unfold getAddress. wsimpl.
  rewrite JsMap_get_set_eq, length_insert. auto 10. }
destruct Hw2 as (Hobj & Hget & Hst2 & Hn2 & Htr2 & Hl2).
split.
{ destruct (unawaited_returns
              (fetchAndStoreAddressesData_async client network_name
                 network_status getHumanReadableError [address] false) w2)
    as (fetching & w3 & Hf).
  destruct (unawaited_returns
              (fetchPendingTxs_async client network_name network_status
                 getHumanReadableError convertUnconfirmedTxToPendingTx
                 [address]) w3)
    as (checking & w4 & Hc).
  exists fetching, checking.
  now rewrite (bind_returns _ _ _ _ _ Hf), (bind_returns _ _ _ _ _ Hc). }
assert (Hreq : is_Some client -> network_status <> "offline" ->
               trace (snd (fetches address w2))
               = trace w
                 ++ [SetAddressesState;
                     Call (FetchAddressDetails address);
                     Call (GetAddressesAddressUnconfirmedTransactions
                             (Address.hash a))]
               /\ isLoadingData (snd (fetches address w2)) = true).
{ intros [c Hc] Honline.
  destruct (fetches_requests c address _ w2 Hc Honline Hobj)
    as (fetching & checking & Hrun).
  rewrite Hrun. wsimpl. rewrite Htr2, <- app_assoc. auto. }
split; [exact Hreq|].
intros schedule w'. subst w'.
split; [|split; [|split]].
- assert (H : storage (afterwards schedule (fetches address w2)) = storage w1
              /\ length (heap (afterwards schedule (fetches address w2)))
                 = length (heap w)).
  { apply (spawns_afterwards
             (I := fun w0 => storage w0 = storage w1
                             /\ length (heap w0) = length (heap w))).
    - intros e w0 Hw0. exact Hw0.
    - apply robust_fetches_unawaited, robust_store_and_size.
    - auto. }
  destruct H as [H _]. rewrite H. subst w1. wsimpl.
  now destruct isPassphraseUsed.
- apply (spawns_afterwards
           (I := bound (constructMapKey network_name (Address.hash a)))).
  + intros e w0 Hw0. exact Hw0.
  + apply robust_fetches_unawaited, robust_bound.
  + unfold bound. fold (getAddress network_name (Address.hash a) w2).
    rewrite Hget. eauto.
- apply (spawns_afterwards
           (I := fun w0 => storage w0 = storage w1
                           /\ length (heap w0) = length (heap w))).
  + intros e w0 Hw0. exact Hw0.
  + apply robust_fetches_unawaited, robust_store_and_size.
  + auto.
- intros Hclient Honline.
  apply (spawns_eventLoop
           (I := fun w0 => address ∈ detailsCalls (trace w0))).
  + intros e w0 Hw0. apply (robust_trace _ (robust_requested address)), Hw0.
  + apply robust_fetches_unawaited, robust_requested.
  + destruct (Hreq Hclient Honline) as [Htr _]. rewrite Htr.
    rewrite detailsCalls_app. apply elem_of_app. right. cbn. left.
Qed.

End SaveNewAddressEffect.

(** The answers may arrive in any order, and the order matters: when the
    unconfirmed transactions arrive before the confirmed ones, the
    transaction they report is counted in the reconciliation that
    follows; when they arrive after it, the transaction is added to the
    pending list with the balance left as it was reconciled. *)
Remark saveNewAddress_order_matters :
  let run :=
    saveNewAddress "wallet" (Some reportingClient) false "mainnet" "online"
      (fun _ s => s) convertWithAmount10 0%nat (Some "secret") worldA in
  Address.availableBalance <$> heap (afterwards [0; 0; 1]%nat run) !! 0%nat
  = Some 70
  /\ Address.availableBalance <$> heap (afterwards [1; 0; 0]%nat run) !! 0%nat
     = Some 60
  /\ isLoadingData (afterwards [0; 0]%nat run) = false.
Proof. repeat split. Qed.


(** ** The initialisation effect *)

Section InitializeEffect.

Variable activeWalletName : string.
Variable client : option Client.t.
Variable mnemonic : option string.
Variable isPassphraseUsed : bool.
Variable network_status : string.
Variable network_settings_nodeHost : string.
Variable network_settings_explorerApiHost : string.

Local Abbreviation effect :=
  (initializeEffect activeWalletName client mnemonic isPassphraseUsed
     network_status network_settings_nodeHost network_settings_explorerApiHost).
Local Abbreviation initialize :=
  (initializeCurrentNetworkAddresses activeWalletName mnemonic isPassphraseUsed).

(** Initialisation itself only dispatches and posts. *)
Lemma initialize_only_emits w :
  exists events,
    snd (detached initialize w) = set_trace (trace w ++ events) w.
Proof.
assert (Hsame : w = set_trace (trace w ++ []) w)
  by (rewrite app_nil_r; now destruct w).
unfold detached, try_catch, initializeCurrentNetworkAddresses.
destruct mnemonic as [m|]; [|now exists [UnhandledRejection
  (Error "Could not initialize addresses, mnemonic not found")]].
destruct (bool_decide (m = ""));
  [now exists [UnhandledRejection
     (Error "Could not initialize addresses, mnemonic not found")]|].
unfold mbind, M_bind, gets, emit, modify, mret, M_ret.
destruct isPassphraseUsed; cbn [fst snd]; [now exists []|].
match goal with |- context [if ?b then _ else _] => destruct b end;
  cbn [fst snd]; [|now exists []].
eexists. wsimpl. rewrite <- app_assoc. reflexivity.
Qed.

Local Abbreviation stable := (stableStatus network_status).

Lemma initializeEffect_eq w :
  effect w =
  if bool_decide (network_status = "connecting")
     || bool_decide (network_status = "uninitialized")
  then (inr tt, w)
  else
    ((if bool_decide (mnemonic = None)
         || negb (bool_decide (mnemonic = previousMnemonic w))
      then
        emit SetAddressesState ;;
        modify (set_addressesState JsMap.empty) ;;
        modify (fun w =>
          set_previous mnemonic (previousNodeApiHost w)
            (previousExplorerApiHost w) w)
      else mret tt) ;;
     if truthy mnemonic
        && (negb (bool_decide (is_Some client))
            || negb (bool_decide (previousMnemonic w = mnemonic))
            || (negb (bool_decide (previousNodeApiHost w
                                   = Some network_settings_nodeHost))
                || negb (bool_decide
                           (previousExplorerApiHost w
                            = Some network_settings_explorerApiHost))))
     then
       modify (set_previous mnemonic (Some network_settings_nodeHost)
                 (Some network_settings_explorerApiHost)) ;;
       detached initialize
     else mret tt) w.
Proof.
unfold initializeEffect. unfold mbind at 1, M_bind at 1, gets at 1.
cbv beta iota zeta. unfold id.
destruct (_ || _); reflexivity.
Qed.

Lemma initialize_after_refs w0 :
  let run :=
    (modify (set_previous mnemonic (Some network_settings_nodeHost)
               (Some network_settings_explorerApiHost)) ;;
     detached initialize) w0 in
  exists events,
    run = (inr tt,
           set_trace (trace w0 ++ events)
             (set_previous mnemonic (Some network_settings_nodeHost)
                (Some network_settings_explorerApiHost) w0)).
Proof.
intros run. subst run. unfold mbind, M_bind, modify.
match goal with
| |- context [detached initialize ?w2] =>
    destruct (initialize_only_emits w2) as [events Hev];
    pose proof (detached_returns initialize w2) as Hret;
    destruct (detached initialize w2) as [[e|[]] w3]; [discriminate|]
end.
cbn [snd] in Hev. subst w3. exists events. reflexivity.
Qed.

Lemma initializeEffect_run w :
  stable ->
  let cleaning :=
    bool_decide (mnemonic = None)
    || negb (bool_decide (mnemonic = previousMnemonic w)) in
  let initializing :=
    truthy mnemonic
    && (negb (bool_decide (is_Some client))
        || negb (bool_decide (previousMnemonic w = mnemonic))
        || (negb (bool_decide (previousNodeApiHost w
                               = Some network_settings_nodeHost))
            || negb (bool_decide (previousExplorerApiHost w
                                  = Some network_settings_explorerApiHost)))) in
  exists events,
    effect w =
    (inr tt,
     set_trace (trace w ++ events)
       (set_previous
          (if cleaning || initializing then mnemonic else previousMnemonic w)
          (if initializing then Some network_settings_nodeHost
           else previousNodeApiHost w)
          (if initializing then Some network_settings_explorerApiHost
           else previousExplorerApiHost w)
          (set_addressesState
             (if cleaning then JsMap.empty else addressesState w) w))).
Proof.
intros [Hc Hu] cleaning initializing. rewrite initializeEffect_eq.
rewrite !bool_decide_eq_false_2 by assumption. cbn [orb].
fold cleaning. fold initializing.
set (wc := set_previous mnemonic (previousNodeApiHost w)
             (previousExplorerApiHost w)
             (set_addressesState JsMap.empty
                (set_trace (trace w ++ [SetAddressesState]) w))).
assert (Hclean : (emit SetAddressesState ;;
                  modify (set_addressesState JsMap.empty) ;;
                  modify (fun w =>
                    set_previous mnemonic (previousNodeApiHost w)
                      (previousExplorerApiHost w) w)) w = (inr tt, wc))
  by reflexivity.
destruct cleaning, initializing; cbn [orb].
- rewrite (bind_returns _ _ _ _ _ Hclean).
  destruct (initialize_after_refs wc) as [events Hev]. cbv zeta in Hev.
  rewrite Hev. exists (SetAddressesState :: events).
  subst wc. destruct w. cbn. now rewrite <- app_assoc.
- rewrite (bind_returns _ _ _ _ _ Hclean).
  exists [SetAddressesState]. subst wc. now destruct w.
- unfold mbind at 1, M_bind at 1, mret at 1, M_ret at 1.
  destruct (initialize_after_refs w) as [events Hev]. cbv zeta in Hev.
  rewrite Hev. exists events. now destruct w.
- exists []. destruct w. cbn. now rewrite app_nil_r.
Qed.

(** X16: when the network status is neither 'connecting' nor
    'uninitialized' and the wallet secret is absent (locked) or differs
    from the one seen before, the initialisation effect leaves the
    registry empty, so no address of the earlier wallet can be looked up
    any more, and remembers the new secret; objects and the metadata
    store are untouched. *)
Theorem initializeEffect_clears_registry (w : World) :
  stable ->
  mnemonic = None \/ mnemonic <> previousMnemonic w ->
  let w' := snd (effect w) in
  addressesState w' = JsMap.empty
  /\ (forall n h, getAddress n h w' = None)
  /\ previousMnemonic w' = mnemonic
  /\ heap w' = heap w
  /\ storage w' = storage w.
Proof.
intros Hstable Hchanged w'.
destruct (initializeEffect_run w Hstable) as [events Hrun]. cbv zeta in Hrun.
assert (Hclean : bool_decide (mnemonic = None)
                 || negb (bool_decide (mnemonic = previousMnemonic w)) = true).
{ destruct Hchanged as [->|Hne]; [reflexivity|].
  rewrite (bool_decide_eq_false_2 _ Hne). apply orb_true_r. }
rewrite Hclean in Hrun. cbn [orb] in Hrun.
subst w'. rewrite Hrun. wsimpl. unfold getAddress. wsimpl. auto.
Qed.

Lemma initializeEffect_refs c w :
  stable -> client = Some c -> truthy mnemonic = true ->
  let w1 := snd (effect w) in
  previousMnemonic w1 = mnemonic
  /\ previousNodeApiHost w1 = Some network_settings_nodeHost
  /\ previousExplorerApiHost w1 = Some network_settings_explorerApiHost.
Proof.
intros Hstable Hclient Ht w1.
destruct (initializeEffect_run w Hstable) as [events Hrun]. cbv zeta in Hrun.
subst w1. rewrite Hrun. wsimpl. rewrite Ht. cbn [andb].
rewrite Hclient, (bool_decide_eq_true_2 (is_Some (Some c))) by eauto.
cbn [negb orb].
assert (Hsome : bool_decide (mnemonic = None) = false).
{ destruct mnemonic; [now apply bool_decide_eq_false_2|discriminate]. }
rewrite Hsome. cbn [orb].
destruct (decide (mnemonic = previousMnemonic w)) as [Heq|Hne].
- rewrite (bool_decide_eq_true_2 _ Heq),
    (bool_decide_eq_true_2 (previousMnemonic w = mnemonic)) by congruence.
  cbn [negb orb].
  destruct (decide (previousNodeApiHost w = Some network_settings_nodeHost))
    as [Hn|Hn];
    [rewrite (bool_decide_eq_true_2 _ Hn)|rewrite (bool_decide_eq_false_2 _ Hn)];
    destruct (decide (previousExplorerApiHost w
                      = Some network_settings_explorerApiHost)) as [He|He];
    [rewrite (bool_decide_eq_true_2 _ He)|rewrite (bool_decide_eq_false_2 _ He)
    |rewrite (bool_decide_eq_true_2 _ He)|rewrite (bool_decide_eq_false_2 _ He)];
    cbn [negb orb]; auto.
- rewrite (bool_decide_eq_false_2 _ Hne),
    (bool_decide_eq_false_2 (previousMnemonic w = mnemonic)) by congruence.
  cbn [negb orb]. auto.
Qed.

(** X17: the effect does nothing while the network status is
    'connecting' or 'uninitialized'; and with a client, an unlocked
    secret and a settled status, running the effect again after it has
    run changes nothing: the wallet is not initialised a second time. *)
Theorem initializeEffect_runs_once (w : World) :
  (network_status = "connecting" \/ network_status = "uninitialized" ->
   effect w = (inr tt, w))
  /\ (stable -> is_Some client -> truthy mnemonic = true ->
      effect (snd (effect w)) = (inr tt, snd (effect w))).
Proof.
split.
- intros [Hs | Hs]; rewrite initializeEffect_eq, Hs; reflexivity.
- intros Hstable [c Hclient] Ht.
  destruct (initializeEffect_refs c w Hstable Hclient Ht) as (Hm & Hn & He).
  destruct Hstable as [Hc Hu].
  set (w1 := snd (effect w)) in *.
  rewrite initializeEffect_eq.
  rewrite !bool_decide_eq_false_2 by assumption. cbn [orb].
  rewrite Hm, Hn, He.
  rewrite !(bool_decide_eq_true_2 (_ = _)) by reflexivity.
  assert (Hsome : bool_decide (mnemonic = None) = false).
  { destruct mnemonic; [now apply bool_decide_eq_false_2|discriminate]. }
  rewrite Hsome. cbn [negb orb]. rewrite Ht, Hclient.
  rewrite (bool_decide_eq_true_2 (is_Some (Some c))) by eauto.
  reflexivity.
Qed.

End InitializeEffect.

(** ** Generating one address per group *)

Lemma increasing_cons (x : Z) (zs : list Z) :
  increasing (x :: zs) <-> Forall (fun y => x < y) zs /\ increasing zs.
Proof.
split.
- intros Hinc. split.
  + apply Forall_lookup. intros i y Hy.
    apply (Hinc 0%nat (S i) x y); [reflexivity|exact Hy|lia].
  + intros i j y z Hy Hz Hij.
    apply (Hinc (S i) (S j) y z); [exact Hy|exact Hz|lia].
- intros [Hall Hinc] i j y z Hy Hz Hij.
  destruct j as [|j]; [lia|]. cbn in Hz.
  destruct i as [|i]; cbn in Hy.
  + injection Hy as <-. rewrite Forall_lookup in Hall. now apply (Hall j).
  + apply (Hinc i j); [assumption|assumption|lia].
Qed.

Lemma increasing_filter (f : Z -> bool) (zs : list Z) :
  increasing zs -> increasing (List.filter f zs).
Proof.
induction zs as [|x zs IH]; intros Hinc; [exact Hinc|].
apply increasing_cons in Hinc. destruct Hinc as [Hall Hinc].
cbn [List.filter]. destruct (f x); [|now apply IH].
apply increasing_cons. split; [|now apply IH].
apply Forall_forall. intros y Hy.
apply list_elem_of_In, filter_In in Hy. destruct Hy as [Hy _].
rewrite Forall_forall in Hall. now apply Hall, list_elem_of_In.
Qed.

Lemma increasing_seq (from len : nat) :
  increasing (List.map Z.of_nat (seq from len)).
Proof.
change (List.map Z.of_nat (seq from len)) with (Z.of_nat <$> seq from len).
intros i j x y Hx Hy Hij.
rewrite list_lookup_fmap in Hx, Hy.
destruct (seq from len !! i) as [n|] eqn:Hn; [|discriminate].
destruct (seq from len !! j) as [m|] eqn:Hm; [|discriminate].
injection Hx as <-. injection Hy as <-.
apply lookup_seq in Hn, Hm. lia.
Qed.

(** X18: [generateOneAddressPerGroup] throws when no wallet secret is
    unlocked, changing nothing. Otherwise it dispatches the start of the
    generation and posts exactly one request to the worker: the groups
    asked for are the groups below the total number of groups that are
    not to be skipped, each once and in increasing order, and the
    indexes to skip are the indexes of the addresses of the current
    network. Nothing else changes. *)
Theorem generateOneAddressPerGroup_request (mnemonic : option string)
    (network_name : NetworkName) (TOTAL_NUMBER_OF_GROUPS : nat)
    (labelPrefix labelColor : option string) (skipGroups : list Z) (w : World) :
  let run := generateOneAddressPerGroup mnemonic network_name
               TOTAL_NUMBER_OF_GROUPS labelPrefix labelColor skipGroups w in
  (truthy mnemonic = false ->
   run = (inl (Error "Could not generate addresses, mnemonic not found"), w))
  /\ (forall secret, mnemonic = Some secret -> secret <> "" ->
      exists groups,
        run = (inr tt,
               set_trace
                 (trace w
                  ++ [Dispatch addressGenerationStarted;
                      PostMessage
                        (DeriveAddressesInGroups secret groups
                           (omap (fun l => Address.index <$> heap w !! l)
                              (addressesOfCurrentNetwork network_name w)))])
                 w)
        /\ (forall g, g ∈ groups <->
                      0 <= g < Z.of_nat TOTAL_NUMBER_OF_GROUPS
                      /\ g ∉ skipGroups)
        /\ NoDup groups
        /\ increasing groups).
Proof.
intros run. subst run. unfold generateOneAddressPerGroup. split.
- intros Hf. destruct mnemonic as [m|]; [|reflexivity].
  cbn in Hf. apply negb_false_iff in Hf. now rewrite Hf.
- intros secret -> Hne. rewrite bool_decide_eq_false_2 by assumption.
  eexists. split; [|split; [|split]].
  + unfold mbind, M_bind, emit, modify, gets. cbn [fst snd].
    wsimpl. rewrite <- app_assoc. reflexivity.
  + intros g. rewrite list_elem_of_In, filter_In, in_map_iff.
    rewrite negb_true_iff, bool_decide_eq_false. split.
    * intros [(n & <- & Hn) Hskip]. apply in_seq in Hn. split; [lia|exact Hskip].
    * intros [Hg Hskip]. split; [|exact Hskip].
      exists (Z.to_nat g). split; [lia|]. apply in_seq. lia.
  + apply NoDup_ListNoDup, List.NoDup_filter, Finite.Injective_map_NoDup.
    * intros x y Hxy. lia.
    * apply seq_NoDup.
  + apply increasing_filter, increasing_seq.
Qed.

(** The theorem for four groups of which group 2 is skipped: the groups
    asked for are 0, 1 and 3, in this order. *)
Lemma generateOneAddressPerGroup_request_witness :
  generateOneAddressPerGroup (Some "secret") "mainnet" 4 None None [2] worldA
  = (inr tt,
     set_trace
       [Dispatch addressGenerationStarted;
        PostMessage (DeriveAddressesInGroups "secret" [0; 1; 3] [0])]
       worldA)
  /\ increasing [0; 1; 3].
Proof.
assert (Hne : "secret" <> "") by discriminate.
destruct (proj2 (generateOneAddressPerGroup_request (Some "secret") "mainnet" 4
                   None None [2] worldA) "secret" eq_refl Hne)
  as (groups & Hrun & _ & _ & Hinc).
assert (Hcomputed :
          generateOneAddressPerGroup (Some "secret") "mainnet" 4 None None [2]
            worldA
          = (inr tt,
             set_trace
               [Dispatch addressGenerationStarted;
                PostMessage (DeriveAddressesInGroups "secret" [0; 1; 3] [0])]
               worldA)) by reflexivity.
split; [exact Hcomputed|].
rewrite Hcomputed in Hrun. injection Hrun as Hgroups. rewrite Hgroups.
exact Hinc.
Defined.

(** ** Addresses created from derived keys *)

Lemma map_M_alloc {A : Type} (f : A -> Address.t) (xs : list A) (w : World) :
  map_M (fun x => alloc (f x)) xs w =
  (inr (seq (length (heap w)) (length xs)),
   set_heap (heap w ++ List.map f xs) w).
Proof.
revert w. induction xs as [|x xs IH]; intros w.
- cbn. rewrite app_nil_r. now destruct w.
- cbn [map_M]. unfold mbind at 1, M_bind at 1, alloc at 1.
  unfold mbind at 1, M_bind at 1. rewrite IH.
  cbn [heap set_heap length List.map seq]. rewrite length_app. cbn [length].
  rewrite Nat.add_1_r. unfold mret, M_ret.
  rewrite <- app_assoc. reflexivity.
Qed.

Lemma map_M_ext {A B : Type} (f g : A -> M B) (xs : list A) :
  (forall x, f x = g x) -> map_M f xs = map_M g xs.
Proof.
intros Hfg. induction xs as [|x xs IH]; cbn [map_M]; [reflexivity|].
now rewrite Hfg, IH.
Qed.

Lemma lookup_created {A : Type} (f : A -> Address.t) (xs : list A)
    (heap0 : list Address.t) (x : A) :
  x ∈ xs ->
  exists l, l ∈ seq (length heap0) (length xs)
            /\ (heap0 ++ List.map f xs) !! l = Some (f x).
Proof.
intros Hin. apply list_elem_of_lookup in Hin. destruct Hin as [i Hi].
exists (length heap0 + i)%nat. split.
- apply list_elem_of_In, in_seq. apply lookup_lt_Some in Hi. lia.
- rewrite lookup_app_r by lia.
  replace (length heap0 + i - length heap0)%nat with i by lia.
  change (List.map f xs) with (f <$> xs).
  now rewrite list_lookup_fmap, Hi.
Qed.

Section FromIndexes.

Variable client : option Client.t.
Variable network_name : NetworkName.
Variable network_status : string.
Variable addressToGroup : AddressHash -> Z.
Variable getHumanReadableError : Exn -> string -> string.
Variable convertUnconfirmedTxToPendingTx :
  UnconfirmedTransaction.t -> AddressHash -> NetworkName -> PendingTx.t.

Local Abbreviation fetchData :=
  (fetchAndStoreAddressesData client network_name network_status
     getHumanReadableError).
Local Abbreviation fetchPending :=
  (fetchPendingTxs client network_name network_status getHumanReadableError
     convertUnconfirmedTxToPendingTx).

(** X19: the handler of the from-indexes worker creates exactly one
    address object per derived key pair, in order, with the hash, keys
    and index of the pair and the settings of the stored record of that
    index (not main and without label or color when there is none);
    then it registers them and fetches their data. It never writes the
    metadata store, and afterwards the hash of every derived pair is
    bound in the registry of the current network. *)
Theorem onAddressesFromIndexesDerived_creates
    (addressesMetadata : list AddressMetadata.t) (data : list AddressKeyPair)
    (w : World) :
  let run := onAddressesFromIndexesDerived client network_name network_status
               addressToGroup getHumanReadableError
               convertUnconfirmedTxToPendingTx addressesMetadata data w in
  let created := List.map (derivedAddress addressToGroup addressesMetadata) data in
  let refs := seq (length (heap w)) (length data) in
  run = (updateAddressesState network_name refs ;;
         fetchData refs false ;;
         fetchPending refs ;;
         emit (Dispatch addressesGenerated))
          (set_heap (heap w ++ created) w)
  /\ length (heap (snd run)) = (length (heap w) + length data)%nat
  /\ storage (snd run) = storage w
  /\ (forall d, d ∈ data ->
        is_Some (getAddress network_name (kp_hash d) (snd run)))
  /\ (forall d m, d ∈ data ->
        List.find (fun m => bool_decide (AddressMetadata.index m = kp_index d))
          addressesMetadata = Some m ->
        Address.settings (derivedAddress addressToGroup addressesMetadata d)
        = AddressSettings.mk (AddressMetadata.isMain m)
            (AddressMetadata.label m) (AddressMetadata.color m))
  /\ (forall d, d ∈ data ->
        (forall m, m ∈ addressesMetadata ->
                   AddressMetadata.index m <> kp_index d) ->
        Address.settings (derivedAddress addressToGroup addressesMetadata d)
        = AddressSettings.mk false None None).
Proof.
intros run created refs.
set (w0 := set_heap (heap w ++ created) w).
set (rest := updateAddressesState network_name refs ;;
             fetchData refs false ;;
             fetchPending refs ;;
             emit (Dispatch addressesGenerated)).
assert (Hrun : run = rest w0).
{ subst run. unfold onAddressesFromIndexesDerived.
  change (map_M _ data)
    with (map_M (fun d => alloc (derivedAddress addressToGroup
                                   addressesMetadata d)) data).
  rewrite (bind_returns _ _ _ _ _ (map_M_alloc _ data w)). reflexivity. }
assert (Hvalid : Forall (fun l => is_Some (heap w0 !! l)) refs).
{ apply Forall_forall. intros l Hl. apply list_elem_of_In, in_seq in Hl.
  apply lookup_lt_is_Some. subst w0 created. wsimpl.
  rewrite length_app, length_map. lia. }
assert (Hstable : preserves rest).
{ subst rest.
  apply preserves_bind; [apply preserves_updateAddressesState|intros _].
  apply preserves_bind; [apply preserves_fetchAndStoreAddressesData|intros _].
  apply preserves_bind; [apply preserves_fetchPendingTxs|intros _].
  intros w1. split; reflexivity. }
destruct (Hstable w0) as [Hst Hlen].
split; [exact Hrun|]. rewrite Hrun.
split. { rewrite Hlen. subst w0 created. wsimpl.
         now rewrite length_app, length_map. }
split; [exact Hst|]. split; [|split].
- intros d Hd.
  destruct (lookup_created (derivedAddress addressToGroup addressesMetadata)
              data (heap w) d Hd) as (l & Hl & Hlook).
  change (bound (constructMapKey network_name (kp_hash d)) (snd (rest w0))).
  assert (Hleads : leads (fun w1 => w1 = w0) rest
                     (bound (constructMapKey network_name (kp_hash d)))).
  { subst rest. apply leads_bind_keeps.
    - intros w1 ->.
      destruct (updateAddressesState_effect network_name refs w0 Hvalid)
        as (_ & _ & Hgiven & _).
      destruct (Hgiven l (derivedAddress addressToGroup addressesMetadata d)
                  Hl Hlook) as (l' & a' & _ & _ & _ & Hget).
      unfold bound. unfold getAddress in Hget. cbn in Hget.
      rewrite Hget. eauto.
    - intros _. apply keeps_bind; [apply bound_fetchAndStoreAddressesData|].
      intros _. apply keeps_bind; [apply bound_fetchPendingTxs|intros _].
      apply keeps_emit. intros w1 Hw1. exact Hw1. }
  exact (Hleads w0 eq_refl).
- intros d m _ Hfind. unfold derivedAddress. cbn. now rewrite Hfind.
- intros d _ Hnone. unfold derivedAddress. cbn.
  assert (Hfind : List.find
                    (fun m => bool_decide (AddressMetadata.index m = kp_index d))
                    addressesMetadata = None).
  { destruct (List.find _ addressesMetadata) as [m|] eqn:Hm; [|reflexivity].
    apply find_some in Hm. destruct Hm as [Hin Hm].
    apply bool_decide_eq_true in Hm. apply list_elem_of_In in Hin.
    now destruct (Hnone m Hin). }
  now rewrite Hfind.
Qed.

End FromIndexes.

(** ** The earlier revision: addresses from stored metadata *)

Section LegacyInitialize.

Variable currentAccountName : string.
Variable wallet : Legacy.Wallet.
Variable client : option Client.t.
Variable currentNetwork : NetworkName.
Variable addressToGroup : AddressHash -> Z.
Variable getHumanReadableError : Exn -> string -> string.
Variable deriveNewAddressData : string -> Z -> string * string * string.

Local Abbreviation legacyInitialize :=
  (Legacy.initializeCurrentNetworkAddresses currentAccountName (Some wallet)
     client currentNetwork addressToGroup getHumanReadableError
     deriveNewAddressData).

(** X21: in the earlier revision, initialisation with stored metadata
    creates exactly one address per stored record, in the order of the
    records, derived from the wallet seed at the record's index and
    carrying the record's settings (an index that has no record gets no
    address), and then fetches their data without waiting for it. It
    returns, leaves the metadata store as it was, and without a client
    it registers none of the addresses it created. *)
Theorem Legacy_initialize_from_metadata (w : World) :
  currentAccountName <> "" ->
  AddressMetadataStorage.load (AccountKey currentAccountName) (storage w) <> [] ->
  let stored :=
    AddressMetadataStorage.load (AccountKey currentAccountName) (storage w) in
  let created :=
    List.map (legacyAddress addressToGroup deriveNewAddressData
                (Legacy.seed wallet)) stored in
  let w0 := set_heap (heap w ++ created) w in
  let refs := seq (length (heap w)) (length stored) in
  legacyInitialize w
  = detached (Legacy.fetchAndStoreAddressesData client currentNetwork
                getHumanReadableError refs false) w0
  /\ fst (legacyInitialize w) = inr tt
  /\ length (heap (snd (legacyInitialize w)))
     = (length (heap w) + length stored)%nat
  /\ storage (snd (legacyInitialize w)) = storage w
  /\ (client = None -> snd (legacyInitialize w) = w0).
Proof.
intros Hname Hstored stored created w0 refs.
assert (Hrun : legacyInitialize w
               = detached (Legacy.fetchAndStoreAddressesData client
                             currentNetwork getHumanReadableError refs false)
                   w0).
{ unfold Legacy.initializeCurrentNetworkAddresses.
  rewrite bool_decide_eq_false_2 by assumption.
  unfold mbind at 1, M_bind at 1, gets at 1. fold stored.
  assert (Hlen : (length stored =? 0)%nat = false).
  { subst stored.
    destruct (AddressMetadataStorage.load _ _); [contradiction|reflexivity]. }
  rewrite Hlen.
  rewrite (map_M_ext _
             (fun x => alloc (legacyAddress addressToGroup deriveNewAddressData
                                (Legacy.seed wallet) x)) stored).
  2:{ intros x. unfold legacyAddress.
      now destruct (deriveNewAddressData _ _) as [[? ?] ?]. }
  rewrite (bind_returns _ _ _ _ _ (map_M_alloc _ stored w)). reflexivity. }
rewrite Hrun.
split; [reflexivity|]. split; [apply detached_returns|].
destruct (preserves_detached' _
            (preserves_Legacy_fetchAndStoreAddressesData client currentNetwork
               getHumanReadableError refs false) w0) as [Hs Hl].
split. { rewrite Hl. subst w0 created. wsimpl.
         now rewrite length_app, length_map. }
split; [exact Hs|].
intros ->. reflexivity.
Qed.

End LegacyInitialize.

(** ** Which addresses are polled *)

Section PollingSet.

Variable network_name : NetworkName.

Lemma hasPendingSentTxs_true w l :
  hasPendingSentTxs network_name w l = true <->
  exists a tx, heap w !! l = Some a
               /\ tx ∈ Address.pending (Address.transactions a)
               /\ PendingTx.network tx = network_name.
Proof.
unfold hasPendingSentTxs. destruct (heap w !! l) as [a|]; [|split].
- rewrite Nat.ltb_lt. split.
  + intros Hlen.
    destruct (List.filter _ (Address.pending (Address.transactions a)))
      as [|tx txs] eqn:Hf; [cbn in Hlen; lia|].
    assert (Hin : In tx (List.filter
                           (fun pendingTx =>
                              bool_decide (PendingTx.network pendingTx
                                           = network_name))
                           (Address.pending (Address.transactions a))))
      by (rewrite Hf; left; reflexivity).
    apply filter_In in Hin. destruct Hin as [Hin Hn].
    exists a, tx. split; [reflexivity|]. split; [now apply list_elem_of_In|].
    now apply bool_decide_eq_true in Hn.
  + intros (a' & tx & [= <-] & Hin & Hn).
    assert (Hf : In tx (List.filter
                          (fun pendingTx =>
                             bool_decide (PendingTx.network pendingTx
                                          = network_name))
                          (Address.pending (Address.transactions a)))).
    { apply filter_In. split; [now apply list_elem_of_In|].
      now apply bool_decide_eq_true. }
    destruct (List.filter _ _); [destruct Hf|cbn; lia].
- discriminate.
- intros (a & tx & Ha & _). discriminate.
Qed.

(** X20: the polled addresses are all registered addresses of the
    current network; there is something to poll exactly when some
    registered address of the current network has a pending transaction
    of the current network; and a registered address of the current
    network that is the destination of such a transaction is polled too. *)
Theorem addressesToRefresh_characterised (w : World) :
  (forall l, l ∈ addressesToRefresh network_name w ->
             l ∈ addressesOfCurrentNetwork network_name w)
  /\ (addressesToRefresh network_name w <> [] <->
      exists l a tx,
        l ∈ JsMap.values (addressesState w)
        /\ heap w !! l = Some a
        /\ Address.network a = Some network_name
        /\ tx ∈ Address.pending (Address.transactions a)
        /\ PendingTx.network tx = network_name)
  /\ (forall sender s tx receiver r,
        sender ∈ addressesOfCurrentNetwork network_name w ->
        heap w !! sender = Some s ->
        tx ∈ Address.pending (Address.transactions s) ->
        PendingTx.network tx = network_name ->
        receiver ∈ addressesOfCurrentNetwork network_name w ->
        heap w !! receiver = Some r ->
        PendingTx.toAddress tx = Address.hash r ->
        sender ∈ addressesToRefresh network_name w
        /\ receiver ∈ addressesToRefresh network_name w).
Proof.
assert (Hcur : forall l, l ∈ addressesOfCurrentNetwork network_name w <->
          l ∈ JsMap.values (addressesState w)
          /\ exists a, heap w !! l = Some a
                       /\ Address.network a = Some network_name).
{ intros l. unfold addressesOfCurrentNetwork.
  rewrite list_elem_of_In, filter_In, <- list_elem_of_In. unfold isOfNetwork.
  destruct (heap w !! l) as [a|].
  - rewrite bool_decide_eq_true. split.
    + intros [? ?]. eauto.
    + intros [? (a' & [= <-] & ?)]. auto.
  - split; [intros [_ ?]; discriminate|intros [_ (a & ? & _)]; discriminate]. }
assert (Hsent : forall l, l ∈ addressesWithPendingSentTxs network_name w <->
          l ∈ addressesOfCurrentNetwork network_name w
          /\ hasPendingSentTxs network_name w l = true).
{ intros l. unfold addressesWithPendingSentTxs.
  now rewrite list_elem_of_In, filter_In, <- list_elem_of_In. }
split; [|split].
- intros l Hl. unfold addressesToRefresh in Hl. apply elem_of_app in Hl.
  destruct Hl as [Hl|Hl].
  + now apply Hsent in Hl.
  + unfold addressesWithPendingReceivingTxs in Hl.
    apply list_elem_of_In, filter_In in Hl. now apply list_elem_of_In.
- rewrite (not_iff_compat (addressesToRefresh_nil_iff network_name w)). split.
  + intros Hne.
    assert (Hex : exists l, l ∈ addressesWithPendingSentTxs network_name w).
    { destruct (addressesWithPendingSentTxs network_name w) as [|l ls];
        [contradiction|exists l; left]. }
    destruct Hex as [l Hl]. apply Hsent in Hl. destruct Hl as [Hl Hp].
    apply Hcur in Hl. destruct Hl as [Hv (a & Ha & Hn)].
    apply hasPendingSentTxs_true in Hp.
    destruct Hp as (a' & tx & Ha' & Hin & Hnet).
    exists l, a, tx. rewrite Ha in Ha'. injection Ha' as <-. auto.
  + intros (l & a & tx & Hv & Ha & Hn & Hin & Hnet) Hnil.
    assert (Hl : l ∈ addressesWithPendingSentTxs network_name w).
    { apply Hsent. split; [apply Hcur; eauto|].
      apply hasPendingSentTxs_true. eauto. }
    rewrite Hnil in Hl. inversion Hl.
- intros sender s tx receiver r Hs Hhs Hin Hnet Hr Hhr Hto.
  assert (Hsender : sender ∈ addressesWithPendingSentTxs network_name w).
  { apply Hsent. split; [exact Hs|]. apply hasPendingSentTxs_true. eauto. }
  unfold addressesToRefresh. split; apply elem_of_app; [now left|right].
  unfold addressesWithPendingReceivingTxs.
  apply list_elem_of_In, filter_In. split; [now apply list_elem_of_In|].
  unfold isReceiving. rewrite Hhr. apply existsb_exists.
  exists sender. split; [now apply list_elem_of_In|]. rewrite Hhs.
  apply existsb_exists. exists tx. split; [now apply list_elem_of_In|].
  now apply bool_decide_eq_true.
Qed.

End PollingSet.

(** ** The earlier revision against the current one *)

Lemma withoutTexts_eq (w w' : World) :
  withoutTexts w = withoutTexts w' <->
  heap w = heap w' /\ addressesState w = addressesState w'
  /\ isLoadingData w = isLoadingData w' /\ storage w = storage w'
  /\ previousMnemonic w = previousMnemonic w'
  /\ previousNodeApiHost w = previousNodeApiHost w'
  /\ previousExplorerApiHost w = previousExplorerApiHost w'
  /\ List.map withoutText (trace w) = List.map withoutText (trace w').
Proof.
split.
- intros H.
  pose proof (f_equal heap H). pose proof (f_equal addressesState H).
  pose proof (f_equal isLoadingData H). pose proof (f_equal storage H).
  pose proof (f_equal previousMnemonic H).
  pose proof (f_equal previousNodeApiHost H).
  pose proof (f_equal previousExplorerApiHost H).
  pose proof (f_equal trace H). cbn in *. auto 10.
- destruct w, w'. cbn. intros (-> & -> & -> & -> & -> & -> & -> & Ht).
  unfold withoutTexts. cbn. now rewrite Ht.
Qed.

Section Agree.

Lemma agree_mret {A : Type} (x : A) : agree (mret x) (mret x).
Proof. intros w w' H. split; [reflexivity|exact H]. Qed.

Lemma agree_throw {A : Type} (e : Exn) : agree (@throw A e) (throw e).
Proof. intros w w' H. split; [reflexivity|exact H]. Qed.

Lemma agree_bind {A B : Type} (m m' : M A) (f f' : A -> M B) :
  agree m m' -> (forall x, agree (f x) (f' x)) -> agree (m ≫= f) (m' ≫= f').
Proof.
intros Hm Hf w w' H. destruct (Hm w w' H) as [Hr Hw].
unfold mbind, M_bind.
destruct (m w) as [[e|x] w1], (m' w') as [[e'|x'] w1']; cbn in *;
  try discriminate.
- injection Hr as <-. split; [reflexivity|exact Hw].
- injection Hr as <-. now apply Hf.
Qed.

Lemma agree_try_catch {A : Type} (m m' : M A) (h h' : Exn -> M A) :
  agree m m' -> (forall e, agree (h e) (h' e)) ->
  agree (try_catch m h) (try_catch m' h').
Proof.
intros Hm Hh w w' H. destruct (Hm w w' H) as [Hr Hw].
unfold try_catch.
destruct (m w) as [[e|x] w1], (m' w') as [[e'|x'] w1']; cbn in *;
  try discriminate.
- injection Hr as <-. now apply Hh.
- split; [exact Hr|exact Hw].
Qed.

Lemma agree_for_of {A : Type} (xs : list A) (body body' : A -> M unit) :
  (forall x, agree (body x) (body' x)) -> agree (for_of xs body) (for_of xs body').
Proof.
intros Hbody. induction xs as [|x xs IH]; cbn [for_of].
- apply agree_mret.
- apply agree_bind; auto.
Qed.

Lemma agree_gets {A : Type} (f : World -> A) :
  (forall w w', withoutTexts w = withoutTexts w' -> f w = f w') ->
  agree (gets f) (gets f).
Proof. intros Hf w w' H. split; [cbn; f_equal; now apply Hf|exact H]. Qed.

Lemma agree_modify (f : World -> World) :
  (forall w w', withoutTexts w = withoutTexts w' ->
                withoutTexts (f w) = withoutTexts (f w')) ->
  agree (modify f) (modify f).
Proof. intros Hf w w' H. split; [reflexivity|now apply Hf]. Qed.

Lemma agree_emit (e e' : Event) :
  withoutText e = withoutText e' -> agree (emit e) (emit e').
Proof.
intros He w w' H. split; [reflexivity|]. cbn.
apply withoutTexts_eq in H. apply withoutTexts_eq. cbn.
destruct H as (? & ? & ? & ? & ? & ? & ? & Ht).
rewrite !List.map_app, Ht. cbn. rewrite He. auto 10.
Qed.

Lemma agree_deref l : agree (deref l) (deref l).
Proof.
intros w w' H. unfold deref.
pose proof (proj1 (proj1 (withoutTexts_eq w w') H)) as Hh. rewrite Hh.
destruct (heap w' !! l); (split; [reflexivity|exact H]).
Qed.

Lemma agree_assign l f : agree (assign l f) (assign l f).
Proof.
unfold assign. apply agree_bind; [apply agree_deref|intros a].
apply agree_modify. intros w w' H.
apply withoutTexts_eq in H. apply withoutTexts_eq. cbn.
destruct H as (-> & ? & ? & ? & ? & ? & ? & ?). auto 10.
Qed.

End Agree.

Ltac agree_state :=
  let H := fresh in
  intros ? ? H; apply withoutTexts_eq in H; apply withoutTexts_eq; cbn;
  destruct H as (? & ? & ? & ? & ? & ? & ? & ?); repeat split; congruence.

Ltac agree_walk :=
  repeat first
    [ apply agree_mret | apply agree_throw | apply agree_deref
    | apply agree_assign
    | apply agree_emit; reflexivity
    | apply agree_modify; agree_state
    | apply agree_for_of; intros ?
    | apply agree_try_catch; [|intros ?]
    | apply agree_bind; [|intros ?]
    | match goal with
      | |- agree (match ?x with _ => _ end) (match ?x with _ => _ end) =>
          destruct x
      end
    | progress unfold call_on_address, updateAddressesState, registerAddress ].

Section Revisions.

Variable currentAccountName : string.
Variable currentNetwork : NetworkName.
Variable getHumanReadableError : Exn -> string -> string.

Lemma agree_refreshEach (formatter formatter' : Exn -> string -> string)
    c checking ls shouldUpdate addressesToUpdate :
  agree (refreshEach formatter c checking ls shouldUpdate addressesToUpdate)
        (refreshEach formatter' c checking ls shouldUpdate addressesToUpdate).
Proof.
revert shouldUpdate addressesToUpdate.
induction ls as [|l ls IH]; intros shouldUpdate addressesToUpdate;
  cbn [refreshEach].
- apply agree_mret.
- apply agree_bind; [|intros [s u]; apply IH].
  agree_walk.
Qed.

(** X22: with a client and a network that is not offline, the current
    [fetchAndStoreAddressesData] and the one of the earlier revision do
    the same, whatever their two formatters of error messages are: from
    every state they return alike and leave the same world but for the
    texts of the notices of failed calls. The two revisions differ in
    what happens without a client or offline, and in those texts. *)
Theorem fetchAndStoreAddressesData_as_before
    (formatter formatter' : Exn -> string -> string) (c : Client.t)
    (network_status : string) (addresses : list loc) (checking : bool)
    (w : World) :
  network_status <> "offline" ->
  alike
    (fetchAndStoreAddressesData (Some c) currentNetwork network_status
       formatter addresses checking w)
    (Legacy.fetchAndStoreAddressesData (Some c) currentNetwork
       formatter' addresses checking w).
Proof.
intros Honline.
assert (Hagree : agree
                   (fetchAndStoreAddressesData (Some c) currentNetwork
                      network_status formatter addresses checking)
                   (Legacy.fetchAndStoreAddressesData (Some c) currentNetwork
                      formatter' addresses checking)).
{ unfold fetchAndStoreAddressesData, Legacy.fetchAndStoreAddressesData,
    unavailable.
  rewrite bool_decide_eq_false_2 by assumption.
  apply agree_bind; [agree_walk|intros _].
  apply agree_bind.
  { apply agree_gets. intros w1 w2 H. apply withoutTexts_eq in H.
    destruct H as (Hh & Hs & _).
    unfold addressesOfCurrentNetwork, isOfNetwork. now rewrite Hh, Hs. }
  intros current.
  apply agree_bind; [apply agree_refreshEach|intros [s u]].
  agree_walk. }
now apply Hagree.
Qed.

(** X23: in the earlier revision [saveNewAddress] of an existing address
    always returns and always writes the address's settings to the
    metadata store under the account name; but the address is registered
    only by the data fetch that follows: without a client nothing else
    happens, and when one of the two client calls fails the registry is
    left as it was (the address has been stored, yet cannot be looked
    up); when both succeed the hash is bound to the address. *)
Theorem Legacy_saveNewAddress_effect (client : option Client.t) (l : loc)
    (a : Address.t) (w : World) :
  heap w !! l = Some a ->
  let run := Legacy.saveNewAddress currentAccountName client currentNetwork
               getHumanReadableError l w in
  let stored :=
    set_storage
      (AddressMetadataStorage.store (AccountKey currentAccountName)
         (Address.index a) (Address.settings a) (storage w)) w in
  fst run = inr tt
  /\ storage (snd run) = storage stored
  /\ match client with
     | None => snd run = stored
     | Some c =>
         match Client.fetchAddressDetails c a with
         | inl e => addressesState (snd run) = addressesState w
         | inr a1 =>
             match Client.fetchAddressConfirmedTransactions c a1 with
             | inl e => addressesState (snd run) = addressesState w
             | inr a2 =>
                 getAddress currentNetwork
                   (Address.hash (Address.updatePendingTransactions a2))
                   (snd run) = Some l
             end
         end
     end.
Proof.
intros Ha run stored.
assert (Hlt : (l < length (heap w))%nat) by (now apply lookup_lt_Some in Ha).
assert (Hrun : run = Legacy.fetchAndStoreAddressesData client currentNetwork
                       getHumanReadableError [l] false stored).
{ subst run. unfold Legacy.saveNewAddress, storeMetadata.
  unfold mbind at 1, M_bind at 1, deref at 1. rewrite Ha.
  unfold mbind at 1, M_bind at 1.
  unfold mbind at 1, M_bind at 1, deref at 1. rewrite Ha.
  reflexivity. }
rewrite Hrun. clear Hrun run.
destruct client as [c|]; [|repeat split].
remember (Legacy.fetchAndStoreAddressesData (Some c) currentNetwork
            getHumanReadableError [l] false stored) as r eqn:Hr.
unfold Legacy.fetchAndStoreAddressesData in Hr.
unfold mbind at 1, M_bind at 1, modify at 1 in Hr.
unfold mbind at 1, M_bind at 1, gets at 1 in Hr.
change (0 <? length [l])%nat with true in Hr. cbv iota in Hr.
pose proof (refreshEach_one getHumanReadableError c false l (negb false) []
              (set_isLoadingData true stored) a Ha) as Hone.
cbv zeta in Hone.
destruct (Client.fetchAddressDetails c a) as [e|a1].
{ rewrite (bind_returns _ _ _ _ _ Hone) in Hr. subst r. repeat split. }
destruct (Client.fetchAddressConfirmedTransactions c a1) as [e|a2].
{ rewrite (bind_returns _ _ _ _ _ Hone) in Hr. subst r. repeat split. }
rewrite (bind_returns _ _ _ _ _ Hone) in Hr. clear Hone.
cbn [negb andb app] in Hr.
match type of Hr with
| _ = (_ ≫= _) ?w2 =>
    rewrite (bind_returns _ _ _ _ tt
               (updateAddressesState_run currentNetwork [l] w2
                  ltac:(discriminate)
                  ltac:(repeat constructor; unfold stored; wsimpl;
                        rewrite list_lookup_insert_eq by exact Hlt; eauto)))
      in Hr
end.
subst r.
split; [reflexivity|].
unfold modify, registerOne, stored. cbn [fold_left]. wsimpl.
rewrite list_lookup_insert_eq by exact Hlt. wsimpl.
split; [reflexivity|].
unfold getAddress. wsimpl. now rewrite JsMap_get_set_eq.
Qed.

End Revisions.

(** The two revisions on [worldA] with a client whose every call fails
    and two formatters that give different texts. *)
Lemma fetchAndStoreAddressesData_as_before_witness :
  alike
    (fetchAndStoreAddressesData (Some failingClient) "mainnet" "online"
       (fun _ s => s) [0%nat] false worldA)
    (Legacy.fetchAndStoreAddressesData (Some failingClient) "mainnet"
       (fun _ _ => "failed") [0%nat] false worldA).
Proof.
assert (Hon : "online" <> "offline") by discriminate.
exact (fetchAndStoreAddressesData_as_before "mainnet" (fun _ s => s)
         (fun _ _ => "failed") failingClient "online" [0%nat] false worldA Hon).
Defined.

(** Saving the address of [worldA] in the earlier revision without a
    client: the settings are stored and nothing else happens. *)
Lemma Legacy_saveNewAddress_effect_witness :
  snd (Legacy.saveNewAddress "acct" None "mainnet" (fun _ s => s) 0%nat worldA)
  = set_storage [(AccountKey "acct", AddressMetadata.mk 0 true None None)]
      worldA.
Proof.
exact (proj2 (proj2 (Legacy_saveNewAddress_effect "acct" "mainnet"
                       (fun _ s => s) None 0%nat addressA worldA eq_refl))).
Defined.

(** ** Settings kept in local storage *)

Section LocalSettingsProperties.

Import LocalSettings.

Variable JSON_parse : string -> Exn + Json.
Variable JSON_stringify : Json -> string.

Local Abbreviation load := (settingsLoad JSON_parse).
Local Abbreviation loadOrDefault := (settingsLoadOrDefault JSON_parse).
Local Abbreviation save := (settingsSave JSON_stringify).

(** What [settingsLoad] gives: the test on [typeof] never fails, for
    [getItem] gives a string or [null], so that the stored string, or
    'null' when there is none, is always parsed. *)
Lemma settingsLoad_parses (s : LocalStorage) :
  load s = JSON_parse (toString (getItem "settings" s)).
Proof.
unfold settingsLoad. now destruct (getItem "settings" s).
Qed.

(** X24: settings that [JSON.parse] gives back from their
    [JSON.stringify] are loaded again after [settingsSave]; yet
    [settingsLoadOrDefault] gives them back only when they convert to
    [true] and the default settings otherwise. Saving changes no other
    key of the storage. *)
Theorem settingsSave_then_load (settings : Json) (s : LocalStorage) :
  JSON_parse (JSON_stringify settings) = inr settings ->
  load (save settings s) = inr settings
  /\ loadOrDefault (save settings s)
     = inr (if toBoolean settings then settings else settingsDefault)
  /\ forall key, key <> "settings" ->
       getItem key (save settings s) = getItem key s.
Proof.
intros Hjson.
assert (Hload : load (save settings s) = inr settings).
{ rewrite settingsLoad_parses. unfold settingsSave, getItem, setItem.
  rewrite bool_decide_eq_true_2 by reflexivity. exact Hjson. }
split; [exact Hload|]. split.
- unfold settingsLoadOrDefault. rewrite Hload.
  now destruct (toBoolean settings).
- intros key Hkey. unfold settingsSave, getItem, setItem.
  now rewrite bool_decide_eq_false_2.
Qed.

(** X25: with nothing stored [settingsLoad] does not take its [null]
    branch but parses 'null', so that [settingsLoadOrDefault] gives the
    default settings when that gives [null]; and a stored string that
    [JSON.parse] rejects makes both throw: there is no fallback to the
    default settings for a corrupt entry. *)
Theorem settingsLoad_absent_or_corrupt (s : LocalStorage) :
  (getItem "settings" s = None ->
   load s = JSON_parse "null"
   /\ (JSON_parse "null" = inr JNull -> loadOrDefault s = inr settingsDefault))
  /\ (forall str e,
        getItem "settings" s = Some str -> JSON_parse str = inl e ->
        load s = inl e /\ loadOrDefault s = inl e).
Proof.
split.
- intros Hnone.
  assert (Hload : load s = JSON_parse "null")
    by (now rewrite settingsLoad_parses, Hnone).
  split; [exact Hload|].
  intros Hnull. unfold settingsLoadOrDefault. now rewrite Hload, Hnull.
- intros str e Hsome He.
  assert (Hload : load s = inl e)
    by (now rewrite settingsLoad_parses, Hsome).
  split; [exact Hload|].
  unfold settingsLoadOrDefault. now rewrite Hload.
Qed.

End LocalSettingsProperties.

(** ** The theme switcher *)

Section ThemeSwitcherProperties.

Import ThemeSwitcher.

(** X26: a button of the switcher is grey exactly when it is not the
    button of the current theme, and orange exactly when it is the
    button of the dark theme and that is the current one. A click on
    the switcher asks for one theme, which is light or dark and is not
    the current one; and a click on an icon ends by asking for that same
    theme, whichever icon it was: clicking the sun in the light theme
    asks for the light and then for the dark theme. *)
Theorem ThemeSwitcher_click (currentTheme buttonTheme : string) :
  (getButtonColor currentTheme buttonTheme = "var(--color-grey)"
   <-> currentTheme <> buttonTheme)
  /\ (getButtonColor currentTheme buttonTheme = "var(--color-orange)"
      <-> currentTheme = buttonTheme /\ currentTheme = "dark")
  /\ (exists theme,
        onClick currentTheme = [theme]
        /\ theme <> currentTheme
        /\ (theme = "light" \/ theme = "dark")
        /\ last (clickOnSun currentTheme) = Some theme
        /\ last (clickOnMoon currentTheme) = Some theme).
Proof.
split; [|split].
- unfold getButtonColor.
  destruct (decide (currentTheme = buttonTheme)) as [Heq|Hne].
  + rewrite (bool_decide_eq_true_2 _ Heq).
    destruct (bool_decide (currentTheme = "dark")); split;
      first [discriminate | contradiction].
  + rewrite (bool_decide_eq_false_2 _ Hne). split; auto.
- unfold getButtonColor.
  destruct (decide (currentTheme = buttonTheme)) as [Heq|Hne].
  + rewrite (bool_decide_eq_true_2 _ Heq).
    destruct (decide (currentTheme = "dark")) as [Hd|Hd].
    * rewrite (bool_decide_eq_true_2 _ Hd). split; auto.
    * rewrite (bool_decide_eq_false_2 _ Hd). split; [discriminate|].
      intros [_ ?]. contradiction.
  + rewrite (bool_decide_eq_false_2 _ Hne). split; [discriminate|].
    intros [? _]. contradiction.
- unfold clickOnSun, clickOnMoon, onSunClick, onMoonClick, onClick, switchTheme.
  destruct (decide (currentTheme = "light")) as [Hl|Hl].
  + rewrite (bool_decide_eq_true_2 _ Hl). exists "dark".
    split; [reflexivity|]. split; [rewrite Hl; discriminate|]. auto.
  + rewrite (bool_decide_eq_false_2 _ Hl). exists "light".
    split; [reflexivity|]. split; [congruence|]. auto.
Qed.

End ThemeSwitcherProperties.

(** ** The select input *)

Section SelectProperties.

Import Select.

Variable options : list SelectOption.t.
Variable skipEqualityCheck : bool.

Lemma find_value_Some (v : SelectOption.t) :
  (exists o, o ∈ options /\ SelectOption.value o = SelectOption.value v) ->
  is_Some (List.find
             (fun o => bool_decide (SelectOption.value o = SelectOption.value v))
             options).
Proof.
intros (o & Hin & Hv).
destruct (List.find _ options) as [o'|] eqn:Hfind; [eauto|].
apply list_elem_of_In in Hin.
pose proof (find_none _ _ Hfind o Hin) as Hno. cbn in Hno.
now rewrite bool_decide_eq_true_2 in Hno.
Qed.

Lemma find_value_None (v : SelectOption.t) :
  (forall o, o ∈ options -> SelectOption.value o <> SelectOption.value v) ->
  List.find
    (fun o => bool_decide (SelectOption.value o = SelectOption.value v))
    options = None.
Proof.
intros Hall.
destruct (List.find _ options) as [o|] eqn:Hfind; [|reflexivity].
apply find_some in Hfind. destruct Hfind as [Hin Hv].
apply bool_decide_eq_true in Hv. apply list_elem_of_In in Hin.
now apply Hall in Hin.
Qed.

(** X27: selecting an option in the popup leaves that option as the
    value and hides the popup; [onValueChange] is called once with the
    option, except that it is not called at all when the option is the
    current value and the equality check is not skipped. *)
Theorem handleOptionSelect_effect (value : option SelectOption.t)
    (selected : SelectOption.t) :
  let calls := handleOptionSelect skipEqualityCheck value selected in
  nextValue value calls = Some selected
  /\ last calls = Some (SetShowPopup false)
  /\ valueChanges calls
     = (if bool_decide (value = Some selected) && negb skipEqualityCheck
        then [] else [selected]).
Proof.
unfold handleOptionSelect, setInputValue, isEqual.
destruct value as [v|].
- destruct (decide (Some v = Some selected)) as [Heq|Hne].
  + rewrite (bool_decide_eq_true_2 _ Heq).
    rewrite (bool_decide_eq_true_2 (Some selected = Some v)) by congruence.
    rewrite bool_decide_eq_true_2 by eauto.
    destruct skipEqualityCheck; cbn; auto.
  + rewrite (bool_decide_eq_false_2 _ Hne).
    rewrite (bool_decide_eq_false_2 (Some selected = Some v)) by congruence.
    rewrite bool_decide_eq_true_2 by eauto. cbn. auto.
- rewrite (bool_decide_eq_false_2 (is_Some None)) by (apply is_Some_None).
  cbn. auto.
Qed.

(** X28: without a controlled value the effects settle. When the value
    is one of the options, or there is no value and not exactly one
    option, they call nothing; when there is no value and exactly one
    option, they select it with one call of [onValueChange], and call
    nothing in the render that follows. *)
Theorem Select_effects_settle (value : option SelectOption.t) :
  (forall v, value = Some v ->
     (exists o, o ∈ options /\ SelectOption.value o = SelectOption.value v) ->
     effects options None skipEqualityCheck value = [])
  /\ (value = None -> length options <> 1%nat ->
      effects options None skipEqualityCheck value = [])
  /\ (forall only, value = None -> options = [only] ->
      effects options None skipEqualityCheck value
      = [OnValueChange only; SetValue (Some only)]
      /\ effects options None skipEqualityCheck
           (nextValue value (effects options None skipEqualityCheck value))
         = []).
Proof.
split; [|split].
- intros v -> Hin. unfold effects, controlledEffect, singleOptionEffect,
    missingOptionEffect.
  rewrite (bool_decide_eq_false_2 (is_Some None)) by (apply is_Some_None).
  rewrite (bool_decide_eq_true_2 (is_Some (Some v))) by eauto.
  rewrite (bool_decide_eq_true_2 _ (find_value_Some v Hin)). reflexivity.
- intros -> Hlen. unfold effects, controlledEffect, singleOptionEffect,
    missingOptionEffect.
  rewrite (bool_decide_eq_false_2 (is_Some None)) by (apply is_Some_None).
  apply Nat.eqb_neq in Hlen. rewrite Hlen. reflexivity.
- intros only -> Honly.
  assert (Hfirst : effects options None skipEqualityCheck None
                   = [OnValueChange only; SetValue (Some only)]).
  { unfold effects, controlledEffect, singleOptionEffect, missingOptionEffect,
      setInputValue.
    rewrite (bool_decide_eq_false_2 (is_Some None)) by (apply is_Some_None).
    rewrite Honly. reflexivity. }
  split; [exact Hfirst|]. rewrite Hfirst. cbn [nextValue fold_left].
  unfold effects, controlledEffect, singleOptionEffect, missingOptionEffect.
  rewrite (bool_decide_eq_false_2 (is_Some None)) by (apply is_Some_None).
  rewrite (bool_decide_eq_true_2 (is_Some (Some only))) by eauto.
  rewrite bool_decide_eq_true_2; [reflexivity|].
  apply find_value_Some. exists only. rewrite Honly. split; [left|reflexivity].
Qed.

(** X29: with a controlled value that is none of the options, and not
    exactly one option, the effects never settle: from the controlled
    value they clear the value, from no value they set the controlled
    value again, and so on, render after render, without a call of
    [onValueChange]. *)
Theorem Select_controlled_value_not_an_option (controlled : SelectOption.t) :
  (forall o, o ∈ options ->
     SelectOption.value o <> SelectOption.value controlled) ->
  length options <> 1%nat ->
  let run := effects options (Some controlled) skipEqualityCheck in
  nextValue (Some controlled) (run (Some controlled)) = None
  /\ nextValue None (run None) = Some controlled
  /\ valueChanges (run (Some controlled)) = []
  /\ valueChanges (run None) = [].
Proof.
intros Hout Hlen run. subst run.
apply Nat.eqb_neq in Hlen.
unfold effects, controlledEffect, singleOptionEffect, missingOptionEffect,
  isEqual.
rewrite (find_value_None controlled Hout).
rewrite (bool_decide_eq_false_2 (is_Some None)) by (apply is_Some_None).
rewrite (bool_decide_eq_true_2 (is_Some (Some controlled))) by eauto.
rewrite (bool_decide_eq_true_2 (Some controlled = Some controlled))
  by reflexivity.
rewrite (bool_decide_eq_false_2 (Some controlled = None)) by discriminate.
rewrite Hlen.
destruct skipEqualityCheck; cbn; auto.
Qed.

End SelectProperties.

(** ** The list of latest transactions *)

Section TransactionListProperties.

Import TransactionList.

Variable Tx : Type.
Variable PTx : Type.
Variable Input : Type.
Variable inputs : Tx -> option (list Input).
Variable timestamp : Tx -> Z.
Variable hasOnlyInputsWith : list Input -> list Address.t -> bool.
Variable getDirection : Tx -> AddressHash -> string.
Variable GENESIS_TIMESTAMP : Z.

Variable addresses : list Address.t.
Variable isLoadingData : bool.
Variable allConfirmedTxs : list (Tx * Address.t).
Variable allPendingTxs : list (PTx * Address.t).

Local Abbreviation hides :=
  (shouldHideTx Tx Input inputs timestamp hasOnlyInputsWith getDirection
     GENESIS_TIMESTAMP addresses).
Local Abbreviation allRows :=
  (rows Tx PTx Input inputs timestamp hasOnlyInputsWith getDirection
     GENESIS_TIMESTAMP addresses isLoadingData allConfirmedTxs allPendingTxs).

Lemma length_eqb_0 {A : Type} (xs : list A) :
  (length xs =? 0)%nat = true <-> xs = [].
Proof. rewrite Nat.eqb_eq. now destruct xs. Qed.

Lemma omap_all_None {A B : Type} (f : A -> option B) (xs : list A) :
  Forall (fun x => f x = None) xs -> omap f xs = [].
Proof.
induction 1 as [|x xs Hx _ IH]; [reflexivity|]. cbn. now rewrite Hx.
Qed.

(** X30: the placeholder row is shown exactly when nothing is being
    loaded and there is no transaction at all, and it is then the only
    row; with the loading skeleton there is no row. Every pending
    transaction has its row, and so has every confirmed transaction that
    has no inputs recorded or carries the genesis timestamp. But when
    nothing is being loaded, nothing is pending and every confirmed
    transaction is hidden, there is no row at all: neither the
    placeholder nor the skeleton stands for the hidden ones. *)
Theorem TransactionList_rows :
  let shown :=
    rows Tx PTx Input inputs timestamp hasOnlyInputsWith getDirection
      GENESIS_TIMESTAMP addresses isLoadingData allConfirmedTxs allPendingTxs in
  let skeleton :=
    showSkeletonLoading Tx PTx isLoadingData allConfirmedTxs allPendingTxs in
  let hidden :=
    shouldHideTx Tx Input inputs timestamp hasOnlyInputsWith getDirection
      GENESIS_TIMESTAMP addresses in
  (PlaceholderRow ∈ shown
   <-> isLoadingData = false /\ allPendingTxs = [] /\ allConfirmedTxs = [])
  /\ (PlaceholderRow ∈ shown -> shown = [PlaceholderRow])
  /\ (skeleton = true -> shown = [])
  /\ (forall tx address, (tx, address) ∈ allPendingTxs ->
        PendingRow tx address ∈ shown)
  /\ (forall tx address, (tx, address) ∈ allConfirmedTxs ->
        inputs tx = None \/ timestamp tx = GENESIS_TIMESTAMP ->
        ConfirmedRow tx address ∈ shown)
  /\ (isLoadingData = false -> allPendingTxs = [] -> allConfirmedTxs <> [] ->
      Forall (fun '(tx, address) => hidden tx address = true) allConfirmedTxs ->
      shown = [] /\ skeleton = false).
Proof.
intros shown skeleton hidden. subst shown skeleton hidden. cbv beta.
assert (Hplace : PlaceholderRow ∈ allRows
                 -> isLoadingData = false /\ allPendingTxs = []
                    /\ allConfirmedTxs = []).
{ unfold rows. rewrite !elem_of_app. intros [Hin|[Hin|Hin]].
  - apply list_elem_of_In, in_map_iff in Hin.
    destruct Hin as ([tx a] & Habs & _). discriminate.
  - apply list_elem_of_omap in Hin. destruct Hin as ([tx a] & _ & Habs).
    destruct (hides tx a); discriminate.
  - destruct isLoadingData; [inversion Hin|].
    destruct allPendingTxs; [|inversion Hin].
    destruct allConfirmedTxs; [auto|inversion Hin]. }
assert (Hempty : isLoadingData = false -> allPendingTxs = []
                 -> allConfirmedTxs = [] -> allRows = [PlaceholderRow]).
{ intros Hl Hp Hc. unfold rows. now rewrite Hl, Hp, Hc. }
split; [|split; [|split; [|split; [|split]]]].
- split; [exact Hplace|]. intros (Hl & Hp & Hc).
  rewrite (Hempty Hl Hp Hc). left.
- intros Hin. destruct (Hplace Hin) as (Hl & Hp & Hc). now apply Hempty.
- unfold showSkeletonLoading, rows. rewrite !andb_true_iff, !length_eqb_0.
  intros [[-> ->] ->]. reflexivity.
- intros tx address Hin. unfold rows. apply elem_of_app. left.
  apply list_elem_of_In, in_map_iff. exists (tx, address).
  split; [reflexivity|now apply list_elem_of_In].
- intros tx address Hin Hvisible. unfold rows.
  apply elem_of_app. right. apply elem_of_app. left.
  apply list_elem_of_omap. exists (tx, address). split; [exact Hin|].
  assert (Hshown : hides tx address = false).
  { unfold shouldHideTx. destruct Hvisible as [-> | Hgenesis]; [reflexivity|].
    destruct (inputs tx); [|reflexivity].
    rewrite (bool_decide_eq_true_2 _ Hgenesis). cbn.
    now rewrite andb_false_r. }
  now rewrite Hshown.
- intros Hl Hp Hc Hall. split.
  + unfold rows. rewrite Hl, Hp. cbn [List.map app negb andb length Nat.eqb].
    assert (Hlen : (length allConfirmedTxs =? 0)%nat = false).
    { destruct allConfirmedTxs; [contradiction|reflexivity]. }
    rewrite Hlen, app_nil_r. apply omap_all_None.
    eapply Forall_impl; [exact Hall|]. intros [tx a] Hh. now rewrite Hh.
  + unfold showSkeletonLoading. now rewrite Hl.
Qed.

End TransactionListProperties.

(** ** The theorems at concrete inputs *)

(** Saving the address of [worldA] under the secret 'secret' of the
    wallet 'wallet': the two requests are issued at once, and the
    settings are in the store when the answers have arrived, the
    unconfirmed transactions first. *)
Lemma saveNewAddress_saves_witness :
  trace (snd (saveNewAddress "wallet" (Some idleClient) false "mainnet"
                "online" (fun _ s => s) convertByHash 0%nat (Some "secret")
                worldA))
  = [SetAddressesState;
     Call (FetchAddressDetails 0%nat);
     Call (GetAddressesAddressUnconfirmedTransactions "A")]
  /\ storage (afterwards [1; 0; 0]%nat
                (saveNewAddress "wallet" (Some idleClient) false "mainnet"
                   "online" (fun _ s => s) convertByHash 0%nat (Some "secret")
                   worldA))
     = [(WalletKey "secret" "wallet", AddressMetadata.mk 0 true None None)].
Proof.
assert (Hon : "online" <> "offline") by discriminate.
assert (Hne : "secret" <> "") by discriminate.
pose proof (saveNewAddress_saves "wallet" (Some idleClient) false "mainnet"
              "online" (fun _ s => s) convertByHash 0%nat addressA "secret"
              worldA eq_refl Hne) as H.
cbv zeta in H. destruct H as (_ & Hreq & Hall).
split.
- exact (proj1 (Hreq (ex_intro _ idleClient eq_refl) Hon)).
- exact (proj1 (Hall [1; 0; 0]%nat)).
Defined.

(** With the failing client the details of the address of [worldA] are
    still requested. *)
Lemma fetchAndStoreAddressesData_requests_all_witness :
  detailsCalls
    (trace (snd (fetchAndStoreAddressesData (Some failingClient) "mainnet"
                   "online" (fun _ s => s) [0%nat] false worldA)))
  = [0%nat].
Proof.
assert (Hon : "online" <> "offline") by discriminate.
assert (Hall : Forall (fun l => is_Some (heap worldA !! l)) [0%nat]).
{ repeat constructor. exists addressA. reflexivity. }
exact (fetchAndStoreAddressesData_requests_all failingClient "mainnet"
         "online" (fun _ s => s) Hon [0%nat] false worldA Hall).
Defined.

(** The pending ids of [worldA] are distinct and stay so. *)
Lemma fetchPendingTxs_no_duplicates_witness :
  distinctPendingIds worldA
  /\ distinctPendingIds
       (snd (fetchPendingTxs (Some idleClient) "mainnet" "online"
               (fun _ s => s) convertByHash [0%nat] worldA)).
Proof.
assert (Hw : distinctPendingIds worldA).
{ unfold distinctPendingIds. cbn.
  constructor; [apply NoDup_singleton|constructor]. }
split; [exact Hw|].
exact (fetchPendingTxs_no_duplicates (Some idleClient) "mainnet" "online"
         (fun _ s => s) convertByHash (fun _ _ _ => eq_refl) [0%nat] worldA Hw).
Defined.

(** Polling [worldA] with a client that finds no confirmed transaction
    leaves the registry as it was. *)
Lemma polling_refresh_without_confirmation_witness :
  nothingConfirmed noHistoryClient
  /\ addressesState
       (snd (fetchAndStoreAddressesData (Some noHistoryClient) "mainnet"
               "online" (fun _ s => s) [0%nat] true worldA))
     = addressesState worldA.
Proof.
assert (Hon : "online" <> "offline") by discriminate.
assert (Hnc : nothingConfirmed noHistoryClient).
{ intros a a2 [= <-]. apply Forall_forall. intros tx _. reflexivity. }
assert (Hall : Forall (fun l => is_Some (heap worldA !! l)) [0%nat]).
{ repeat constructor. exists addressA. reflexivity. }
split; [exact Hnc|].
exact (proj1 (proj2 (polling_refresh_without_confirmation (fun _ s => s)
                       noHistoryClient "mainnet" "online" Hon [0%nat] worldA
                       Hnc Hall))).
Defined.

(** A refresh of the address of [worldA] that is not a polling refresh
    records one registry update. *)
Lemma refresh_updates_registry_iff_witness :
  stateUpdates
    (trace (snd (fetchAndStoreAddressesData (Some idleClient) "mainnet"
                   "online" (fun _ s => s) [0%nat] false worldA)))
  = 1%nat.
Proof.
assert (Hon : "online" <> "offline") by discriminate.
exact (proj1 (proj1 (refresh_updates_registry_iff (fun _ s => s) idleClient
                       "mainnet" "online" Hon false 0%nat addressA addressA
                       addressA worldA eq_refl eq_refl eq_refl)
                (or_introl eq_refl))).
Defined.

(** Locking the wallet of [worldA] empties the registry. *)
Lemma initializeEffect_clears_registry_witness :
  stableStatus "online"
  /\ addressesState
       (snd (initializeEffect "wallet" (Some idleClient) None false "online"
               "node" "explorer" worldA))
     = JsMap.empty.
Proof.
assert (Hs : stableStatus "online") by (split; discriminate).
split; [exact Hs|].
exact (proj1 (initializeEffect_clears_registry "wallet" (Some idleClient) None
                false "online" "node" "explorer" worldA Hs
                (or_introl eq_refl))).
Defined.

(** The earlier revision, from the one stored record of [worldStored]
    and without a client: one address is created from the record. *)
Lemma Legacy_initialize_from_metadata_witness :
  heap (snd (Legacy.initializeCurrentNetworkAddresses "acct"
               (Some (Legacy.mkWallet "A" "pub" "priv" "seed")) None "mainnet"
               (fun _ => 0) (fun _ s => s)
               (fun seed _ => (seed, "pub", "priv")) worldStored))
  = [Address.new (fun _ => 0) "seed" "pub" "priv" 0
       (AddressSettings.mk true None None)].
Proof.
assert (Hname : "acct" <> "") by discriminate.
assert (Hload : AddressMetadataStorage.load (AccountKey "acct")
                  (storage worldStored) <> []) by discriminate.
pose proof (Legacy_initialize_from_metadata "acct"
              (Legacy.mkWallet "A" "pub" "priv" "seed") None "mainnet"
              (fun _ => 0) (fun _ s => s)
              (fun seed _ => (seed, "pub", "priv")) worldStored Hname Hload)
  as H.
cbv zeta in H. destruct H as (_ & _ & _ & _ & H).
rewrite (H eq_refl). reflexivity.
Defined.

(** Saving the empty object with a parser that knows it, into an empty
    storage, and loading it again. *)
Lemma settingsSave_then_load_witness :
  LocalSettings.settingsLoadOrDefault
    (fun str => if bool_decide (str = "{}") then inr (LocalSettings.JObject [])
                else inl (Error "SyntaxError"))
    (LocalSettings.settingsSave (fun _ => "{}") (LocalSettings.JObject [])
       (fun _ => None))
  = inr (LocalSettings.JObject []).
Proof.
exact (proj1 (proj2 (settingsSave_then_load
                       (fun str => if bool_decide (str = "{}")
                                   then inr (LocalSettings.JObject [])
                                   else inl (Error "SyntaxError"))
                       (fun _ => "{}") (LocalSettings.JObject [])
                       (fun _ => None) eq_refl))).
Defined.

(** Two options, neither of which is the controlled value. *)
Lemma Select_controlled_value_not_an_option_witness :
  Select.nextValue (Some (SelectOption.mk "c" "C"))
    (Select.effects [SelectOption.mk "a" "A"; SelectOption.mk "b" "B"]
       (Some (SelectOption.mk "c" "C")) false (Some (SelectOption.mk "c" "C")))
  = None
  /\ Select.nextValue None
       (Select.effects [SelectOption.mk "a" "A"; SelectOption.mk "b" "B"]
          (Some (SelectOption.mk "c" "C")) false None)
     = Some (SelectOption.mk "c" "C").
Proof.
assert (Hout : forall o,
          o ∈ [SelectOption.mk "a" "A"; SelectOption.mk "b" "B"] ->
          SelectOption.value o <> SelectOption.value (SelectOption.mk "c" "C")).
{ intros o Ho. apply list_elem_of_In in Ho.
  destruct Ho as [<-|[<-|[]]]; discriminate. }
assert (Hlen : length [SelectOption.mk "a" "A"; SelectOption.mk "b" "B"]
               <> 1%nat) by discriminate.
pose proof (Select_controlled_value_not_an_option
              [SelectOption.mk "a" "A"; SelectOption.mk "b" "B"] false
              (SelectOption.mk "c" "C") Hout Hlen) as H.
cbv zeta in H. destruct H as (H1 & H2 & _).
split; [exact H1|exact H2].
Defined.
